(** * Diffraxia: frame decoding and radial integration

    A shallow embedding of [diffraxia/eiger.py] and [diffraxia/integrate.py]
    with the properties of their specification.

    - An HDF5 file is a tree of groups and datasets; a group is an
      association list from link names to nodes, in the order in which
      [keys()] lists them.
    - Python exceptions are a sum type: every function that can raise returns
      a [result].
    - The codec [dectris.compression.decompress] is an external service: it
      is a variable of the section that embeds the decoder.
    - NumPy arrays are a shape together with the flat, row-major list of
      their elements.  An image holds integers, angles and sums are binary64
      numbers.
    - What depends on the interpreter, the digit limit of [int] and its
      reading of text outside ASCII, is a record the decoder is given.
    - [np.argsort] is free in the order it gives to equal samples: it is a
      variable of the section that embeds [np.histogram]. *)

From Stdlib Require Import ZArith List String Ascii Bool Lia Arith DecimalString.
From Stdlib Require Import Floats Uint63.
From Stdlib Require Import Sorting.Sorted Sorting.Permutation.
From Stdlib.Strings Require Byte.
From Stdlib Require DecimalNat.
Import ListNotations.

#[local] Set Warnings "-register-all,-inexact-float".

Local Open Scope string_scope.
Local Open Scope Z_scope.

(** ** Python values and exceptions *)

(** What [dataset[()]] yields for the datasets of a payload group: an
    integer scalar, a one-dimensional integer array, or a byte string. *)
Inductive h5value : Type :=
| VInt (z : Z)
| VInts (l : list Z)
| VBytes (b : list Byte.byte).

(** A node of the file: a dataset or a group of named children. *)
Inductive h5node : Type :=
| Dataset (v : h5value)
| Group (children : list (string * h5node)).

(** The values [_read_scalar] returns. *)
Inductive pyvalue : Type :=
| PInt (z : Z)
| PStr (s : string)
| PInts (l : list Z).

(** The failures of the two modules.  The source raises [RuntimeError] with
    a message for the first four; the message's variable parts are the
    constructor's arguments.  [PyError] stands for every other exception
    (TypeError, ValueError, IndexError) raised by Python, h5py, NumPy or the
    codec. *)
Inductive error : Type :=
| LayoutError (available_keys : list string)
| MetadataMismatchError (elem_size expected : Z) (dtype_meta : pyvalue)
| DecodedSizeMismatchError (len_buf expected : Z) (shape : list Z) (dtype : string)
| MissingGroupError (group_name : string)
| PyError (what : string).

Inductive result (A : Type) : Type :=
| Ok (a : A)
| Err (e : error).

Arguments Ok {A} a.
Arguments Err {A} e.

Definition bind {A B : Type} (r : result A) (k : A -> result B) : result B :=
  match r with
  | Ok a => k a
  | Err e => Err e
  end.

Notation "x <- r ;; k" := (bind r (fun x => k))
  (at level 61, r at next level, right associativity).

Definition is_ok {A : Type} (r : result A) : bool :=
  match r with Ok _ => true | Err _ => false end.

Fixpoint mapM {A B : Type} (f : A -> result B) (l : list A) : result (list B) :=
  match l with
  | [] => Ok []
  | x :: l' => y <- f x ;; ys <- mapM f l' ;; Ok (y :: ys)
  end.

(** ** Groups *)

(** [name in group] *)
Definition contains (children : list (string * h5node)) (name : string) : bool :=
  existsb (fun kv => String.eqb (fst kv) name) children.

(** [group[name]], which raises [KeyError] when the link is absent. *)
Fixpoint lookup (children : list (string * h5node)) (name : string) : option h5node :=
  match children with
  | [] => None
  | (k, v) :: rest => if String.eqb k name then Some v else lookup rest name
  end.

Definition getitem (children : list (string * h5node)) (name : string) : result h5node :=
  match lookup children name with
  | Some n => Ok n
  | None => Err (PyError "KeyError")
  end.

(** [list(group.keys())] *)
Definition keys (children : list (string * h5node)) : list string :=
  map fst children.

(** [isinstance(node, h5py.Group)] *)
Definition is_group (n : h5node) : bool :=
  match n with Group _ => true | Dataset _ => false end.

(** ** Payload locator *)

Definition _REQUIRED_KEYS : list string :=
  ["data"; "shape"; "dtype"; "elem_size"; "compression_type"].

Definition _has_required_keys (group : list (string * h5node)) : bool :=
  forallb (fun key => contains group key) _REQUIRED_KEYS.

(** The branch of [_select_payload_group] for the multi-channel layout: the
    children of the ["difference"] subgroup when the branch returns. *)
Definition difference_payload (frame_group : list (string * h5node))
  : option (list (string * h5node)) :=
  if contains frame_group "difference" then
    match lookup frame_group "difference" with
    | Some (Group diff) => if _has_required_keys diff then Some diff else None
    | _ => None
    end
  else None.

Definition _select_payload_group (frame_group : list (string * h5node))
  : result (list (string * h5node)) :=
  match difference_payload frame_group with
  | Some diff => Ok diff
  | None =>
      if _has_required_keys frame_group then Ok frame_group
      else Err (LayoutError (keys frame_group))
  end.

(** The frame group has a ["difference"] child that is a group holding the
    five required fields. *)
Definition difference_qualifies (frame_group : list (string * h5node)) : Prop :=
  exists diff,
    lookup frame_group "difference" = Some (Group diff)
    /\ _has_required_keys diff = true.

(** ** Reading datasets *)

(** [node[()]]: the value of a dataset; h5py raises on a group. *)
Definition read_dataset (n : h5node) : result h5value :=
  match n with
  | Dataset v => Ok v
  | Group _ => Err (PyError "TypeError")
  end.

(** [bytes.decode("ascii", errors="ignore")]: bytes above 127 are dropped. *)
Definition decode_ascii_ignore (b : list Byte.byte) : string :=
  string_of_list_ascii
    (map ascii_of_byte (filter (fun x => (Byte.to_N x <? 128)%N) b)).

(** [_read_scalar]: byte strings are decoded, everything else is returned as
    read (an integer scalar is no [ndarray], a one-dimensional array has a
    shape other than [()]). *)
Definition _read_scalar (dataset : h5node) : result pyvalue :=
  value <- read_dataset dataset ;;
  match value with
  | VBytes b => Ok (PStr (decode_ascii_ignore b))
  | VInt z => Ok (PInt z)
  | VInts l => Ok (PInts l)
  end.

(** *** [int(...)] on text

    Base-10 [int] as CPython reads ASCII text: white space around the number
    is skipped, one sign is allowed, digits may be grouped by single
    underscores, and a text of more digits than the interpreter's limit is
    refused.  What [int] makes of text with characters outside ASCII (the
    decimal digits and the white space of other scripts) is left to the
    interpreter. *)

(** The interpreter's side of [int]: [sys.get_int_max_str_digits()], which
    is 0 where there is no limit, and [int] on text that is not ASCII. *)
Record interpreter : Type := mk_interpreter {
  int_max_str_digits : Z;
  int_of_unicode : string -> option Z
}.

Definition is_ascii (c : ascii) : bool := (N_of_ascii c <? 128)%N.

(** The white space [int] skips: tab, line feed, vertical tab, form feed,
    carriage return and space. *)
Definition is_c_space (c : ascii) : bool :=
  let n := N_of_ascii c in
  (((9 <=? n) && (n <=? 13)) || (n =? 32))%N.

(** The white space of [str.strip] in ASCII text: the four separators
    0x1c to 0x1f as well. *)
Definition is_py_space (c : ascii) : bool :=
  let n := N_of_ascii c in
  (((9 <=? n) && (n <=? 13)) || ((28 <=? n) && (n <=? 32)))%N.

Definition digit_of (c : ascii) : option Z :=
  let n := Z.of_N (N_of_ascii c) in
  if (48 <=? n) && (n <=? 57) then Some (n - 48) else None.

Fixpoint lstrip (space : ascii -> bool) (l : list ascii) : list ascii :=
  match l with
  | c :: l' => if space c then lstrip space l' else l
  | [] => []
  end.

Definition strip_by (space : ascii -> bool) (l : list ascii) : list ascii :=
  rev (lstrip space (rev (lstrip space l))).

(** [str.strip()] on ASCII text *)
Definition strip (l : list ascii) : list ascii := strip_by is_py_space l.

(** [digits_value acc after_digit l]: the digits of [l] appended to [acc];
    [after_digit] says whether the previous character was a digit, the only
    place where an underscore or the end of the text may come. *)
Fixpoint digits_value (acc : Z) (after_digit : bool) (l : list ascii) : option Z :=
  match l with
  | [] => if after_digit then Some acc else None
  | c :: l' =>
      match digit_of c with
      | Some d => digits_value (10 * acc + d) true l'
      | None =>
          if Ascii.eqb c "_"%char && after_digit then digits_value acc false l'
          else None
      end
  end.

(** The number of digits, which is what the limit counts: sign and
    underscores are left out. *)
Definition digit_count (l : list ascii) : Z :=
  Z.of_nat (List.length (filter (fun c => match digit_of c with
                                          | Some _ => true
                                          | None => false
                                          end) l)).

Section Interpreter.

Variable py : interpreter.

(** The limit is looked at for more than 640 digits only, and a limit of 0
    is none. *)
Definition over_digit_limit (l : list ascii) : bool :=
  (640 <? digit_count l) && (0 <? int_max_str_digits py)
  && (int_max_str_digits py <? digit_count l).

Definition int_of_digits (l : list ascii) : option Z :=
  if over_digit_limit l then None else digits_value 0 false l.

Definition int_of_ascii (l : list ascii) : option Z :=
  match strip_by is_c_space l with
  | c :: l' =>
      if Ascii.eqb c "-"%char then option_map Z.opp (int_of_digits l')
      else if Ascii.eqb c "+"%char then int_of_digits l'
      else int_of_digits (c :: l')
  | [] => None
  end.

Definition py_int_str (s : string) : option Z :=
  if forallb is_ascii (list_ascii_of_string s)
  then int_of_ascii (list_ascii_of_string s)
  else int_of_unicode py s.

(** [int(bytes)] reads ASCII text and rejects any other byte. *)
Definition py_int_bytes (b : list Byte.byte) : option Z :=
  if forallb (fun x => (Byte.to_N x <? 128)%N) b
  then int_of_ascii (map ascii_of_byte b)
  else None.

Definition of_option {A : Type} (what : string) (o : option A) : result A :=
  match o with
  | Some a => Ok a
  | None => Err (PyError what)
  end.

(** [int(v)] for a value returned by [_read_scalar]; NumPy converts an array
    to a scalar only when it has a single element. *)
Definition py_int (v : pyvalue) : result Z :=
  match v with
  | PInt z => Ok z
  | PStr s => of_option "ValueError" (py_int_str s)
  | PInts [z] => Ok z
  | PInts _ => Err (PyError "TypeError")
  end.

(** [_read_shape]: [np.atleast_1d] turns a scalar into a one-element array,
    and every element goes through [int]. *)
Definition _read_shape (shape_ds : h5node) : result (list Z) :=
  arr <- read_dataset shape_ds ;;
  match arr with
  | VInt z => Ok [z]
  | VInts l => Ok l
  | VBytes b => z <- of_option "ValueError" (py_int_bytes b) ;; Ok [z]
  end.

(** ** Arrays *)

Record ndarray : Type := mk_ndarray {
  shape : list Z;
  data : list Z
}.

Definition uint32_max : Z := 4294967295.

(** The value of four bytes read as [uint32] in the byte order of the
    machine (little-endian). *)
Definition le32 (b0 b1 b2 b3 : Byte.byte) : Z :=
  Z.of_N (Byte.to_N b0)
  + Z.shiftl (Z.of_N (Byte.to_N b1)) 8
  + Z.shiftl (Z.of_N (Byte.to_N b2)) 16
  + Z.shiftl (Z.of_N (Byte.to_N b3)) 24.

Fixpoint words_of (buf : list Byte.byte) : list Z :=
  match buf with
  | b0 :: b1 :: b2 :: b3 :: rest => le32 b0 b1 b2 b3 :: words_of rest
  | _ => []
  end.

(** [np.frombuffer(buf, dtype=uint32)] *)
Definition frombuffer (buf : list Byte.byte) : result (list Z) :=
  if Z.of_nat (List.length buf) mod 4 =? 0 then Ok (words_of buf)
  else Err (PyError "ValueError").

Definition prod (l : list Z) : Z := fold_right Z.mul 1 l.

(** Two's-complement wrap-around to 64 bits. *)
Definition wrap64 (z : Z) : Z :=
  (z + 2 ^ 63) mod 2 ^ 64 - 2 ^ 63.

Definition in_int64 (z : Z) : bool := (- 2 ^ 63 <=? z) && (z <? 2 ^ 63).

(** [int(np.prod(shape))] for a tuple of Python ints: NumPy multiplies in
    [int64] and wraps silently.  (Integers of an HDF5 dataset have at most
    64 bits; when one needs the unsigned type, NumPy multiplies in
    [uint64].) *)
Definition np_prod (shape : list Z) : Z :=
  if forallb in_int64 shape then wrap64 (prod shape)
  else prod shape mod 2 ^ 64.

Definition count_occ_Z (x : Z) (l : list Z) : nat :=
  List.length (filter (Z.eqb x) l).

(** [flat.reshape(shape)]: the dimensions fit [int64], are non-negative and
    their product is the number of elements, except that a single [-1]
    stands for the dimension that makes it so. *)
Definition reshape (flat : list Z) (shape : list Z) : result ndarray :=
  let n := Z.of_nat (List.length flat) in
  if negb (forallb in_int64 shape) then Err (PyError "OverflowError")
  else if forallb (Z.leb 0) shape then
    if prod shape =? n then Ok (mk_ndarray shape flat)
    else Err (PyError "ValueError")
  else
    let known := filter (fun d => negb (d =? -1)) shape in
    if (count_occ_Z (-1) shape =? 1)%nat && forallb (Z.leb 0) known
       && (0 <? prod known) && (n mod prod known =? 0)
    then Ok (mk_ndarray (map (fun d => if d =? -1 then n / prod known else d) shape) flat)
    else Err (PyError "ValueError").

(** ** Frame decoder *)

(** The fields of a payload group as [get_frame_array] reads them. *)
Record payload_record : Type := mk_payload {
  raw_data : h5value;
  payload_shape : list Z;
  dtype_meta : pyvalue;
  elem_size : Z;
  compression_type : pyvalue
}.

(** Lines 148-152 of [get_frame_array]: the five reads, in order. *)
Definition read_payload (payload : list (string * h5node)) : result payload_record :=
  raw_data <- (d <- getitem payload "data" ;; read_dataset d) ;;
  shape <- (d <- getitem payload "shape" ;; _read_shape d) ;;
  dtype_meta <- (d <- getitem payload "dtype" ;; _read_scalar d) ;;
  elem_size <- (d <- getitem payload "elem_size" ;; v <- _read_scalar d ;; py_int v) ;;
  compression_type <- (d <- getitem payload "compression_type" ;; _read_scalar d) ;;
  Ok (mk_payload raw_data shape dtype_meta elem_size compression_type).

Section Decoder.

(** [dectris.compression.decompress(raw_data, compression_type, elem_size)] *)
Variable decompress : h5value -> pyvalue -> Z -> result (list Byte.byte).

Definition decode_payload (p : payload_record) : result ndarray :=
  let itemsize := 4 in
  if negb (elem_size p =? itemsize) then
    Err (MetadataMismatchError (elem_size p) itemsize (dtype_meta p))
  else
    buf <- decompress (raw_data p) (compression_type p) (elem_size p) ;;
    let expected_nbytes := np_prod (payload_shape p) * itemsize in
    if negb (Z.of_nat (List.length buf) =? expected_nbytes) then
      Err (DecodedSizeMismatchError (Z.of_nat (List.length buf)) expected_nbytes
                                    (payload_shape p) "uint32")
    else
      flat <- frombuffer buf ;;
      reshape flat (payload_shape p).

Definition get_frame_array (frame_group : list (string * h5node)) : result ndarray :=
  payload <- _select_payload_group frame_group ;;
  p <- read_payload payload ;;
  decode_payload p.

(** *** Batch converter *)

(** [sorted(..., key=...)] is stable: an element goes before the first one
    whose key is not smaller. *)
Fixpoint insert_by_key (x : Z * string) (l : list (Z * string)) : list (Z * string) :=
  match l with
  | [] => [x]
  | y :: l' => if fst x <=? fst y then x :: l else y :: insert_by_key x l'
  end.

Definition sorted_by_key (l : list (Z * string)) : list (Z * string) :=
  fold_right insert_by_key [] l.

(** [list_frame_keys]: [int(k)] is taken of every key before anything is
    ordered, so one key that is no number fails the call. *)
Definition list_frame_keys (group : list (string * h5node)) : result (list string) :=
  keyed <- mapM (fun k => z <- of_option "ValueError" (py_int_str k) ;; Ok (z, k))
                (keys group) ;;
  Ok (map snd (sorted_by_key keyed)).

(** The slice [l[:n]]; a negative [n] counts from the end. *)
Definition slice_to {A : Type} (l : list A) (n : Z) : list A :=
  if 0 <=? n then firstn (Z.to_nat n) l
  else firstn (Z.to_nat (Z.of_nat (List.length l) + n)) l.

(** Lines 217-220 of [eiger_to_tiff]: the keys the loop runs over. *)
Definition frame_keys (group : list (string * h5node)) (nframes : option Z)
  : result (list string) :=
  keys <- list_frame_keys group ;;
  match nframes with
  | Some n => Ok (slice_to keys n)
  | None => Ok keys
  end.

(** Lines 230-234 of [eiger_to_tiff]: the saturation marker, the largest
    value of the array's integer type, becomes 0; the result is converted to
    [uint32]. *)
Definition scrub_sentinel (img : ndarray) : ndarray :=
  let sentinel := uint32_max in
  let scrubbed := map (fun x => if x =? sentinel then 0 else x) (data img) in
  mk_ndarray (shape img) (map (fun x => x mod 2 ^ 32) scrubbed).

(** [f"frame_{idx:05d}.tiff"] *)
Definition frame_name (idx : nat) : string :=
  let digits := NilZero.string_of_uint (Nat.to_uint idx) in
  let pad := string_of_list_ascii (repeat "0"%char (5 - String.length digits)) in
  "frame_" ++ pad ++ digits ++ ".tiff".

(** One iteration of the loop: the file it writes. *)
Definition convert_frame (group : list (string * h5node)) (idx : nat) (k : string)
  : result (string * ndarray) :=
  frame_group <- getitem group k ;;
  img <- match frame_group with
         | Group children => get_frame_array children
         | Dataset _ => Err (PyError "TypeError")
         end ;;
  Ok (frame_name idx, scrub_sentinel img).

(** The loop over [enumerate(keys)]: the files written, in order, and the
    exception that stopped the loop, if any. *)
Fixpoint convert_frames (group : list (string * h5node)) (idx : nat) (ks : list string)
  : list (string * ndarray) * option error :=
  match ks with
  | [] => ([], None)
  | k :: ks' =>
      match convert_frame group idx k with
      | Ok file =>
          let (files, e) := convert_frames group (S idx) ks' in (file :: files, e)
      | Err e => ([], Some e)
      end
  end.

(** [eiger_to_tiff] on an opened file [f]: the TIFF files written into the
    output folder and how the call ended. *)
Definition eiger_to_tiff (f : list (string * h5node)) (group_name : string)
    (nframes : option Z) : list (string * ndarray) * option error :=
  if negb (contains f group_name) then ([], Some (MissingGroupError group_name))
  else
    match lookup f group_name with
    | Some (Group group) =>
        match frame_keys group nframes with
        | Ok keys => convert_frames group 0 keys
        | Err e => ([], Some e)
        end
    | _ => ([], Some (PyError "AttributeError"))
    end.

End Decoder.

End Interpreter.

(** ** Lists *)

(** The longest prefix whose elements satisfy [f], and what follows it. *)
Fixpoint take_while {A : Type} (f : A -> bool) (l : list A) : list A :=
  match l with
  | x :: l' => if f x then x :: take_while f l' else []
  | [] => []
  end.

Fixpoint drop_while {A : Type} (f : A -> bool) (l : list A) : list A :=
  match l with
  | x :: l' => if f x then drop_while f l' else l
  | [] => []
  end.

(** ** Radial integration

    Angles, bin edges, bin centers and summed intensities are binary64
    numbers with the IEEE 754 operations and comparisons NumPy uses for
    [float64].  The image holds integers, the counts of the detector, which
    [astype(float)] turns into binary64 numbers before anything is added. *)

(** An array of [float64]: a shape and the flat, row-major elements. *)
Record farray : Type := mk_farray {
  fshape : list Z;
  fdata : list float
}.

(** [float(z)] for a non-negative [z] below 2^63. *)
Definition float_of_Z (z : Z) : float := of_uint63 (Uint63.of_Z z).

(** [x.astype(float)] for an integer [x]: the binary64 number nearest to
    it, a tie going to the even one, and infinity beyond the range. *)
Definition astype_float (z : Z) : float :=
  SF2Prim (binary_normalize prec emax z 0 false).

(** [np.arange(0, num)] *)
Definition arange (num : Z) : list Z := map Z.of_nat (seq 0 (Z.to_nat num)).

(** [l[:-1]], [l[1:]] and [l[-1:]] *)
Definition but_last {A : Type} (l : list A) : list A := removelast l.
Definition but_first {A : Type} (l : list A) : list A := tl l.
Definition last_only {A : Type} (l : list A) : list A := skipn (List.length l - 1) l.

(** [np.linspace(start, stop, num)] on [float64] scalars with the end point
    included: the samples are [i * step + start], the last one is then set
    to [stop].  No array holds 2^63 elements or more. *)
Definition linspace (start stop : float) (num : Z) : result (list float) :=
  if num <? 0 then Err (PyError "ValueError")
  else if 2 ^ 63 <=? num then Err (PyError "MemoryError")
  else
    let div := num - 1 in
    let delta := (stop - start)%float in
    let y := map float_of_Z (arange num) in
    let y :=
      if 0 <? div then
        let step := (delta / float_of_Z div)%float in
        if (step =? 0)%float
        then map (fun v => (v / float_of_Z div * delta)%float) y
        else map (fun v => (v * step)%float) y
      else map (fun v => (v * delta)%float) y in
    let y := map (fun v => (v + start)%float) y in
    Ok (if 1 <? num then (but_last y ++ [stop])%list else y).

(** The order NumPy sorts and searches [float64] by: NaN is above every
    number. *)
Definition np_less (a b : float) : bool :=
  (a <? b)%float || (is_nan b && negb (is_nan a)).

(** [a[index]] for an array of indices *)
Definition take {A : Type} (d : A) (a : list A) (index : list nat) : list A :=
  map (fun i => nth i a d) index.

(** [l[i:i+n]] *)
Definition slice {A : Type} (l : list A) (i n : nat) : list A :=
  firstn n (skipn i l).

(** [np.cumsum]: the running sums, each the sum before it plus the next
    element. *)
Fixpoint cumsum_from (acc : float) (l : list float) : list float :=
  match l with
  | x :: l' => (acc + x)%float :: cumsum_from (acc + x)%float l'
  | [] => []
  end.

Definition cumsum (l : list float) : list float :=
  match l with
  | x :: l' => x :: cumsum_from x l'
  | [] => []
  end.

(** [x + y] and [np.diff] on arrays *)
Definition np_add (x y : list float) : list float :=
  map (fun p => (fst p + snd p)%float) (combine x y).

Definition np_diff (l : list float) : list float :=
  map (fun p => (snd p - fst p)%float) (combine (but_last l) (but_first l)).

(** [a.searchsorted(v, 'left')] and [a.searchsorted(v, 'right')] on a
    sorted array: the number of elements below [v], and the number of
    elements not above it. *)
Definition searchsorted_left (a : list float) (v : float) : nat :=
  List.length (take_while (fun x => np_less x v) a).

Definition searchsorted_right (a : list float) (v : float) : nat :=
  List.length (take_while (fun x => negb (np_less v x)) a).

(** NumPy's [_search_sorted_inclusive]: the last edge counts the samples
    equal to it. *)
Definition _search_sorted_inclusive (a v : list float) : list nat :=
  (map (searchsorted_left a) (but_last v)
   ++ map (searchsorted_right a) (last_only v))%list.

(** [np.any(bins[:-1] > bins[1:])] *)
Definition edges_decrease (bins : list float) : bool :=
  existsb (fun p => (snd p <? fst p)%float) (combine (but_last bins) (but_first bins)).

(** The samples are taken 65536 at a time. *)
Definition BLOCK : nat := Z.to_nat 65536.

(** [range(0, len, BLOCK)] *)
Definition block_starts (len : nat) : list nat :=
  map (fun j => (j * BLOCK)%nat) (seq 0 ((len + (BLOCK - 1)) / BLOCK)).

Section Histogram.

(** [np.argsort]: the indices that put an array in ascending order.  The
    sort NumPy uses by default is not stable: which of two equal samples
    comes first is its choice. *)
Variable argsort : list float -> list nat.

(** One turn of the loop of [np.histogram]: the weights of a block are put
    in the order of its sorted samples and added up from the left; the sum
    up to each bin edge is read off. *)
Definition block_cumulative (tmp_a tmp_w bin_edges : list float) : list float :=
  let sorting_index := argsort tmp_a in
  let sa := take nan tmp_a sorting_index in
  let sw := take 0%float tmp_w sorting_index in
  let cw := (0%float :: cumsum sw) in
  let bin_index := _search_sorted_inclusive sa bin_edges in
  take 0%float cw bin_index.

(** [np.histogram(a, bins=edges, weights=weights)[0]] for an array of bin
    edges and weights of [float64]: the weights must have the shape of the
    samples, the edges must not decrease anywhere; the sums up to each edge
    are added up block by block, and the histogram is the difference of
    these sums at consecutive edges. *)
Definition histogram (a : list float) (bins : list float) (weights : list float)
  : result (list float) :=
  if negb (List.length weights =? List.length a)%nat then Err (PyError "ValueError")
  else if edges_decrease bins then Err (PyError "ValueError")
  else
    let zeros := map (fun _ => 0%float) bins in
    let cum_n :=
      fold_left (fun cum_n i =>
                   np_add cum_n (block_cumulative (slice a i BLOCK)
                                                  (slice weights i BLOCK) bins))
                (block_starts (List.length a)) zeros in
    Ok (np_diff cum_n).

(** [x[valid]] for a boolean mask, which must have the length of [x]. *)
Fixpoint mask_select {A : Type} (x : list A) (valid : list bool) : list A :=
  match x, valid with
  | a :: x', b :: valid' => if b then a :: mask_select x' valid' else mask_select x' valid'
  | _, _ => []
  end.

Definition boolean_index {A : Type} (x : list A) (valid : list bool) : result (list A) :=
  if (List.length x =? List.length valid)%nat then Ok (mask_select x valid)
  else Err (PyError "IndexError").

Definition radial_integrate (img : ndarray) (tth_map_deg : farray)
    (tth_min tth_max : float) (nbins : Z) : result (list float * list float) :=
  let img_flat := map astype_float (data img) in
  let tth_flat := fdata tth_map_deg in
  let valid := map is_finite tth_flat in
  img_flat <- boolean_index img_flat valid ;;
  tth_flat <- boolean_index tth_flat valid ;;
  edges <- linspace tth_min tth_max (nbins + 1) ;;
  sum_I <- histogram tth_flat edges img_flat ;;
  let tth_centers :=
    map (fun p => (0.5 * (fst p + snd p))%float)
        (combine (but_last edges) (but_first edges)) in
  Ok (tth_centers, sum_I).

End Histogram.

(** *** Bins

    The vocabulary of the specification: bin [i] of [nbins] is the half-open
    interval between edge [i] and edge [i + 1], closed on the right for the
    last bin, and only pixels with a finite angle are binned. *)

Definition edge (edges : list float) (i : nat) : float := nth i edges nan.

Definition in_bin (edges : list float) (nbins i : nat) (x : float) : bool :=
  is_finite x
  && (edge edges i <=? x)%float
  && ((x <? edge edges (S i))%float
      || ((S i =? nbins)%nat && (x <=? edge edges (S i))%float)).

(** The summed intensity, an integer, of the pixels whose angle a predicate
    selects: pixel [k] of the flattened image goes with angle [k] of the
    flattened map. *)
Definition pair_intensity (select : float -> bool) (pairs : list (float * Z)) : Z :=
  fold_right (fun xw acc => (if select (fst xw) then snd xw else 0) + acc) 0 pairs.

Definition intensity_where (select : float -> bool) (angles : list float)
    (pixels : list Z) : Z :=
  pair_intensity select (combine angles pixels).

(** What the cumulated sum at each bin edge counts: the samples below the
    edge, and for the last edge the samples not above it. *)
Definition edge_tests (edges : list float) : list (float -> bool) :=
  (map (fun v x => np_less x v) (but_last edges)
   ++ map (fun v x => negb (np_less v x)) (last_only edges))%list.

(** *** Integers in binary64

    An integer below 2^53 in magnitude is a binary64 number: its digits,
    filled up with zero bits to 53, at the exponent that makes up for
    them. *)
Definition shl (q : positive) (n : nat) : positive := Nat.iter n xO q.

Definition ndigits (q : positive) : nat := Pos.to_nat (digits2_pos q).

Definition exact_float (z : Z) : spec_float :=
  match z with
  | 0 => S754_zero false
  | Zpos q => S754_finite false (shl q (53 - ndigits q)) (Z.of_nat (ndigits q) - 53)
  | Zneg q => S754_finite true (shl q (53 - ndigits q)) (Z.of_nat (ndigits q) - 53)
  end.

(** The summed intensity of the pixels of bin [i]. *)
Definition bin_sum (edges : list float) (nbins i : nat)
    (tth_flat : list float) (img_flat : list Z) : Z :=
  intensity_where (in_bin edges nbins i) tth_flat img_flat.

(** The summed magnitude of the pixels. *)
Definition total_magnitude (pixels : list Z) : Z :=
  fold_right (fun z acc => Z.abs z + acc) 0 pixels.

(** What [np.argsort] owes: a permutation of the indices under which no
    sample is less than one before it. *)
Definition sorts (argsort : list float -> list nat) : Prop :=
  forall a,
    Permutation (argsort a) (seq 0 (List.length a))
    /\ StronglySorted (fun x y => (y <? x)%float = false) (take nan a (argsort a)).

(** The midpoints of consecutive edges. *)
Definition midpoints (edges : list float) : list float :=
  map (fun p => (0.5 * (fst p + snd p))%float)
      (combine (but_last edges) (but_first edges)).

(** The bin edges of the default angle range and bin count. *)
Definition edges_0_20_2000 : list float :=
  match linspace 0 20 2001 with
  | Ok edges => edges
  | Err _ => []
  end.


(** ** Vocabulary of the properties *)

(** What the scrub does to one pixel. *)
Definition scrub_value (x : Z) : Z :=
  (if x =? uint32_max then 0 else x) mod 2 ^ 32.

(** Decimal digits: the characters 0 to 9. *)
Definition digit_char (c : ascii) : bool :=
  let n := N_of_ascii c in ((48 <=? n) && (n <=? 57))%N.

(** A decimal string: one digit or more, and nothing else. *)
Definition is_decimal (s : string) : bool :=
  match list_ascii_of_string s with
  | [] => false
  | l => forallb digit_char l
  end.

(** The number a decimal string writes: its digits in base ten, the first
    the most significant. *)
Definition decimal_value (s : string) : Z :=
  fold_left (fun acc c => 10 * acc + (Z.of_N (N_of_ascii c) - 48))
            (list_ascii_of_string s) 0.

(** A decimal string that the interpreter's digit limit lets through. *)
Definition within_digit_limit (py : interpreter) (s : string) : bool :=
  (Z.of_nat (String.length s) <=? 640)
  || (int_max_str_digits py <=? 0)
  || (Z.of_nat (String.length s) <=? int_max_str_digits py).

(** The decimal strings paired with their numbers. *)
Definition numbered (ks : list string) : list (Z * string) :=
  map (fun k => (decimal_value k, k)) ks.

(** The number a key stands for, as [int] reads it. *)
Definition key_value (py : interpreter) (k : string) : Z :=
  match py_int_str py k with Some z => z | None => 0 end.

(** The order frame keys are sorted by. *)
Definition key_le (a b : Z * string) : Prop := fst a <= fst b.

(** The keys paired with their numbers. *)
Definition keyed (py : interpreter) (ks : list string) : list (Z * string) :=
  map (fun k => (key_value py k, k)) ks.

(** A product or quotient with numerator zero is a zero or NaN. *)
Definition zero_or_nan (z : float) : Prop :=
  Prim2SF z = S754_nan \/ exists s, Prim2SF z = S754_zero s.

(** Membership in bin [i] for an angle already known to be finite. *)
Definition between (edges : list float) (nbins i : nat) (x : float) : bool :=
  (edge edges i <=? x)%float
  && ((x <? edge edges (S i))%float
      || ((S i =? nbins)%nat && (x <=? edge edges (S i))%float)).

(** The specification of [is_finite]. *)
Definition finite_class (x : spec_float) : bool :=
  match x with
  | S754_zero _ | S754_finite _ _ _ => true
  | _ => false
  end.

(** ** Sample files

    Concrete frames, files and images on which the properties below are
    exercised. *)

(** An interpreter with the digit limit at its default, 4300.  The samples
    hold no text outside ASCII: what it reads from such text is never asked
    for. *)
Definition py_default : interpreter := mk_interpreter 4300 (fun _ => None).

(** A codec that stores the bytes as they are. *)
Definition stored_codec (raw : h5value) (compression : pyvalue) (elem_size : Z)
  : result (list Byte.byte) :=
  match raw with
  | VBytes b => Ok b
  | _ => Err (PyError "TypeError")
  end.

Definition byte_of_Z (z : Z) : Byte.byte :=
  match Byte.of_N (Z.to_N (z mod 256)) with
  | Some b => b
  | None => Byte.x00
  end.

(** The bytes of [uint32] pixels, little-endian. *)
Definition pack (pixels : list Z) : list Byte.byte :=
  flat_map (fun z => [byte_of_Z z; byte_of_Z (z / 2 ^ 8);
                      byte_of_Z (z / 2 ^ 16); byte_of_Z (z / 2 ^ 24)]) pixels.

Definition bytes_of_string (s : string) : list Byte.byte :=
  map byte_of_ascii (list_ascii_of_string s).

Definition payload_group (pixels : list Z) (shape : h5value) (elem_size : Z)
  : list (string * h5node) :=
  [("compression_type", Dataset (VBytes (bytes_of_string "bslz4")));
   ("data", Dataset (VBytes (pack pixels)));
   ("dtype", Dataset (VBytes (bytes_of_string "<u4")));
   ("elem_size", Dataset (VInt elem_size));
   ("shape", Dataset shape)].

(** The record [read_payload] reads off a payload group. *)
Definition payload_of (payload : list (string * h5node)) : payload_record :=
  match read_payload py_default payload with
  | Ok p => p
  | Err _ => mk_payload (VInt 0) [] (PInt 0) 0 (PInt 0)
  end.

Definition frame_flat : list (string * h5node) :=
  payload_group [4294967295; 1; 256; 42] (VInts [2; 2]) 4.

Definition frame_multi : list (string * h5node) :=
  [("difference", Group (payload_group [7; 4294967295; 0; 9] (VInts [2; 2]) 4));
   ("threshold_1", Group [])].

Definition frame_unknown : list (string * h5node) :=
  [("difference", Dataset (VInt 0)); ("threshold_1", Group [])].

Definition frame_two_bytes : list (string * h5node) :=
  payload_group [1; 2] (VInts [2; 2]) 2.

Definition frame_short : list (string * h5node) :=
  payload_group [1; 2; 3; 4] (VInts [2; 3]) 4.

Definition frame_scalar_shape : list (string * h5node) :=
  payload_group [1; 2; 3] (VInt 3) 4.


Definition sample_group : list (string * h5node) :=
  [("1", Group frame_flat); ("10", Group frame_multi); ("2", Group frame_flat)].

Definition sample_file : list (string * h5node) :=
  [("data", Group sample_group)].

(** The keys of the example, in the order of the example. *)
Definition ten_two_one : list (string * h5node) :=
  [("10", Group frame_flat); ("2", Group frame_multi); ("1", Group frame_flat)].

Definition ten_two_one_file : list (string * h5node) :=
  [("data", Group ten_two_one)].

(** A frame under a decimal key of 4301 digits. *)
Definition long_key : string := string_of_list_ascii (repeat "1"%char 4301).

Definition long_key_group : list (string * h5node) :=
  [(long_key, Group frame_flat)].

Definition long_key_file : list (string * h5node) :=
  [("data", Group long_key_group)].

(** Frames whose declared shape has a product beyond [int64]. *)
Definition frame_huge : list (string * h5node) :=
  payload_group [] (VInts [2 ^ 32; 2 ^ 32]) 4.

Definition frame_huge_negative : list (string * h5node) :=
  payload_group [] (VInts [2 ^ 32; 2 ^ 31]) 4.

Definition sample_image : ndarray :=
  mk_ndarray [2; 4] [1; 2; 4; 8; 16; 32; 64; 128].

Definition sample_angles : farray :=
  mk_farray [4; 2] [0.5; 4; nan; 5; 1; 3.5; infinity; -1]%float.

Definition edges_0_4_4 : list float := [0; 1; 2; 3; 4]%float.

(** A range of angles between two numbers of binary64 whose difference is
    beyond its largest number. *)
Definition far_min : float := (- 0x1.fp1023)%float.
Definition far_max : float := 0x1.fp1023%float.

(** An image of one pixel and its angle. *)
Definition one_pixel : ndarray := mk_ndarray [1; 1] [7].
Definition one_angle : farray := mk_farray [1; 1] [0.5]%float.

(** Two pixels of [uint64], the first with 2^53 counts, at angles in bins 0
    and 1 of [edges_0_4_4]. *)
Definition bright_image : ndarray := mk_ndarray [1; 2] [2 ^ 53; 1].
Definition two_angles : farray := mk_farray [1; 2] [0.5; 1.5]%float.

(** ** Vocabulary of the further properties *)

(** The number written at the start of a text: its leading decimal digits,
    read like [int] reads them. *)
Fixpoint leading_digits (s : string) : Decimal.uint :=
  match s with
  | EmptyString => Decimal.Nil
  | String c s' =>
      match digit_of c with
      | Some 0 => Decimal.D0 (leading_digits s')
      | Some 1 => Decimal.D1 (leading_digits s')
      | Some 2 => Decimal.D2 (leading_digits s')
      | Some 3 => Decimal.D3 (leading_digits s')
      | Some 4 => Decimal.D4 (leading_digits s')
      | Some 5 => Decimal.D5 (leading_digits s')
      | Some 6 => Decimal.D6 (leading_digits s')
      | Some 7 => Decimal.D7 (leading_digits s')
      | Some 8 => Decimal.D8 (leading_digits s')
      | Some 9 => Decimal.D9 (leading_digits s')
      | _ => Decimal.Nil
      end
  end.

(** The frame index a file name [frame_<digits>.tiff] carries. *)
Definition frame_index (name : string) : nat :=
  Nat.of_uint (leading_digits (substring 6 (String.length name - 6) name)).

(** ** The angle map *)

(** [180.0 / pi] in binary64, the factor of [np.degrees]. *)
Definition rad2deg : float := (180 / 3.141592653589793)%float.

Definition np_degrees (x : float) : float := (x * rad2deg)%float.

(** A detector of the instrument as the module uses it: what
    [pixel_angles()] returns, the scattering angles and the azimuths of the
    pixels, in radians. *)
Record detector : Type := mk_detector {
  pixel_angles : farray * farray
}.

(** [compute_tth_map] on [instr.detectors], the detectors by name in the
    order of the dictionary: the first detector is taken, the azimuths are
    dropped. *)
Definition compute_tth_map (detectors : list (string * detector)) : result farray :=
  match detectors with
  | [] => Err (PyError "IndexError")
  | (det_key, det) :: _ =>
      let (tth, _) := pixel_angles det in
      Ok (mk_farray (fshape tth) (map np_degrees (fdata tth)))
  end.

(** ** Paths and file names

    [os.path] on a POSIX system, on texts as lists of characters. *)

Definition is_char (c x : ascii) : bool := Ascii.eqb x c.

(** [p[i:]] and [p[:i]] for [i = p.rfind(c) + 1] *)
Definition after_last (c : ascii) (p : list ascii) : list ascii :=
  rev (take_while (fun x => negb (is_char c x)) (rev p)).

Definition through_last (c : ascii) (p : list ascii) : list ascii :=
  rev (drop_while (fun x => negb (is_char c x)) (rev p)).

(** [p.rstrip(c)] *)
Definition rstrip_char (c : ascii) (p : list ascii) : list ascii :=
  rev (drop_while (is_char c) (rev p)).

Definition is_nil {A : Type} (l : list A) : bool :=
  match l with [] => true | _ => false end.

(** [os.path.basename] *)
Definition basename (p : list ascii) : list ascii := after_last "/" p.

(** [os.path.dirname]: the part through the last separator, without its
    trailing separators unless it consists of separators only. *)
Definition dirname (p : list ascii) : list ascii :=
  let head := through_last "/" p in
  if negb (is_nil head) && negb (forallb (is_char "/") head)
  then rstrip_char "/" head
  else head.

(** [os.path.splitext(p)[0]]: the text before the last dot of the file name,
    when a character other than a dot comes before that dot; else all of
    [p]. *)
Definition splitext_root (p : list ascii) : list ascii :=
  let name := after_last "/" p in
  if existsb (is_char ".") name then
    let stem := removelast (through_last "." name) in
    if existsb (fun x => negb (is_char "." x)) stem
    then (through_last "/" p ++ stem)%list
    else p
  else p.

(** [p.split(",")] *)
Fixpoint split_commas (p : list ascii) : list (list ascii) :=
  match p with
  | [] => [[]]
  | x :: p' =>
      if is_char "," x then [] :: split_commas p'
      else match split_commas p' with
           | piece :: pieces => (x :: piece) :: pieces
           | [] => [[x]]
           end
  end.

(** [os.path.join(folder, pat)] *)
Definition path_join (folder pat : list ascii) : list ascii :=
  match pat with
  | x :: _ =>
      if is_char "/" x then pat
      else if is_nil folder || is_char "/" (last folder " "%char) then (folder ++ pat)%list
      else (folder ++ "/"%char :: pat)%list
  | [] =>
      if is_nil folder || is_char "/" (last folder " "%char) then folder
      else (folder ++ ["/"%char])%list
  end.

(** [sorted] on texts: ascending by character codes. *)
Fixpoint insert_path (x : string) (l : list string) : list string :=
  match l with
  | [] => [x]
  | y :: l' => if String.leb x y then x :: l else y :: insert_path x l'
  end.

Definition sorted_paths (l : list string) : list string :=
  fold_right insert_path [] l.

(** ** The batch integrator *)

(** Equality of shapes, tuples of integers. *)
Fixpoint shape_eqb (a b : list Z) : bool :=
  match a, b with
  | [], [] => true
  | x :: a', y :: b' => (x =? y) && shape_eqb a' b'
  | _, _ => false
  end.

(** The failures of [integrate_tiff_folder]: its two [RuntimeError]s, and
    whatever the calls it makes raise. *)
Inductive batch_error : Type :=
| NoMatchingFilesError
| GeometryShapeMismatchError (image_shape map_shape : list Z)
| Raised (e : error).

Section BatchIntegrator.

(** [os.path.abspath], [glob.glob] and [iio.imread] belong to the file
    system, [np.argsort] to NumPy. *)
Variable abspath : string -> string.
Variable glob : string -> list string.
Variable imread : string -> result ndarray.
Variable argsort : list float -> list nat.

Definition collect_tiff_files (folder pattern : string) : list string :=
  let folder := list_ascii_of_string (abspath folder) in
  let patterns := map strip (split_commas (list_ascii_of_string pattern)) in
  let files :=
    flat_map (fun pat => glob (string_of_list_ascii (path_join folder pat))) patterns in
  sorted_paths files.

(** Lines 111-114 of [integrate_tiff_folder]: a prefix with a directory is
    made absolute, and trailing underscores are stripped. *)
Definition normalized_prefix (output_prefix : string) : string :=
  let raw_prefix :=
    if is_nil (dirname (list_ascii_of_string output_prefix)) then output_prefix
    else abspath output_prefix in
  string_of_list_ascii (rstrip_char "_" (list_ascii_of_string raw_prefix)).

(** [f"{prefix}_{base}.txt"] for the [base] of an image file *)
Definition output_name (prefix tiff_path : string) : string :=
  let base := splitext_root (basename (list_ascii_of_string tiff_path)) in
  prefix ++ "_" ++ string_of_list_ascii base ++ ".txt".

(** One iteration of the loop: the table it writes, as its two columns. *)
Definition integrate_file (tth_map_deg : farray) (tth_min tth_max : float) (nbins : Z)
    (prefix tiff_path : string) : result (string * (list float * list float)) :=
  img <- imread tiff_path ;;
  pattern <- radial_integrate argsort img tth_map_deg tth_min tth_max nbins ;;
  Ok (output_name prefix tiff_path, pattern).

(** The loop over the image files: the tables written, in order, and the
    exception that stopped the loop, if any. *)
Fixpoint integrate_files (tth_map_deg : farray) (tth_min tth_max : float) (nbins : Z)
    (prefix : string) (tiff_files : list string)
  : list (string * (list float * list float)) * option batch_error :=
  match tiff_files with
  | [] => ([], None)
  | tiff_path :: rest =>
      match integrate_file tth_map_deg tth_min tth_max nbins prefix tiff_path with
      | Ok table =>
          let (tables, e) :=
            integrate_files tth_map_deg tth_min tth_max nbins prefix rest in
          (table :: tables, e)
      | Err e => ([], Some (Raised e))
      end
  end.

(** [integrate_tiff_folder], given what loading the instrument file
    yields: the detectors of the instrument, or an exception.  Creating the
    output directory and writing a table are left to the file system and
    taken to succeed; the messages printed are left out. *)
Definition integrate_tiff_folder (instrument : result (list (string * detector)))
    (tiff_folder : string) (tth_min tth_max : float) (nbins : Z)
    (pattern output_prefix : string)
  : list (string * (list float * list float)) * option batch_error :=
  let tiff_folder := abspath tiff_folder in
  let tiff_files := collect_tiff_files tiff_folder pattern in
  match tiff_files with
  | [] => ([], Some NoMatchingFilesError)
  | first :: _ =>
      match (instr <- instrument ;; compute_tth_map instr) with
      | Err e => ([], Some (Raised e))
      | Ok tth_map_deg =>
          match imread first with
          | Err e => ([], Some (Raised e))
          | Ok test_img =>
              if negb (shape_eqb (shape test_img) (fshape tth_map_deg))
              then ([], Some (GeometryShapeMismatchError (shape test_img)
                                                         (fshape tth_map_deg)))
              else integrate_files tth_map_deg tth_min tth_max nbins
                                   (normalized_prefix output_prefix) tiff_files
          end
      end
  end.

End BatchIntegrator.

(** ** Vocabulary of the file names *)

(** The text holds the character; the text consists of that character
    only. *)
Definition has_char (c : ascii) (s : string) : bool :=
  existsb (is_char c) (list_ascii_of_string s).

Definition only_char (c : ascii) (s : string) : bool :=
  forallb (is_char c) (list_ascii_of_string s).

(** Ascending order of texts, as [sorted] leaves them. *)
Definition path_le (a b : string) : Prop := String.leb a b = true.

(** The pieces of a text put together again, a comma between two of
    them. *)
Fixpoint join_commas (pieces : list (list ascii)) : list ascii :=
  match pieces with
  | [] => []
  | [piece] => piece
  | piece :: pieces' => (piece ++ ","%char :: join_commas pieces')%list
  end.

(** The white space of ASCII: tab, line feed, vertical tab, form feed,
    carriage return, the four separators and the space. *)
Definition blank (c : ascii) : bool :=
  existsb (Ascii.eqb c)
          ["009"; "010"; "011"; "012"; "013"; "028"; "029"; "030"; "031"; " "]%char.

Definition starts_blank (t : list ascii) : bool :=
  match t with
  | c :: _ => blank c
  | [] => false
  end.

(** [t] is [p] without the white space at its two ends. *)
Definition trimmed (p t : list ascii) : Prop :=
  exists l r,
    p = (l ++ t ++ r)%list
    /\ forallb blank l = true
    /\ forallb blank r = true
    /\ starts_blank t = false
    /\ starts_blank (rev t) = false.

(** ** Further sample files *)

(** A group whose second frame was written with 2-byte elements. *)
Definition broken_group : list (string * h5node) :=
  [("1", Group frame_flat); ("2", Group frame_two_bytes); ("3", Group frame_flat)].

(** A frame group that holds the difference channel of [frame_multi] and
    the five fields of [frame_flat] as well. *)
Definition frame_both : list (string * h5node) :=
  ("difference", Group (payload_group [7; 4294967295; 0; 9] (VInts [2; 2]) 4))
  :: frame_flat.

(** A file with a key that is no number. *)
Definition odd_key_file : list (string * h5node) :=
  [("data", Group [("1", Group frame_flat); ("1a", Group frame_flat)])].

(** A group with two keys for the number one. *)
Definition equal_keys_group : list (string * h5node) :=
  [("1", Group frame_flat); ("01", Group frame_multi); ("0", Group frame_flat)].

(** ** A sample sort

    Insertion by NumPy's order; equal samples keep their order. *)
Fixpoint insert_index (a : list float) (i : nat) (index : list nat) : list nat :=
  match index with
  | [] => [i]
  | j :: index' =>
      if np_less (nth j a nan) (nth i a nan) then j :: insert_index a i index'
      else i :: index
  end.

Definition stable_argsort (a : list float) : list nat :=
  fold_right (insert_index a) [] (seq 0 (List.length a)).

(** ** A sample folder

    A working directory [/work] with the folder [run] of three images, the
    folder [tall] of one image and the folder [empty]. *)
Definition sample_abspath (p : string) : string :=
  match p with
  | String "/"%char _ => p
  | _ => "/work/" ++ p
  end.

Definition sample_glob (pat : string) : list string :=
  if String.eqb pat "/work/run/*.tiff" then ["/work/run/b.tiff"; "/work/run/a.tiff"]
  else if String.eqb pat "/work/run/*.tif" then ["/work/run/c.tif"]
  else if String.eqb pat "/work/tall/*.tiff" then ["/work/tall/b.tiff"]
  else [].

Definition tall_image : ndarray :=
  mk_ndarray [4; 2] [128; 64; 32; 16; 8; 4; 2; 1].

(** The image [c.tif] cannot be read. *)
Definition sample_imread (path : string) : result ndarray :=
  if String.eqb path "/work/run/a.tiff" then Ok sample_image
  else if String.eqb path "/work/run/b.tiff" then Ok tall_image
  else if String.eqb path "/work/tall/b.tiff" then Ok tall_image
  else Err (PyError "OSError").

(** The angles of a detector of 2 x 4 pixels, in radians. *)
Definition sample_radians : farray :=
  mk_farray [2; 4] [0.01; 0.02; nan; 0.03; 0.05; 0.07; infinity; -0.01]%float.

Definition sample_azimuths : farray :=
  mk_farray [2; 4] [0; 0; 0; 0; 1; 1; 1; 1]%float.

Definition sample_instrument : list (string * detector) :=
  [("eiger", mk_detector (sample_radians, sample_azimuths))].

Definition sample_map : farray :=
  mk_farray [2; 4] (map np_degrees (fdata sample_radians)).

(** The run over the folder [run], angles from 0 to 4 degrees in four
    bins. *)
Definition sample_run : list (string * (list float * list float)) * option batch_error :=
  integrate_tiff_folder sample_abspath sample_glob sample_imread stable_argsort
                        (Ok sample_instrument)
                        "run" 0 4 4 "*.tiff, *.tif" "out/pattern_".

(** * Properties *)

(** ** Payload locator *)

Lemma contains_lookup (children : list (string * h5node)) (name : string) :
  contains children name = true <-> exists n, lookup children name = Some n.
Proof.
  unfold contains.
  induction children as [|[k v] rest IH]; simpl.
  - split; [discriminate | intros [n H]; discriminate].
  - destruct (String.eqb k name); simpl.
    + split; [eauto | reflexivity].
    + exact IH.
Qed.

Lemma difference_payload_some (frame_group diff : list (string * h5node)) :
  difference_payload frame_group = Some diff <->
  lookup frame_group "difference" = Some (Group diff)
  /\ _has_required_keys diff = true.
Proof.
  unfold difference_payload.
  destruct (contains frame_group "difference") eqn:Hc.
  - destruct (lookup frame_group "difference") as [[v|d]|] eqn:Hl.
    + split; [discriminate | intros [H _]; discriminate].
    + destruct (_has_required_keys d) eqn:Hk.
      * split.
        -- intros H; injection H as <-; auto.
        -- intros [H _]; injection H as <-; reflexivity.
      * split; [discriminate|].
        intros [H H']; injection H as <-; congruence.
    + split; [discriminate | intros [H _]; discriminate].
  - split; [discriminate|].
    intros [H _].
    assert (contains frame_group "difference" = true) by (apply contains_lookup; eauto).
    congruence.
Qed.

Lemma difference_payload_none (frame_group : list (string * h5node)) :
  difference_payload frame_group = None <-> ~ difference_qualifies frame_group.
Proof.
  split.
  - intros H [diff Hd].
    apply difference_payload_some in Hd. congruence.
  - intros H.
    destruct (difference_payload frame_group) as [diff|] eqn:Hd; [|reflexivity].
    exfalso; apply H; exists diff.
    now apply difference_payload_some.
Qed.

(** C2: the payload locator returns the ["difference"] child exactly when
    that child exists, is a group and holds the five required fields;
    otherwise it returns the frame group itself exactly when the frame group
    holds the five fields; otherwise it fails with the layout error, which
    lists the names of the children of the frame group. *)
Theorem select_payload_group_cases (frame_group : list (string * h5node)) :
  (forall diff,
      lookup frame_group "difference" = Some (Group diff) ->
      _has_required_keys diff = true ->
      _select_payload_group frame_group = Ok diff)
  /\ (~ difference_qualifies frame_group ->
      _has_required_keys frame_group = true ->
      _select_payload_group frame_group = Ok frame_group)
  /\ (~ difference_qualifies frame_group ->
      _has_required_keys frame_group = false ->
      _select_payload_group frame_group = Err (LayoutError (keys frame_group))).
Proof.
  unfold _select_payload_group.
  split; [|split].
  - intros diff Hl Hk.
    assert (H : difference_payload frame_group = Some diff)
      by (apply difference_payload_some; auto).
    now rewrite H.
  - intros Hn Hk.
    apply difference_payload_none in Hn.
    now rewrite Hn, Hk.
  - intros Hn Hk.
    apply difference_payload_none in Hn.
    now rewrite Hn, Hk.
Qed.

(** ** Frame decoder *)

Lemma wrap64_small (z : Z) : - 2 ^ 63 <= z < 2 ^ 63 -> wrap64 z = z.
Proof.
  intros H. unfold wrap64.
  rewrite Z.mod_small; lia.
Qed.


Lemma words_of_length (buf : list Byte.byte) :
  Z.of_nat (List.length (words_of buf)) = Z.of_nat (List.length buf) / 4.
Proof.
  induction buf as [buf IH]
    using (well_founded_induction
             (Wf_nat.well_founded_ltof _ (@List.length Byte.byte))).
  destruct buf as [|b0 [|b1 [|b2 [|b3 rest]]]]; try reflexivity.
  cbn [words_of List.length].
  rewrite !Nat2Z.inj_succ, (IH rest).
  - replace (Z.succ (Z.succ (Z.succ (Z.succ (Z.of_nat (List.length rest))))))
      with (Z.of_nat (List.length rest) + 1 * 4) by lia.
    rewrite Z.div_add by lia. lia.
  - unfold Wf_nat.ltof. simpl. lia.
Qed.

Lemma le32_range (b0 b1 b2 b3 : Byte.byte) : 0 <= le32 b0 b1 b2 b3 < 2 ^ 32.
Proof.
  unfold le32.
  rewrite !Z.shiftl_mul_pow2 by lia.
  pose proof (Byte.to_N_bounded b0).
  pose proof (Byte.to_N_bounded b1).
  pose proof (Byte.to_N_bounded b2).
  pose proof (Byte.to_N_bounded b3).
  lia.
Qed.

Lemma words_of_range (buf : list Byte.byte) :
  Forall (fun x => 0 <= x < 2 ^ 32) (words_of buf).
Proof.
  induction buf as [buf IH]
    using (well_founded_induction
             (Wf_nat.well_founded_ltof _ (@List.length Byte.byte))).
  destruct buf as [|b0 [|b1 [|b2 [|b3 rest]]]]; try constructor.
  - apply le32_range.
  - apply IH. unfold Wf_nat.ltof. simpl. lia.
Qed.

Section DecoderFacts.

Variable py : interpreter.
Variable decompress : h5value -> pyvalue -> Z -> result (list Byte.byte).

(** C3: a payload whose declared element size is not 4 is never decoded:
    whatever the codec would answer, the frame fails with the error that
    carries the declared element size, the expected size 4 and the dtype
    label of the file. *)
Theorem elem_size_mismatch_fails
    (frame_group payload : list (string * h5node)) (p : payload_record) :
  _select_payload_group frame_group = Ok payload ->
  read_payload py payload = Ok p ->
  elem_size p <> 4 ->
  get_frame_array py decompress frame_group
  = Err (MetadataMismatchError (elem_size p) 4 (dtype_meta p)).
Proof.
  intros Hsel Hread Hsize.
  unfold get_frame_array. rewrite Hsel. cbn [bind]. rewrite Hread. cbn [bind].
  unfold decode_payload.
  destruct (elem_size p =? 4) eqn:E.
  - apply Z.eqb_eq in E. contradiction.
  - reflexivity.
Qed.

Lemma decode_payload_2d (p : payload_record) (rows cols : Z) (buf : list Byte.byte) :
  elem_size p = 4 ->
  payload_shape p = [rows; cols] ->
  0 < rows -> 0 < cols -> rows * cols < 2 ^ 63 ->
  decompress (raw_data p) (compression_type p) 4 = Ok buf ->
  decode_payload decompress p
  = if Z.of_nat (List.length buf) =? rows * cols * 4
    then Ok (mk_ndarray [rows; cols] (words_of buf))
    else Err (DecodedSizeMismatchError (Z.of_nat (List.length buf)) (rows * cols * 4)
                                       [rows; cols] "uint32").
Proof.
  intros Hsize Hshape Hr Hc Hrc Hbuf.
  assert (Hrows : rows < 2 ^ 63) by nia.
  assert (Hcols : cols < 2 ^ 63) by nia.
  unfold decode_payload.
  rewrite Hsize, Hshape. cbn [Z.eqb negb Pos.eqb]. rewrite Hbuf. cbn [bind].
  assert (Hprod : np_prod [rows; cols] = rows * cols).
  { unfold np_prod, in_int64. cbn [forallb prod fold_right].
    replace (- 2 ^ 63 <=? rows) with true by (symmetry; apply Z.leb_le; lia).
    replace (rows <? 2 ^ 63) with true by (symmetry; apply Z.ltb_lt; lia).
    replace (- 2 ^ 63 <=? cols) with true by (symmetry; apply Z.leb_le; lia).
    replace (cols <? 2 ^ 63) with true by (symmetry; apply Z.ltb_lt; lia).
    cbn [andb]. rewrite wrap64_small by lia. lia. }
  rewrite Hprod.
  destruct (Z.of_nat (List.length buf) =? rows * cols * 4) eqn:E; cbn [negb]; [|reflexivity].
  apply Z.eqb_eq in E.
  unfold frombuffer. rewrite E, Z.mod_mul by lia. cbn [Z.eqb bind].
  unfold reshape, in_int64. cbn [forallb].
  replace (- 2 ^ 63 <=? rows) with true by (symmetry; apply Z.leb_le; lia).
  replace (rows <? 2 ^ 63) with true by (symmetry; apply Z.ltb_lt; lia).
  replace (- 2 ^ 63 <=? cols) with true by (symmetry; apply Z.leb_le; lia).
  replace (cols <? 2 ^ 63) with true by (symmetry; apply Z.ltb_lt; lia).
  replace (0 <=? rows) with true by (symmetry; apply Z.leb_le; lia).
  replace (0 <=? cols) with true by (symmetry; apply Z.leb_le; lia).
  cbn [andb negb].
  rewrite words_of_length, E, Z.div_mul by lia.
  cbn [prod fold_right].
  replace (rows * (cols * 1) =? rows * cols) with true
    by (symmetry; apply Z.eqb_eq; lia).
  reflexivity.
Qed.

(** C4, with what the specification leaves out: for a shape that is a
    pair of positive integers whose product is below 2^63, what NumPy's [int64]
    holds, with a declared element size of 4 and a buffer returned by the
    codec, decoding fails if and only if the length of the buffer is not
    rows x columns x 4, and the failure is the size error carrying the
    observed length, the expected byte count, the shape and the dtype. *)
Theorem decoded_size_checked
    (frame_group payload : list (string * h5node)) (p : payload_record)
    (rows cols : Z) (buf : list Byte.byte) :
  _select_payload_group frame_group = Ok payload ->
  read_payload py payload = Ok p ->
  elem_size p = 4 ->
  payload_shape p = [rows; cols] ->
  0 < rows -> 0 < cols -> rows * cols < 2 ^ 63 ->
  decompress (raw_data p) (compression_type p) 4 = Ok buf ->
  (is_ok (get_frame_array py decompress frame_group) = false
   <-> Z.of_nat (List.length buf) <> rows * cols * 4)
  /\ (Z.of_nat (List.length buf) <> rows * cols * 4 ->
      get_frame_array py decompress frame_group
      = Err (DecodedSizeMismatchError (Z.of_nat (List.length buf)) (rows * cols * 4)
                                      [rows; cols] "uint32")).
Proof.
  intros Hsel Hread Hsize Hshape Hr Hc Hrc Hbuf.
  unfold get_frame_array. rewrite Hsel. cbn [bind]. rewrite Hread. cbn [bind].
  rewrite (decode_payload_2d p rows cols buf) by assumption.
  destruct (Z.of_nat (List.length buf) =? rows * cols * 4) eqn:E.
  - apply Z.eqb_eq in E. split.
    + split; [discriminate | intros H; contradiction].
    + intros H; contradiction.
  - apply Z.eqb_neq in E. split.
    + split; [auto | reflexivity].
    + reflexivity.
Qed.

Lemma reshape_data (flat shape : list Z) (arr : ndarray) :
  reshape flat shape = Ok arr -> data arr = flat.
Proof.
  unfold reshape.
  destruct (negb (forallb in_int64 shape)); [discriminate|].
  destruct (forallb (Z.leb 0) shape).
  - destruct (prod shape =? _); [|discriminate].
    intros H; injection H as <-; reflexivity.
  - match goal with |- (if ?c then _ else _) = _ -> _ => destruct c end; [|discriminate].
    intros H; injection H as <-; reflexivity.
Qed.

(** What a successful call of [get_frame_array] went through. *)
Lemma get_frame_array_ok (frame_group : list (string * h5node)) (arr : ndarray) :
  get_frame_array py decompress frame_group = Ok arr ->
  exists payload p buf,
    _select_payload_group frame_group = Ok payload
    /\ read_payload py payload = Ok p
    /\ elem_size p = 4
    /\ decompress (raw_data p) (compression_type p) 4 = Ok buf
    /\ Z.of_nat (List.length buf) = np_prod (payload_shape p) * 4
    /\ reshape (words_of buf) (payload_shape p) = Ok arr.
Proof.
  unfold get_frame_array.
  destruct (_select_payload_group frame_group) as [payload|] eqn:Hsel; [|discriminate].
  cbn [bind].
  destruct (read_payload py payload) as [p|] eqn:Hread; [|discriminate].
  cbn [bind]. unfold decode_payload.
  destruct (elem_size p =? 4) eqn:Hsize; [|discriminate].
  apply Z.eqb_eq in Hsize. cbn [negb]. rewrite Hsize.
  destruct (decompress (raw_data p) (compression_type p) 4) as [buf|] eqn:Hbuf;
    [|discriminate].
  cbn [bind].
  destruct (Z.of_nat (List.length buf) =? np_prod (payload_shape p) * 4) eqn:Hlen;
    [|discriminate].
  apply Z.eqb_eq in Hlen. cbn [negb].
  unfold frombuffer.
  destruct (Z.of_nat (List.length buf) mod 4 =? 0); [|discriminate].
  cbn [bind]. intros Hre.
  exists payload, p, buf. auto 10.
Qed.

Lemma get_frame_array_range (frame_group : list (string * h5node)) (arr : ndarray) :
  get_frame_array py decompress frame_group = Ok arr ->
  Forall (fun x => 0 <= x < 2 ^ 32) (data arr).
Proof.
  intros H.
  destruct (get_frame_array_ok _ _ H) as (payload & p & buf & _ & _ & _ & _ & _ & Hre).
  rewrite (reshape_data _ _ _ Hre).
  apply words_of_range.
Qed.



Lemma words_of_nth (k : nat) (buf : list Byte.byte) :
  (4 * k + 3 < List.length buf)%nat ->
  nth_error (words_of buf) k
  = Some (le32 (nth (4 * k) buf Byte.x00) (nth (4 * k + 1) buf Byte.x00)
               (nth (4 * k + 2) buf Byte.x00) (nth (4 * k + 3) buf Byte.x00)).
Proof.
  revert buf. induction k as [|k IH]; intros buf Hlen.
  - destruct buf as [|b0 [|b1 [|b2 [|b3 rest]]]]; simpl in Hlen; try lia.
    reflexivity.
  - destruct buf as [|b0 [|b1 [|b2 [|b3 rest]]]]; simpl in Hlen; try lia.
    cbn [words_of nth_error].
    rewrite IH by lia.
    replace (4 * S k)%nat with (S (S (S (S (4 * k))))) by lia.
    reflexivity.
Qed.


(** *** Sentinel scrubbing *)

Lemma scrub_sentinel_data (img : ndarray) :
  data (scrub_sentinel img) = map scrub_value (data img).
Proof.
  unfold scrub_sentinel. cbn [data]. rewrite map_map. reflexivity.
Qed.

Lemma scrub_value_uint32 (x : Z) :
  0 <= x < 2 ^ 32 -> scrub_value x = if x =? uint32_max then 0 else x.
Proof.
  intros H. unfold scrub_value.
  destruct (x =? uint32_max); rewrite Z.mod_small; lia.
Qed.

Lemma scrub_value_idempotent (x : Z) :
  0 <= x < 2 ^ 32 -> scrub_value (scrub_value x) = scrub_value x.
Proof.
  intros H. rewrite (scrub_value_uint32 x H).
  destruct (Z.eqb_spec x uint32_max) as [E|E].
  - reflexivity.
  - rewrite scrub_value_uint32 by assumption.
    destruct (Z.eqb_spec x uint32_max); [contradiction | reflexivity].
Qed.

Lemma scrub_sentinel_idempotent (img : ndarray) :
  Forall (fun x => 0 <= x < 2 ^ 32) (data img) ->
  scrub_sentinel (scrub_sentinel img) = scrub_sentinel img.
Proof.
  intros H.
  unfold scrub_sentinel. cbn [data shape]. f_equal.
  rewrite !map_map.
  apply map_ext_in. intros x Hx.
  rewrite Forall_forall in H.
  exact (scrub_value_idempotent x (H x Hx)).
Qed.

(** What one iteration of the conversion loop writes. *)
Lemma convert_frame_ok (group : list (string * h5node)) (idx : nat) (k : string)
    (file : string * ndarray) :
  convert_frame py decompress group idx k = Ok file ->
  exists children img,
    lookup group k = Some (Group children)
    /\ get_frame_array py decompress children = Ok img
    /\ file = (frame_name idx, scrub_sentinel img).
Proof.
  unfold convert_frame, getitem.
  destruct (lookup group k) as [[v|children]|]; cbn [bind]; try discriminate.
  destruct (get_frame_array py decompress children) as [img|] eqn:Himg;
    cbn [bind]; [|discriminate].
  intros H; injection H as <-.
  exists children, img. auto.
Qed.

(** C1: in every frame the converter writes, each element of the decoded
    frame equal to 2^32 - 1 has become 0, every other element is unchanged,
    and scrubbing the written frame again changes nothing. *)
Theorem sentinel_scrubbed
    (group : list (string * h5node)) (idx : nat) (k name : string) (out : ndarray) :
  convert_frame py decompress group idx k = Ok (name, out) ->
  exists children img,
    lookup group k = Some (Group children)
    /\ get_frame_array py decompress children = Ok img
    /\ shape out = shape img
    /\ List.length (data out) = List.length (data img)
    /\ (forall i x, nth_error (data img) i = Some x ->
                   nth_error (data out) i
                   = Some (if x =? 2 ^ 32 - 1 then 0 else x))
    /\ scrub_sentinel out = out.
Proof.
  intros H.
  destruct (convert_frame_ok _ _ _ _ H) as (children & img & Hl & Himg & E).
  injection E as -> ->.
  pose proof (get_frame_array_range _ _ Himg) as Hrange.
  exists children, img.
  repeat split; auto.
  - rewrite scrub_sentinel_data. apply length_map.
  - intros i x Hx.
    rewrite scrub_sentinel_data, nth_error_map, Hx. cbn [option_map].
    f_equal. apply scrub_value_uint32.
    rewrite Forall_forall in Hrange. apply Hrange.
    eapply nth_error_In; eauto.
  - now apply scrub_sentinel_idempotent.
Qed.

End DecoderFacts.

(** ** Frame keys *)

Lemma digit_char_code (c : ascii) :
  digit_char c = true -> (48 <= N_of_ascii c <= 57)%N.
Proof.
  unfold digit_char. cbv zeta. rewrite andb_true_iff, !N.leb_le. tauto.
Qed.

Lemma digit_char_value (c : ascii) :
  digit_char c = true -> digit_of c = Some (Z.of_N (N_of_ascii c) - 48).
Proof.
  intros H. apply digit_char_code in H. unfold digit_of. cbv zeta.
  destruct (Z.leb_spec 48 (Z.of_N (N_of_ascii c)));
    destruct (Z.leb_spec (Z.of_N (N_of_ascii c)) 57); cbn [andb];
    try reflexivity; lia.
Qed.

Lemma digit_is_ascii (c : ascii) : digit_char c = true -> is_ascii c = true.
Proof.
  intros H. apply digit_char_code in H. unfold is_ascii. apply N.ltb_lt. lia.
Qed.

Lemma digit_not_space (c : ascii) : digit_char c = true -> is_c_space c = false.
Proof.
  intros H. apply digit_char_code in H. unfold is_c_space. cbv zeta.
  destruct (N.leb_spec 9 (N_of_ascii c)); destruct (N.leb_spec (N_of_ascii c) 13);
    destruct (N.eqb_spec (N_of_ascii c) 32);
    cbn [andb orb]; try reflexivity; lia.
Qed.

Lemma digit_not_sign (c : ascii) :
  digit_char c = true -> Ascii.eqb c "-" = false /\ Ascii.eqb c "+" = false.
Proof.
  intros H. apply digit_char_code in H.
  split.
  - destruct (Ascii.eqb_spec c "-"%char) as [->|]; [|reflexivity].
    cbn in H. lia.
  - destruct (Ascii.eqb_spec c "+"%char) as [->|]; [|reflexivity].
    cbn in H. lia.
Qed.

Lemma lstrip_digits (l : list ascii) :
  forallb digit_char l = true -> lstrip is_c_space l = l.
Proof.
  destruct l as [|c l]; [reflexivity|].
  cbn [forallb lstrip]. intros H. apply andb_true_iff in H as [H _].
  now rewrite (digit_not_space c H).
Qed.

Lemma forallb_rev {A : Type} (f : A -> bool) (l : list A) :
  forallb f (rev l) = forallb f l.
Proof.
  induction l as [|x l IH]; [reflexivity|].
  cbn [rev forallb]. rewrite forallb_app, IH. cbn [forallb].
  rewrite andb_true_r. apply andb_comm.
Qed.

Lemma strip_digits (l : list ascii) :
  forallb digit_char l = true -> strip_by is_c_space l = l.
Proof.
  intros H. unfold strip_by.
  rewrite (lstrip_digits l H), lstrip_digits, rev_involutive; [reflexivity|].
  now rewrite forallb_rev.
Qed.

Lemma digits_value_digits (l : list ascii) :
  forallb digit_char l = true ->
  forall acc after_digit, l <> [] \/ after_digit = true ->
  digits_value acc after_digit l
  = Some (fold_left (fun acc c => 10 * acc + (Z.of_N (N_of_ascii c) - 48)) l acc).
Proof.
  induction l as [|c l IH]; intros H acc b Hne.
  - destruct Hne as [Hne | ->]; [contradiction | reflexivity].
  - cbn [forallb] in H. apply andb_true_iff in H as [Hc Hl].
    cbn [digits_value fold_left]. rewrite (digit_char_value c Hc).
    apply IH; auto.
Qed.

Lemma digit_count_digits (l : list ascii) :
  forallb digit_char l = true -> digit_count l = Z.of_nat (List.length l).
Proof.
  intros H. unfold digit_count. f_equal. f_equal.
  induction l as [|c l IH]; [reflexivity|].
  cbn [forallb] in H. apply andb_true_iff in H as [Hc Hl].
  cbn [filter]. rewrite (digit_char_value c Hc). f_equal. auto.
Qed.

Lemma length_list_ascii (s : string) :
  List.length (list_ascii_of_string s) = String.length s.
Proof. induction s as [|c s IH]; [reflexivity|]. cbn. now rewrite IH. Qed.

(** On a decimal string within the digit limit, [int] returns the number
    the string writes. *)
Lemma py_int_str_decimal (py : interpreter) (s : string) :
  is_decimal s = true -> within_digit_limit py s = true ->
  py_int_str py s = Some (decimal_value s).
Proof.
  unfold is_decimal, within_digit_limit, decimal_value, py_int_str.
  rewrite <- (length_list_ascii s).
  destruct (list_ascii_of_string s) as [|c l] eqn:E; [discriminate|].
  intros H Hlim.
  assert (Hascii : forallb is_ascii (c :: l) = true).
  { clear - H. induction (c :: l) as [|x k IH]; [reflexivity|].
    cbn [forallb] in *. apply andb_true_iff in H as [Hx Hk].
    now rewrite (digit_is_ascii x Hx), IH. }
  rewrite Hascii. unfold int_of_ascii. rewrite (strip_digits _ H).
  pose proof H as H'. cbn [forallb] in H'. apply andb_true_iff in H' as [Hc _].
  destruct (digit_not_sign c Hc) as [-> ->].
  unfold int_of_digits, over_digit_limit. rewrite (digit_count_digits _ H).
  assert (Hover : (640 <? Z.of_nat (List.length (c :: l)))
                  && (0 <? int_max_str_digits py)
                  && (int_max_str_digits py <? Z.of_nat (List.length (c :: l))) = false).
  { apply orb_true_iff in Hlim as [Hlim|Hlim];
      [apply orb_true_iff in Hlim as [Hlim|Hlim]|]; apply Z.leb_le in Hlim.
    - replace (640 <? Z.of_nat (List.length (c :: l))) with false
        by (symmetry; apply Z.ltb_ge; lia). reflexivity.
    - replace (0 <? int_max_str_digits py) with false
        by (symmetry; apply Z.ltb_ge; lia). now rewrite andb_false_r.
    - replace (int_max_str_digits py <? Z.of_nat (List.length (c :: l))) with false
        by (symmetry; apply Z.ltb_ge; lia). now rewrite andb_false_r. }
  rewrite Hover. apply digits_value_digits; [exact H | left; discriminate].
Qed.

Lemma insert_by_key_perm (x : Z * string) (l : list (Z * string)) :
  Permutation (insert_by_key x l) (x :: l).
Proof.
  induction l as [|y l IH]; cbn [insert_by_key]; [reflexivity|].
  destruct (fst x <=? fst y); [reflexivity|].
  rewrite IH. apply perm_swap.
Qed.

Lemma sorted_by_key_perm (l : list (Z * string)) : Permutation (sorted_by_key l) l.
Proof.
  induction l as [|x l IH]; cbn [sorted_by_key fold_right]; [reflexivity|].
  fold (sorted_by_key l). rewrite insert_by_key_perm. now constructor.
Qed.

Lemma insert_by_key_sorted (x : Z * string) (l : list (Z * string)) :
  StronglySorted key_le l -> StronglySorted key_le (insert_by_key x l).
Proof.
  induction l as [|y l IH]; intros Hs; cbn [insert_by_key].
  - repeat constructor.
  - inversion Hs as [|? ? Hl Hy]; subst.
    destruct (Z.leb_spec (fst x) (fst y)) as [Hxy|Hxy].
    + constructor; [assumption|].
      constructor; [exact Hxy|].
      eapply Forall_impl; [|exact Hy].
      intros z Hz. unfold key_le in *. lia.
    + constructor; [now apply IH|].
      apply (Permutation_Forall (x := x :: l)).
      * symmetry. apply insert_by_key_perm.
      * constructor; [unfold key_le; lia | assumption].
Qed.

Lemma sorted_by_key_sorted (l : list (Z * string)) :
  StronglySorted key_le (sorted_by_key l).
Proof.
  induction l as [|x l IH]; cbn [sorted_by_key fold_right]; [constructor|].
  now apply insert_by_key_sorted.
Qed.

Lemma mapM_keys_decimal (py : interpreter) (ks : list string) :
  Forall (fun k => is_decimal k = true) ks ->
  Forall (fun k => within_digit_limit py k = true) ks ->
  mapM (fun k => z <- of_option "ValueError" (py_int_str py k) ;; Ok (z, k)) ks
  = Ok (numbered ks).
Proof.
  induction 1 as [|k ks Hk _ IH]; intros Hlim; [reflexivity|].
  inversion Hlim as [|? ? Hl Hlim']; subst.
  cbn [mapM numbered map]. rewrite (py_int_str_decimal py k Hk Hl).
  cbn [of_option bind].
  fold (numbered ks). rewrite (IH Hlim'). reflexivity.
Qed.

Lemma list_frame_keys_decimal (py : interpreter) (group : list (string * h5node)) :
  Forall (fun k => is_decimal k = true) (keys group) ->
  Forall (fun k => within_digit_limit py k = true) (keys group) ->
  list_frame_keys py group = Ok (map snd (sorted_by_key (numbered (keys group)))).
Proof.
  intros H Hlim. unfold list_frame_keys. now rewrite (mapM_keys_decimal py _ H Hlim).
Qed.

Lemma numbered_sorted_keys (ks : list string) :
  StronglySorted (fun a b => decimal_value a <= decimal_value b)
                 (map snd (sorted_by_key (numbered ks))).
Proof.
  assert (Hfst : Forall (fun p => fst p = decimal_value (snd p))
                        (sorted_by_key (numbered ks))).
  { apply (Permutation_Forall (x := numbered ks)).
    - symmetry. apply sorted_by_key_perm.
    - unfold numbered. apply Forall_forall. intros p Hp.
      apply in_map_iff in Hp as (k & <- & _). reflexivity. }
  pose proof (sorted_by_key_sorted (numbered ks)) as Hs.
  induction Hs as [|p l Hl IH Hp]; cbn [map]; [constructor|].
  inversion Hfst as [|? ? Hp0 Hl0]; subst.
  constructor; [now apply IH|].
  rewrite Forall_map.
  rewrite Forall_forall in *.
  intros q Hq. specialize (Hp q Hq). specialize (Hl0 q Hq).
  unfold key_le in Hp. lia.
Qed.

Lemma numbered_sorted_perm (ks : list string) :
  Permutation (map snd (sorted_by_key (numbered ks))) ks.
Proof.
  transitivity (map snd (numbered ks)).
  - apply Permutation_map, sorted_by_key_perm.
  - unfold numbered. rewrite map_map. cbn [snd]. rewrite map_id. reflexivity.
Qed.

Section ConverterFacts.

Variable py : interpreter.
Variable decompress : h5value -> pyvalue -> Z -> result (list Byte.byte).

(** The loop converts the keys in the order of the list: the j-th file
    written comes from the j-th key, and a loop that ends without an
    exception has written a file for every key. *)
Lemma convert_frames_order (group : list (string * h5node)) (ks : list string) :
  forall idx files e,
    convert_frames py decompress group idx ks = (files, e) ->
    (forall j file, nth_error files j = Some file ->
       exists k, nth_error ks j = Some k
                 /\ convert_frame py decompress group (idx + j) k = Ok file)
    /\ (e = None -> List.length files = List.length ks).
Proof.
  induction ks as [|k ks IH]; intros idx files e H; cbn [convert_frames] in H.
  - injection H as <- <-. split; [|reflexivity].
    intros [|j] file Hj; discriminate.
  - destruct (convert_frame py decompress group idx k) as [file0|e0] eqn:Hk.
    + destruct (convert_frames py decompress group (S idx) ks) as [files' e'] eqn:Hrest.
      injection H as <- <-.
      destruct (IH _ _ _ Hrest) as [IH1 IH2].
      split.
      * intros [|j] file Hj; cbn [nth_error] in Hj |- *.
        -- injection Hj as <-. exists k. rewrite Nat.add_0_r. auto.
        -- destruct (IH1 j file Hj) as (k' & Hk' & Hc).
           exists k'. rewrite Nat.add_succ_r. auto.
      * intros He. cbn [List.length]. f_equal. auto.
    + injection H as <- <-. split; [|discriminate].
      intros [|j] file Hj; discriminate.
Qed.

(** C6, with what the specification leaves out: under a group whose keys
    are decimal strings that the digit limit of the interpreter lets through,
    the converter runs over the keys in ascending order of the numbers they
    write, and with a frame limit N >= 0 over the first N keys of that
    order: the j-th file it writes is the conversion of the j-th of these
    keys. *)
Theorem frames_in_numeric_order
    (f group : list (string * h5node)) (group_name : string) (nframes : option Z) :
  lookup f group_name = Some (Group group) ->
  Forall (fun k => is_decimal k = true) (keys group) ->
  Forall (fun k => within_digit_limit py k = true) (keys group) ->
  match nframes with Some n => 0 <= n | None => True end ->
  exists sorted,
    list_frame_keys py group = Ok sorted
    /\ Permutation sorted (keys group)
    /\ StronglySorted (fun a b => decimal_value a <= decimal_value b) sorted
    /\ let selected :=
         match nframes with
         | Some n => firstn (Z.to_nat n) sorted
         | None => sorted
         end in
       eiger_to_tiff py decompress f group_name nframes
       = convert_frames py decompress group 0 selected
       /\ forall files e,
           convert_frames py decompress group 0 selected = (files, e) ->
           (forall j file, nth_error files j = Some file ->
              exists k, nth_error selected j = Some k
                        /\ convert_frame py decompress group j k = Ok file)
           /\ (e = None -> List.length files = List.length selected).
Proof.
  intros Hgroup Hdec Hlim Hn.
  exists (map snd (sorted_by_key (numbered (keys group)))).
  split; [now apply list_frame_keys_decimal|].
  split; [apply numbered_sorted_perm|].
  split; [apply numbered_sorted_keys|].
  cbv zeta. split.
  - unfold eiger_to_tiff.
    assert (Hc : contains f group_name = true) by (apply contains_lookup; eauto).
    rewrite Hc, Hgroup. cbn [negb].
    unfold frame_keys. rewrite (list_frame_keys_decimal py _ Hdec Hlim). cbn [bind].
    destruct nframes as [n|]; [|reflexivity].
    unfold slice_to.
    destruct (Z.leb_spec 0 n); [reflexivity | lia].
  - intros files e H.
    exact (convert_frames_order group _ 0%nat files e H).
Qed.

End ConverterFacts.

(** ** The order of binary64

    The comparisons of [float] are those of its specification
    [SpecFloat]; the facts below follow by cases on the two or three
    numbers compared. *)

Ltac sf_cases :=
  repeat match goal with
         | x : spec_float |- _ => destruct x as [[|]|[|]| |[|] ? ?]
         end;
  cbn [SFcompare SFltb SFleb SFeqb CompOpp] in *;
  change (Pos.compare_cont Eq) with Pos.compare in *.

Ltac cmp_cases :=
  repeat match goal with
         | H : context [Z.compare ?a ?b] |- _ => destruct (Z.compare_spec a b)
         | |- context [Z.compare ?a ?b] => destruct (Z.compare_spec a b)
         | H : context [Pos.compare ?a ?b] |- _ => destruct (Pos.compare_spec a b)
         | |- context [Pos.compare ?a ?b] => destruct (Pos.compare_spec a b)
         end;
  cbn [CompOpp] in *.

Ltac sf_order :=
  sf_cases; try discriminate; try reflexivity;
  cmp_cases; try discriminate; try reflexivity; try lia.

Lemma SFltb_leb_trans (x y z : spec_float) :
  SFltb x y = true -> SFleb y z = true -> SFltb x z = true.
Proof. intros H1 H2. sf_order. Qed.

Lemma SFleb_trans (x y z : spec_float) :
  SFleb x y = true -> SFleb y z = true -> SFleb x z = true.
Proof. intros H1 H2. sf_order. Qed.

Lemma SFltb_not_leb (x y : spec_float) : SFltb x y = true -> SFleb y x = false.
Proof. intros H1. sf_order. Qed.

Lemma SFltb_leb (x y : spec_float) : SFltb x y = true -> SFleb x y = true.
Proof. intros H1. sf_order. Qed.

Lemma SF_total (x y : spec_float) :
  SFeqb x x = true -> SFeqb y y = true -> SFltb x y = false -> SFleb y x = true.
Proof. intros Hx Hy H1. sf_order. Qed.

Lemma SFeqb_leb (x y : spec_float) : SFeqb x y = true -> SFleb x y = true.
Proof. intros H1. sf_order. Qed.

Lemma SFeqb_sym (x y : spec_float) : SFeqb x y = true -> SFeqb y x = true.
Proof. intros H1. sf_order. Qed.

Local Open Scope float_scope.

Lemma ltb_leb_trans (x y z : float) :
  (x <? y) = true -> (y <=? z) = true -> (x <? z) = true.
Proof. rewrite !FloatAxioms.ltb_spec, FloatAxioms.leb_spec. apply SFltb_leb_trans. Qed.

Lemma leb_trans (x y z : float) :
  (x <=? y) = true -> (y <=? z) = true -> (x <=? z) = true.
Proof. rewrite !FloatAxioms.leb_spec. apply SFleb_trans. Qed.

Lemma ltb_not_leb (x y : float) : (x <? y) = true -> (y <=? x) = false.
Proof. rewrite FloatAxioms.ltb_spec, FloatAxioms.leb_spec. apply SFltb_not_leb. Qed.

Lemma ltb_leb (x y : float) : (x <? y) = true -> (x <=? y) = true.
Proof. rewrite FloatAxioms.ltb_spec, FloatAxioms.leb_spec. apply SFltb_leb. Qed.

Lemma not_ltb_leb (x y : float) :
  is_nan x = false -> is_nan y = false -> (x <? y) = false -> (y <=? x) = true.
Proof.
  unfold is_nan. rewrite !negb_false_iff, !FloatAxioms.eqb_spec, FloatAxioms.ltb_spec, FloatAxioms.leb_spec.
  apply SF_total.
Qed.

Lemma eqb_leb (x y : float) : (x =? y) = true -> (x <=? y) = true.
Proof. rewrite FloatAxioms.eqb_spec, FloatAxioms.leb_spec. apply SFeqb_leb. Qed.

Lemma eqb_sym (x y : float) : (x =? y) = true -> (y =? x) = true.
Proof. rewrite !FloatAxioms.eqb_spec. apply SFeqb_sym. Qed.

Lemma is_finite_not_nan (x : float) : is_finite x = true -> is_nan x = false.
Proof.
  unfold is_finite. rewrite negb_true_iff, orb_false_iff. now intros [H _].
Qed.

(** For numbers, [<?] is the negation of the converse [<=?]. *)
Lemma ltb_negb_leb (x y : float) :
  is_nan x = false -> is_nan y = false -> (x <? y) = negb (y <=? x).
Proof.
  intros Hx Hy.
  destruct (x <? y) eqn:E.
  - now rewrite (ltb_not_leb _ _ E).
  - now rewrite (not_ltb_leb _ _ Hx Hy E).
Qed.

Lemma leb_refl (x : float) : is_nan x = false -> (x <=? x) = true.
Proof.
  intros H. apply eqb_leb. unfold is_nan in H. now apply negb_false_iff in H.
Qed.

Local Close Scope float_scope.

(** ** Integers in binary64

    The rounding of [SpecFloat] leaves an integer of at most 53 digits as
    it is; so do the sum, the difference and the double of two such
    integers when the result has at most 53 digits. *)

Lemma iter_pos_nat {A : Type} (f : A -> A) (p : positive) :
  forall x, iter_pos f p x = Nat.iter (Pos.to_nat p) f x.
Proof.
  induction p as [p IH|p IH|]; intros x; cbn [iter_pos].
  - rewrite !IH, Pos2Nat.inj_xI.
    replace (S (2 * Pos.to_nat p)) with (Pos.to_nat p + S (Pos.to_nat p))%nat by lia.
    rewrite Nat.iter_add, Nat.iter_succ_r. reflexivity.
  - rewrite !IH, Pos2Nat.inj_xO.
    replace (2 * Pos.to_nat p)%nat with (Pos.to_nat p + Pos.to_nat p)%nat by lia.
    rewrite Nat.iter_add. reflexivity.
  - reflexivity.
Qed.

Lemma pos_iter_shl (q : positive) (c : positive) :
  Pos.iter xO q c = shl q (Pos.to_nat c).
Proof. unfold shl. apply Pos2Nat.inj_iter. Qed.

Lemma shl_shl (q : positive) (a b : nat) : shl (shl q a) b = shl q (a + b).
Proof. unfold shl. rewrite Nat.add_comm. symmetry. apply Nat.iter_add. Qed.

Lemma shl_S (q : positive) (n : nat) : shl q (S n) = xO (shl q n).
Proof. reflexivity. Qed.

Lemma shl_value (q : positive) (n : nat) : Zpos (shl q n) = Zpos q * 2 ^ Z.of_nat n.
Proof.
  induction n as [|n IH].
  - cbn. lia.
  - rewrite shl_S, Pos2Z.inj_xO, IH, Nat2Z.inj_succ, Z.pow_succ_r by lia. lia.
Qed.

Lemma ndigits_shl (q : positive) (n : nat) : ndigits (shl q n) = (ndigits q + n)%nat.
Proof.
  unfold ndigits. induction n as [|n IH]; [cbn; lia|].
  rewrite shl_S. cbn [digits2_pos]. rewrite Pos2Nat.inj_succ, IH. lia.
Qed.

Lemma ndigits_pos (q : positive) : (1 <= ndigits q)%nat.
Proof. unfold ndigits. lia. Qed.

Lemma digits2_size (q : positive) : digits2_pos q = Pos.size q.
Proof. induction q as [q IH|q IH|]; cbn; now rewrite ?IH. Qed.

Lemma ndigits_bound (q : positive) (k : nat) :
  Zpos q < 2 ^ Z.of_nat k -> (ndigits q <= k)%nat.
Proof.
  intros H. unfold ndigits. rewrite digits2_size.
  pose proof (Pos.size_le q) as Hle.
  destruct (Nat.le_gt_cases (Pos.to_nat (Pos.size q)) k) as [|Hgt]; [assumption|].
  exfalso.
  assert (Hpow : 2 ^ Z.of_nat (S k) <= 2 ^ Zpos (Pos.size q)).
  { apply Z.pow_le_mono_r; lia. }
  rewrite Nat2Z.inj_succ, Z.pow_succ_r in Hpow by lia.
  assert (Hq : 2 ^ Zpos (Pos.size q) <= 2 * Zpos q).
  { rewrite <- Pos2Z.inj_pow. change (2 * Zpos q) with (Zpos q~0). exact Hle. }
  lia.
Qed.

Lemma shr_exact (M : positive) (c : nat) :
  Nat.iter c shr_1 {| shr_m := Zpos (shl M c); shr_r := false; shr_s := false |}
  = {| shr_m := Zpos M; shr_r := false; shr_s := false |}.
Proof.
  induction c as [|c IH]; [reflexivity|].
  rewrite Nat.iter_succ_r, shl_S. cbn [shr_1 orb]. exact IH.
Qed.

Lemma Zdigits2_ndigits (q : positive) : Zdigits2 (Zpos q) = Z.of_nat (ndigits q).
Proof. unfold ndigits. cbn. lia. Qed.

(** Rounding a mantissa of 53 digits followed by [c] zero bits. *)
Lemma binary_round_aux_exact (sx : bool) (M : positive) (c : nat) (e0 : Z) :
  ndigits M = 53%nat ->
  -1074 <= e0 + Z.of_nat c <= 971 ->
  binary_round_aux prec emax sx (Zpos (shl M c)) e0 loc_Exact
  = S754_finite sx M (e0 + Z.of_nat c).
Proof.
  intros Hd He.
  unfold binary_round_aux, shr_fexp.
  rewrite Zdigits2_ndigits, ndigits_shl, Hd.
  unfold fexp, SpecFloat.emin, prec, emax.
  replace (Z.max (Z.of_nat (53 + c) + e0 - 53) (3 - 1024 - 53) - e0)
    with (Z.of_nat c) by lia.
  cbn [shr_record_of_loc].
  assert (Hshr : shr {| shr_m := Zpos (shl M c); shr_r := false; shr_s := false |}
                     e0 (Z.of_nat c)
                 = ({| shr_m := Zpos M; shr_r := false; shr_s := false |},
                    e0 + Z.of_nat c)).
  { destruct c as [|c].
    - cbn [Z.of_nat shr shl Nat.iter nat_rect]. f_equal. lia.
    - unfold shr. rewrite Nat2Z.inj_succ, <- Z.add_1_r.
      replace (Z.of_nat c + 1) with (Zpos (Pos.of_nat (S c))) by lia.
      rewrite iter_pos_nat, Nat2Pos.id by lia.
      rewrite shr_exact. reflexivity. }
  rewrite Hshr. cbn [shr_m loc_of_shr_record round_nearest_even].
  rewrite Zdigits2_ndigits, Hd.
  replace (Z.max (Z.of_nat 53 + (e0 + Z.of_nat c) - 53) (3 - 1024 - 53)
           - (e0 + Z.of_nat c)) with 0 by lia.
  cbn [shr shr_m].
  replace (e0 + Z.of_nat c <=? 1024 - 53) with true by (symmetry; apply Z.leb_le; lia).
  reflexivity.
Qed.

(** Rounding an integer of at most 53 digits, written with [n] zero bits
    behind it at the exponent [-n]. *)
Lemma binary_round_int (sx : bool) (q : positive) (n : nat) :
  (ndigits q <= 53)%nat ->
  binary_round prec emax sx (shl q n) (- Z.of_nat n)
  = S754_finite sx (shl q (53 - ndigits q)) (Z.of_nat (ndigits q) - 53).
Proof.
  intros Hd. pose proof (ndigits_pos q) as Hpos.
  unfold binary_round.
  change (Zpos (digits2_pos (shl q n))) with (Zdigits2 (Zpos (shl q n))).
  rewrite Zdigits2_ndigits, ndigits_shl.
  unfold fexp, SpecFloat.emin, prec, emax.
  replace (Z.max (Z.of_nat (ndigits q + n) + - Z.of_nat n - 53) (3 - 1024 - 53))
    with (Z.of_nat (ndigits q) - 53) by lia.
  unfold shl_align.
  destruct (Z.of_nat (ndigits q) - 53 - - Z.of_nat n) as [|c|c] eqn:Hc.
  - replace (shl q n) with (shl (shl q (53 - ndigits q)) 0).
    + rewrite binary_round_aux_exact.
      * f_equal. lia.
      * rewrite ndigits_shl. lia.
      * lia.
    + cbn [shl Nat.iter nat_rect]. f_equal. lia.
  - replace (shl q n) with (shl (shl q (53 - ndigits q)) (Pos.to_nat c)).
    + rewrite binary_round_aux_exact.
      * f_equal. lia.
      * rewrite ndigits_shl. lia.
      * lia.
    + rewrite shl_shl. f_equal. lia.
  - rewrite pos_iter_shl, shl_shl.
    replace (n + Pos.to_nat c)%nat with (53 - ndigits q)%nat by lia.
    replace (shl q (53 - ndigits q)) with (shl (shl q (53 - ndigits q)) 0) at 1
      by reflexivity.
    rewrite binary_round_aux_exact.
    + f_equal. lia.
    + rewrite ndigits_shl. lia.
    + lia.
Qed.

Lemma canonical_53 (q : positive) :
  (ndigits q <= 53)%nat ->
  bounded prec emax (shl q (53 - ndigits q)) (Z.of_nat (ndigits q) - 53) = true.
Proof.
  intros Hd. pose proof (ndigits_pos q).
  unfold bounded, canonical_mantissa.
  change (Zpos (digits2_pos (shl q (53 - ndigits q))))
    with (Zdigits2 (Zpos (shl q (53 - ndigits q)))).
  rewrite Zdigits2_ndigits, ndigits_shl.
  unfold fexp, SpecFloat.emin, prec, emax.
  apply andb_true_iff; split; [apply Z.eqb_eq | apply Z.leb_le]; lia.
Qed.

Lemma exact_float_valid (z : Z) : Z.abs z < 2 ^ 53 -> valid_binary (exact_float z) = true.
Proof.
  intros Hz.
  destruct z as [|q|q]; [reflexivity| |];
    cbn [exact_float valid_binary]; apply canonical_53; apply ndigits_bound;
    cbn in *; lia.
Qed.

Lemma normalize_int (z : Z) (n : nat) :
  Z.abs z < 2 ^ 53 ->
  binary_normalize prec emax (z * 2 ^ Z.of_nat n) (- Z.of_nat n) false = exact_float z.
Proof.
  intros Hz.
  destruct z as [|q|q]; [reflexivity| |];
    (assert (Hd : (ndigits q <= 53)%nat) by (apply ndigits_bound; cbn in *; lia)).
  - rewrite <- shl_value. cbn [binary_normalize exact_float].
    now apply binary_round_int.
  - replace (Zneg q * 2 ^ Z.of_nat n) with (Zneg (shl q n))
      by (rewrite <- Pos2Z.opp_pos, shl_value; lia).
    cbn [binary_normalize exact_float].
    now apply binary_round_int.
Qed.

Lemma astype_float_spec (z : Z) :
  Z.abs z < 2 ^ 53 -> Prim2SF (astype_float z) = exact_float z.
Proof.
  intros Hz. unfold astype_float.
  pose proof (normalize_int z 0 Hz) as H.
  cbn [Z.of_nat Z.opp] in H. rewrite Z.pow_0_r, Z.mul_1_r in H.
  rewrite H. apply Prim2SF_SF2Prim. now apply exact_float_valid.
Qed.

Lemma shl_align_fst (M : positive) (e e' : Z) :
  fst (shl_align M e e') = shl M (Z.to_nat (e - e')).
Proof.
  unfold shl_align.
  destruct (e' - e) as [|d|d] eqn:Hd; cbn [fst].
  - replace (e - e') with 0 by lia. reflexivity.
  - replace (Z.to_nat (e - e')) with 0%nat by lia. reflexivity.
  - rewrite pos_iter_shl. f_equal. lia.
Qed.

Lemma exact_float_signed (s : bool) (q : positive) :
  exact_float (cond_Zopp s (Zpos q))
  = S754_finite s (shl q (53 - ndigits q)) (Z.of_nat (ndigits q) - 53).
Proof. now destruct s. Qed.

Lemma cond_Zopp_shl (s : bool) (q : positive) (n : nat) :
  cond_Zopp s (Zpos (shl q n)) = cond_Zopp s (Zpos q) * 2 ^ Z.of_nat n.
Proof. rewrite shl_value. destruct s; cbn [cond_Zopp]; lia. Qed.

Lemma aligned_mantissa (s : bool) (q : positive) (e : Z) :
  (ndigits q <= 53)%nat ->
  Z.of_nat (ndigits q) - 53 - e = Z.of_nat (Z.to_nat (Z.of_nat (ndigits q) - 53 - e)) ->
  cond_Zopp s (Zpos (fst (shl_align (shl q (53 - ndigits q))
                                    (Z.of_nat (ndigits q) - 53) e)))
  = cond_Zopp s (Zpos q) * 2 ^ (- e).
Proof.
  intros Hd He. rewrite shl_align_fst, shl_shl, cond_Zopp_shl. do 2 f_equal. lia.
Qed.

Lemma SFadd_exact (a b : Z) :
  Z.abs a < 2 ^ 53 -> Z.abs b < 2 ^ 53 -> Z.abs (a + b) < 2 ^ 53 ->
  SFadd prec emax (exact_float a) (exact_float b) = exact_float (a + b).
Proof.
  intros Ha Hb Hab.
  destruct (Z.eq_dec a 0) as [->|Hna].
  { destruct b; reflexivity. }
  destruct (Z.eq_dec b 0) as [->|Hnb].
  { rewrite Z.add_0_r. destruct a; reflexivity. }
  assert (Ea : exists sa qa, a = cond_Zopp sa (Zpos qa)).
  { destruct a as [|q|q]; [congruence | exists false, q | exists true, q]; reflexivity. }
  assert (Eb : exists sb qb, b = cond_Zopp sb (Zpos qb)).
  { destruct b as [|q|q]; [congruence | exists false, q | exists true, q]; reflexivity. }
  destruct Ea as (sa & qa & Ea). destruct Eb as (sb & qb & Eb).
  assert (Hda : (ndigits qa <= 53)%nat).
  { apply ndigits_bound. subst a. destruct sa; cbn in *; lia. }
  assert (Hdb : (ndigits qb <= 53)%nat).
  { apply ndigits_bound. subst b. destruct sb; cbn in *; lia. }
  rewrite Ea at 1. rewrite Eb at 1. rewrite !exact_float_signed.
  cbn [SFadd].
  set (ez := Z.min (Z.of_nat (ndigits qa) - 53) (Z.of_nat (ndigits qb) - 53)).
  rewrite !aligned_mantissa by (try assumption; subst ez; lia).
  rewrite <- Ea, <- Eb, <- Z.mul_add_distr_r.
  replace ez with (- Z.of_nat (Z.to_nat (- ez))) at 2 by (subst ez; lia).
  replace (- ez) with (Z.of_nat (Z.to_nat (- ez))) at 1 by (subst ez; lia).
  now apply normalize_int.
Qed.

Lemma SFsub_exact (a b : Z) :
  Z.abs a < 2 ^ 53 -> Z.abs b < 2 ^ 53 -> Z.abs (a - b) < 2 ^ 53 ->
  SFsub prec emax (exact_float a) (exact_float b) = exact_float (a - b).
Proof.
  intros Ha Hb Hab.
  destruct (Z.eq_dec a 0) as [->|Hna].
  { destruct b; reflexivity. }
  destruct (Z.eq_dec b 0) as [->|Hnb].
  { rewrite Z.sub_0_r. destruct a; reflexivity. }
  assert (Ea : exists sa qa, a = cond_Zopp sa (Zpos qa)).
  { destruct a as [|q|q]; [congruence | exists false, q | exists true, q]; reflexivity. }
  assert (Eb : exists sb qb, b = cond_Zopp sb (Zpos qb)).
  { destruct b as [|q|q]; [congruence | exists false, q | exists true, q]; reflexivity. }
  destruct Ea as (sa & qa & Ea). destruct Eb as (sb & qb & Eb).
  assert (Hda : (ndigits qa <= 53)%nat).
  { apply ndigits_bound. subst a. destruct sa; cbn in *; lia. }
  assert (Hdb : (ndigits qb <= 53)%nat).
  { apply ndigits_bound. subst b. destruct sb; cbn in *; lia. }
  rewrite Ea at 1. rewrite Eb at 1. rewrite !exact_float_signed.
  cbn [SFsub].
  set (ez := Z.min (Z.of_nat (ndigits qa) - 53) (Z.of_nat (ndigits qb) - 53)).
  rewrite !aligned_mantissa by (try assumption; subst ez; lia).
  rewrite <- Ea, <- Eb, <- Z.mul_sub_distr_r.
  replace ez with (- Z.of_nat (Z.to_nat (- ez))) at 2 by (subst ez; lia).
  replace (- ez) with (Z.of_nat (Z.to_nat (- ez))) at 1 by (subst ez; lia).
  now apply normalize_int.
Qed.



(** Sums, differences and doubles of integers below 2^53 are exact. *)
Lemma add_exact (a b : Z) :
  Z.abs a < 2 ^ 53 -> Z.abs b < 2 ^ 53 -> Z.abs (a + b) < 2 ^ 53 ->
  (astype_float a + astype_float b)%float = astype_float (a + b).
Proof.
  intros Ha Hb Hab. apply Prim2SF_inj.
  rewrite FloatAxioms.add_spec, !astype_float_spec by assumption.
  now apply SFadd_exact.
Qed.

Lemma sub_exact (a b : Z) :
  Z.abs a < 2 ^ 53 -> Z.abs b < 2 ^ 53 -> Z.abs (a - b) < 2 ^ 53 ->
  (astype_float a - astype_float b)%float = astype_float (a - b).
Proof.
  intros Ha Hb Hab. apply Prim2SF_inj.
  rewrite FloatAxioms.sub_spec, !astype_float_spec by assumption.
  now apply SFsub_exact.
Qed.


Lemma astype_float_0 : astype_float 0 = 0%float.
Proof. reflexivity. Qed.

(** ** Sums of intensities *)

Lemma pair_intensity_app (f : float -> bool) (p q : list (float * Z)) :
  pair_intensity f (p ++ q) = pair_intensity f p + pair_intensity f q.
Proof.
  unfold pair_intensity. induction p as [|x p IH]; cbn [app fold_right]; lia.
Qed.

Lemma pair_intensity_perm (f : float -> bool) (p q : list (float * Z)) :
  Permutation p q -> pair_intensity f p = pair_intensity f q.
Proof.
  unfold pair_intensity. induction 1; cbn [fold_right]; lia.
Qed.

Lemma pair_intensity_none (f : float -> bool) (p : list (float * Z)) :
  Forall (fun xw => f (fst xw) = false) p -> pair_intensity f p = 0.
Proof.
  unfold pair_intensity. induction 1 as [|x p Hx _ IH]; [reflexivity|].
  cbn [fold_right]. rewrite Hx, IH. reflexivity.
Qed.

Lemma intensity_where_ext (f g : float -> bool) (a : list float) (w : list Z) :
  Forall (fun x => f x = g x) a -> intensity_where f a w = intensity_where g a w.
Proof.
  unfold intensity_where, pair_intensity. intros H. revert w.
  induction H as [|x a Hx _ IH]; intros w; [reflexivity|].
  destruct w as [|y w]; [reflexivity|].
  cbn [combine fold_right fst snd]. now rewrite Hx, IH.
Qed.

Lemma intensity_where_sub (f g : float -> bool) (a : list float) (w : list Z) :
  Forall (fun x => g x = true -> f x = true) a ->
  intensity_where f a w - intensity_where g a w
  = intensity_where (fun x => f x && negb (g x)) a w.
Proof.
  unfold intensity_where, pair_intensity. intros H. revert w.
  induction H as [|x a Hx _ IH]; intros w; [reflexivity|].
  destruct w as [|y w]; [reflexivity|].
  cbn [combine fold_right fst snd]. rewrite <- IH.
  destruct (g x) eqn:Hg.
  - rewrite (Hx eq_refl). cbn [andb negb]. lia.
  - destruct (f x); cbn [andb negb]; lia.
Qed.

Lemma intensity_where_mask (P f : float -> bool) (a : list float) (w : list Z) :
  List.length w = List.length a ->
  intensity_where f (mask_select a (map P a)) (mask_select w (map P a))
  = intensity_where (fun x => P x && f x) a w.
Proof.
  unfold intensity_where, pair_intensity. revert w.
  induction a as [|x a IH]; intros w Hlen.
  - destruct w; [reflexivity | discriminate].
  - destruct w as [|y w]; [discriminate|].
    injection Hlen as Hlen.
    cbn [map mask_select combine fold_right fst snd].
    destruct (P x); cbn [andb combine fold_right fst snd]; now rewrite IH.
Qed.

Lemma combine_app_eq {A B : Type} (a1 a2 : list A) (w1 w2 : list B) :
  List.length a1 = List.length w1 ->
  combine (a1 ++ a2) (w1 ++ w2) = (combine a1 w1 ++ combine a2 w2)%list.
Proof.
  revert w1. induction a1 as [|x a1 IH]; intros [|y w1] H; try discriminate.
  - reflexivity.
  - injection H as H. cbn [app combine]. now rewrite IH.
Qed.

Lemma intensity_where_app (f : float -> bool) (a1 a2 : list float) (w1 w2 : list Z) :
  List.length a1 = List.length w1 ->
  intensity_where f (a1 ++ a2) (w1 ++ w2)
  = intensity_where f a1 w1 + intensity_where f a2 w2.
Proof.
  intros H. unfold intensity_where.
  now rewrite combine_app_eq, pair_intensity_app.
Qed.

Lemma total_magnitude_nonneg (w : list Z) : 0 <= total_magnitude w.
Proof. unfold total_magnitude. induction w as [|y w IH]; cbn [fold_right]; lia. Qed.

Lemma total_magnitude_app (w1 w2 : list Z) :
  total_magnitude (w1 ++ w2) = total_magnitude w1 + total_magnitude w2.
Proof.
  unfold total_magnitude. induction w1 as [|y w1 IH]; cbn [app fold_right]; lia.
Qed.

Lemma total_magnitude_perm (w1 w2 : list Z) :
  Permutation w1 w2 -> total_magnitude w1 = total_magnitude w2.
Proof. unfold total_magnitude. induction 1; cbn [fold_right]; lia. Qed.

Lemma total_magnitude_firstn (n : nat) (w : list Z) :
  total_magnitude (firstn n w) <= total_magnitude w.
Proof.
  rewrite <- (firstn_skipn n w) at 2. rewrite total_magnitude_app.
  pose proof (total_magnitude_nonneg (skipn n w)). lia.
Qed.

Lemma total_magnitude_skipn (n : nat) (w : list Z) :
  total_magnitude (skipn n w) <= total_magnitude w.
Proof.
  rewrite <- (firstn_skipn n w) at 2. rewrite total_magnitude_app.
  pose proof (total_magnitude_nonneg (firstn n w)). lia.
Qed.

Lemma total_magnitude_mask (w : list Z) (m : list bool) :
  total_magnitude (mask_select w m) <= total_magnitude w.
Proof.
  unfold total_magnitude. revert m.
  induction w as [|y w IH]; intros [|[|] m]; cbn [mask_select fold_right];
    try specialize (IH m); try lia.
  pose proof (total_magnitude_nonneg w). unfold total_magnitude in *. lia.
Qed.

(** No sum of pixels exceeds the summed magnitude of the pixels. *)
Lemma intensity_where_bound (f : float -> bool) (a : list float) (w : list Z) :
  Z.abs (intensity_where f a w) <= total_magnitude w.
Proof.
  unfold intensity_where, pair_intensity, total_magnitude. revert w.
  induction a as [|x a IH]; intros [|y w]; cbn [combine fold_right fst snd]; try lia.
  - pose proof (total_magnitude_nonneg w). unfold total_magnitude in *. lia.
  - specialize (IH w). destruct (f x); lia.
Qed.

Lemma sum_bound (w : list Z) : Z.abs (fold_right Z.add 0 w) <= total_magnitude w.
Proof. unfold total_magnitude. induction w as [|y w IH]; cbn [fold_right]; lia. Qed.

Lemma mask_select_Forall (P : float -> bool) (a : list float) :
  Forall (fun x => P x = true) (mask_select a (map P a)).
Proof.
  induction a as [|x a IH]; [constructor|].
  cbn [map mask_select]. destruct (P x) eqn:E; [constructor|]; assumption.
Qed.

Lemma mask_select_length {A B : Type} (a : list A) (b : list B) (m : list bool) :
  List.length a = List.length b ->
  List.length (mask_select a m) = List.length (mask_select b m).
Proof.
  revert b m. induction a as [|x a IH]; intros [|y b] m H; try discriminate.
  - reflexivity.
  - injection H as H. destruct m as [|[|] m]; cbn [mask_select List.length]; auto.
Qed.

Lemma mask_select_map {A B : Type} (f : A -> B) (x : list A) (valid : list bool) :
  mask_select (map f x) valid = map f (mask_select x valid).
Proof.
  revert valid. induction x as [|a x IH]; intros [|[|] valid];
    cbn [map mask_select]; try reflexivity; now rewrite IH.
Qed.

(** ** Bin edges *)

Lemma float_of_Z_0 : Prim2SF (float_of_Z 0) = S754_zero false.
Proof. reflexivity. Qed.

Lemma zero_mul (t : float) : zero_or_nan (float_of_Z 0 * t)%float.
Proof.
  unfold zero_or_nan. rewrite FloatAxioms.mul_spec, float_of_Z_0. unfold SF64mul.
  destruct (Prim2SF t) as [s|s| |s m e]; cbn [SFmul]; eauto.
Qed.

Lemma zero_div (t : float) : zero_or_nan (float_of_Z 0 / t)%float.
Proof.
  unfold zero_or_nan. rewrite FloatAxioms.div_spec, float_of_Z_0. unfold SF64div.
  destruct (Prim2SF t) as [s|s| |s m e]; cbn [SFdiv]; eauto.
Qed.

Lemma zero_or_nan_mul (z t : float) : zero_or_nan z -> zero_or_nan (z * t)%float.
Proof.
  unfold zero_or_nan. rewrite FloatAxioms.mul_spec. unfold SF64mul.
  intros [-> | [s ->]]; destruct (Prim2SF t) as [s'|s'| |s' m e]; cbn [SFmul]; eauto.
Qed.

Lemma zero_or_nan_add (z start : float) :
  zero_or_nan z ->
  is_nan (z + start)%float = false ->
  ((z + start) =? start)%float = true.
Proof.
  unfold zero_or_nan, is_nan.
  rewrite negb_false_iff, !FloatAxioms.eqb_spec, FloatAxioms.add_spec. unfold SF64add.
  intros [-> | [s ->]]; destruct (Prim2SF start) as [s'|s'| |s' m e]; cbn [SFadd];
    try discriminate; try reflexivity.
  - destruct s, s'; reflexivity.
  - destruct s, s'; cbn; intros; reflexivity.
  - intros H. exact H.
Qed.

Lemma arange_length (num : Z) : List.length (arange num) = Z.to_nat num.
Proof. unfold arange. now rewrite length_map, length_seq. Qed.

Lemma removelast_cons2 {A : Type} (x y : A) (l : list A) :
  removelast (x :: y :: l) = x :: removelast (y :: l).
Proof. reflexivity. Qed.

Lemma removelast_len {A : Type} (l : list A) :
  List.length (removelast l) = (List.length l - 1)%nat.
Proof.
  induction l as [|x [|y l] IH]; try reflexivity.
  rewrite removelast_cons2. cbn [List.length] in *. lia.
Qed.

Lemma removelast_nth {A : Type} (d : A) (l : list A) :
  forall i, (S i < List.length l)%nat -> nth i (removelast l) d = nth i l d.
Proof.
  induction l as [|x [|y l] IH]; intros i Hi; cbn [List.length] in Hi; try lia.
  rewrite removelast_cons2. destruct i as [|i]; [reflexivity|].
  cbn [nth]. apply IH. cbn [List.length]. lia.
Qed.

(** The three facts about the edges the properties below rest on: there
    are [num] of them, the last is [stop], and the first equals [start]
    unless it is NaN. *)
Lemma linspace_edges (start stop : float) (num : Z) (edges : list float) :
  linspace start stop num = Ok edges ->
  2 <= num ->
  List.length edges = Z.to_nat num
  /\ nth (Z.to_nat num - 1) edges nan = stop
  /\ (is_nan (nth 0 edges nan) = false -> (nth 0 edges nan =? start)%float = true).
Proof.
  intros H Hnum. unfold linspace in H.
  destruct (Z.ltb_spec num 0); [lia|].
  destruct (2 ^ 63 <=? num); [discriminate|].
  destruct (Z.ltb_spec 0 (num - 1)); [|lia].
  destruct (Z.ltb_spec 1 num); [|lia].
  set (div := float_of_Z (num - 1)) in H.
  set (delta := (stop - start)%float) in H.
  assert (Hgen : exists g : float -> float,
             zero_or_nan (g (float_of_Z 0))
             /\ edges = (but_last (map (fun v => (v + start)%float)
                                       (map g (map float_of_Z (arange num))))
                         ++ [stop])%list).
  { destruct (delta / div =? 0)%float; injection H as <-.
    - exists (fun v => (v / div * delta)%float). split; [|reflexivity].
      apply zero_or_nan_mul, zero_div.
    - exists (fun v => (v * (delta / div))%float). split; [|reflexivity].
      apply zero_mul. }
  clear H. destruct Hgen as (g & Hg & ->).
  set (y := map _ (map g _)).
  assert (Hy : List.length y = Z.to_nat num)
    by (unfold y; now rewrite !length_map, arange_length).
  unfold but_last.
  split; [|split].
  - rewrite length_app, removelast_len, Hy. cbn [List.length]. lia.
  - rewrite app_nth2; rewrite removelast_len, Hy; [|lia].
    replace (Z.to_nat num - 1 - (Z.to_nat num - 1))%nat with 0%nat by lia.
    reflexivity.
  - rewrite app_nth1 by (rewrite removelast_len, Hy; lia).
    rewrite removelast_nth by lia.
    unfold y, arange.
    destruct (Z.to_nat num) as [|n] eqn:En; [lia|].
    cbn [seq map nth]. change (Z.of_nat 0) with 0.
    now apply zero_or_nan_add.
Qed.

Lemma edges_decrease_cons (x y : float) (l : list float) :
  edges_decrease (x :: y :: l) = (y <? x)%float || edges_decrease (y :: l).
Proof. reflexivity. Qed.

Lemma edges_adjacent (edges : list float) :
  edges_decrease edges = false ->
  forall i, (S i < List.length edges)%nat ->
  (edge edges (S i) <? edge edges i)%float = false.
Proof.
  unfold edge.
  induction edges as [|x [|y l] IH]; intros H i Hi; cbn [List.length] in Hi; try lia.
  rewrite edges_decrease_cons in H. apply orb_false_iff in H as [Hxy Hl].
  destruct i as [|i]; [exact Hxy|].
  apply (IH Hl i). cbn [List.length]. lia.
Qed.

Lemma edge_not_nan (edges : list float) (i : nat) :
  forallb is_finite edges = true -> (i < List.length edges)%nat ->
  is_nan (edge edges i) = false.
Proof.
  intros H Hi. apply is_finite_not_nan.
  rewrite forallb_forall in H. apply H. now apply nth_In.
Qed.

(** Finite edges that NumPy accepts are in ascending order. *)
Lemma edges_ascending (edges : list float) :
  forallb is_finite edges = true ->
  edges_decrease edges = false ->
  forall i j, (i <= j)%nat -> (j < List.length edges)%nat ->
  (edge edges i <=? edge edges j)%float = true.
Proof.
  intros Hfin Hdec i j Hij. induction Hij as [|j Hij IH]; intros Hj.
  - apply leb_refl. now apply edge_not_nan.
  - apply (leb_trans _ (edge edges j)); [apply IH; lia|].
    apply not_ltb_leb.
    + apply edge_not_nan; auto.
    + apply edge_not_nan; auto; lia.
    + now apply edges_adjacent.
Qed.

Lemma last_only_edge (edges : list float) :
  edges <> [] -> last_only edges = [edge edges (List.length edges - 1)].
Proof.
  intros Hne.
  destruct (exists_last Hne) as (r & x & ->).
  unfold last_only, edge.
  rewrite length_app. cbn [List.length].
  replace (List.length r + 1 - 1)%nat with (List.length r + 0)%nat by lia.
  rewrite skipn_app, skipn_all2 by lia.
  replace (List.length r + 0 - List.length r)%nat with 0%nat by lia.
  rewrite app_nth2 by lia.
  replace (List.length r + 0 - List.length r)%nat with 0%nat by lia.
  reflexivity.
Qed.


(** ** More on the order of binary64 *)

Lemma SFleb_ltb_trans (x y z : spec_float) :
  SFleb x y = true -> SFltb y z = true -> SFltb x z = true.
Proof. intros H1 H2. sf_order. Qed.

Lemma leb_ltb_trans (x y z : float) :
  (x <=? y)%float = true -> (y <? z)%float = true -> (x <? z)%float = true.
Proof. rewrite !FloatAxioms.ltb_spec, FloatAxioms.leb_spec. apply SFleb_ltb_trans. Qed.

Lemma is_finite_spec (x : float) : is_finite x = finite_class (Prim2SF x).
Proof.
  unfold is_finite, is_nan, is_infinity.
  rewrite !FloatAxioms.eqb_spec, FloatAxioms.abs_spec.
  change (Prim2SF infinity) with (S754_infinity false).
  destruct (Prim2SF x) as [s|s| |s m e]; cbn [SFabs SFeqb SFcompare finite_class];
    try reflexivity; destruct s; try reflexivity;
    now rewrite Z.compare_refl, Pos.compare_cont_refl.
Qed.

Lemma SFeqb_finite (x y : spec_float) :
  SFeqb x y = true -> finite_class y = true -> finite_class x = true.
Proof. intros H1 H2. sf_cases; try discriminate; reflexivity. Qed.

Lemma eqb_finite (x y : float) :
  (x =? y)%float = true -> is_finite y = true -> is_finite x = true.
Proof. rewrite FloatAxioms.eqb_spec, !is_finite_spec. apply SFeqb_finite. Qed.

Lemma in_bin_between (edges : list float) (n i : nat) (x : float) :
  in_bin edges n i x = is_finite x && between edges n i x.
Proof. unfold in_bin, between. now rewrite andb_assoc. Qed.

(** ** The histogram *)

Lemma np_less_numbers (x v : float) : is_nan v = false -> np_less x v = (x <? v)%float.
Proof. intros H. unfold np_less. rewrite H. apply orb_false_r. Qed.

Lemma np_less_finite (v x : float) : is_finite x = true -> np_less v x = (v <? x)%float.
Proof. intros H. apply np_less_numbers. now apply is_finite_not_nan. Qed.

Lemma nth_map_seq {A : Type} (f : nat -> A) (d : A) (n i : nat) :
  (i < n)%nat -> nth i (map f (seq 0 n)) d = f i.
Proof.
  intros Hi.
  rewrite (nth_indep _ d (f 0%nat)) by (rewrite length_map, length_seq; lia).
  rewrite map_nth, seq_nth by lia. reflexivity.
Qed.

(** *** Indexing *)

Lemma take_all {A : Type} (d : A) (a : list A) : take d a (seq 0 (List.length a)) = a.
Proof.
  unfold take. induction a as [|x a IH]; [reflexivity|].
  cbn [List.length seq map nth]. f_equal.
  rewrite <- seq_shift, map_map. exact IH.
Qed.

Lemma take_perm {A : Type} (d : A) (a : list A) (index : list nat) :
  Permutation index (seq 0 (List.length a)) -> Permutation (take d a index) a.
Proof.
  intros H. rewrite <- (take_all d a) at 2. unfold take. now apply Permutation_map.
Qed.

Lemma take_length {A : Type} (d : A) (a : list A) (index : list nat) :
  List.length (take d a index) = List.length index.
Proof. unfold take. apply length_map. Qed.

Lemma take_map {A B : Type} (f : A -> B) (d : A) (a : list A) (index : list nat) :
  take (f d) (map f a) index = map f (take d a index).
Proof.
  unfold take. rewrite map_map. apply map_ext. intros i. apply map_nth.
Qed.

Lemma combine_take {A B : Type} (da : A) (db : B) (a : list A) (w : list B)
    (index : list nat) :
  List.length a = List.length w ->
  combine (take da a index) (take db w index) = take (da, db) (combine a w) index.
Proof.
  intros H. unfold take. induction index as [|i index IH]; [reflexivity|].
  cbn [map combine]. rewrite IH. f_equal. symmetry. now apply combine_nth.
Qed.

Lemma Forall_firstn {A : Type} (P : A -> Prop) (n : nat) (l : list A) :
  Forall P l -> Forall P (firstn n l).
Proof.
  intros H. revert n. induction H as [|x l Hx _ IH]; intros [|n]; cbn [firstn];
    constructor; auto.
Qed.

Lemma Forall_skipn {A : Type} (P : A -> Prop) (n : nat) (l : list A) :
  Forall P l -> Forall P (skipn n l).
Proof.
  intros H. revert n. induction H as [|x l Hx Hl IH]; intros [|n]; cbn [skipn];
    auto.
Qed.

Lemma firstn_add {A : Type} (n m : nat) (l : list A) :
  firstn (n + m) l = (firstn n l ++ firstn m (skipn n l))%list.
Proof.
  revert l. induction n as [|n IH]; intros l; [reflexivity|].
  destruct l as [|x l]; [now rewrite !firstn_nil|].
  cbn [Nat.add firstn skipn app]. now rewrite IH.
Qed.

Lemma in_but_last {A : Type} (x : A) (l : list A) : In x (but_last l) -> In x l.
Proof.
  unfold but_last. induction l as [|y l IH]; [tauto|].
  destruct l as [|z l]; [cbn; tauto|].
  rewrite removelast_cons2. intros H. apply in_inv in H as [->|H].
  - now left.
  - right. now apply IH.
Qed.

Lemma in_last_only {A : Type} (x : A) (l : list A) : In x (last_only l) -> In x l.
Proof.
  unfold last_only. generalize (List.length l - 1)%nat as n.
  intros n H. rewrite <- (firstn_skipn n l). apply in_or_app. now right.
Qed.

Lemma edge_tests_length (edges : list float) :
  List.length (edge_tests edges) = List.length edges.
Proof.
  unfold edge_tests, but_last. rewrite length_app, !length_map, removelast_len.
  destruct edges as [|x edges]; [reflexivity|].
  rewrite last_only_edge by discriminate. cbn [List.length]. lia.
Qed.

Lemma take_while_length {A : Type} (f : A -> bool) (l : list A) :
  (List.length (take_while f l) <= List.length l)%nat.
Proof.
  induction l as [|x l IH]; [reflexivity|].
  cbn [take_while]. destruct (f x); cbn [List.length]; lia.
Qed.

(** *** Running sums *)

Lemma cumsum_from_exact (l : list Z) :
  forall acc,
    Z.abs acc + total_magnitude l < 2 ^ 53 ->
    cumsum_from (astype_float acc) (map astype_float l)
    = map (fun k => astype_float (acc + fold_right Z.add 0 (firstn (S k) l)))
          (seq 0 (List.length l)).
Proof.
  induction l as [|x l IH]; intros acc H; [reflexivity|].
  unfold total_magnitude in H. cbn [fold_right] in H. fold (total_magnitude l) in H.
  pose proof (total_magnitude_nonneg l) as Hl.
  cbn [map cumsum_from List.length seq].
  rewrite add_exact by lia.
  rewrite IH by lia.
  rewrite <- seq_shift, map_map. cbn [firstn fold_right]. f_equal.
  - f_equal. lia.
  - apply map_ext. intros k. f_equal. lia.
Qed.

(** The sums NumPy reads off at the bin edges: the entry [k] of the
    cumulated weights is the sum of the first [k] weights. *)
Lemma cumulated_weights_nth (sw : list Z) (k : nat) :
  total_magnitude sw < 2 ^ 53 ->
  (k <= List.length sw)%nat ->
  nth k (0%float :: cumsum (map astype_float sw)) 0%float
  = astype_float (fold_right Z.add 0 (firstn k sw)).
Proof.
  intros H Hk. destruct k as [|k]; [reflexivity|].
  destruct sw as [|x l]; [cbn [List.length] in Hk; lia|].
  unfold total_magnitude in H. cbn [fold_right] in H. fold (total_magnitude l) in H.
  cbn [nth map cumsum]. destruct k as [|k].
  - cbn [nth firstn fold_right]. f_equal. lia.
  - cbn [nth]. rewrite cumsum_from_exact by lia.
    cbn [List.length] in Hk.
    rewrite nth_map_seq by lia.
    cbn [firstn fold_right]. reflexivity.
Qed.

(** In a sorted array the samples a test selects come first, when the test
    holds of every sample below one it holds of. *)
Lemma sorted_prefix_sum (P : float -> bool) (sa : list float) :
  forall sw,
    List.length sa = List.length sw ->
    StronglySorted (fun x y => (y <? x)%float = false) sa ->
    (forall x y, In x sa -> In y sa ->
                 (y <? x)%float = false -> P y = true -> P x = true) ->
    fold_right Z.add 0 (firstn (List.length (take_while P sa)) sw)
    = intensity_where P sa sw.
Proof.
  induction sa as [|a sa IH]; intros [|z sw] Hlen Hs Hcl; try discriminate;
    [reflexivity|].
  injection Hlen as Hlen.
  apply StronglySorted_inv in Hs as [Hs Ha].
  unfold intensity_where, pair_intensity.
  cbn [take_while combine fold_right fst snd].
  destruct (P a) eqn:E.
  - cbn [List.length firstn fold_right]. f_equal.
    apply IH; auto.
    intros x y Hx Hy. apply Hcl; now right.
  - cbn [List.length firstn fold_right].
    fold (pair_intensity P (combine sa sw)).
    rewrite pair_intensity_none; [reflexivity|].
    apply Forall_forall. intros [x w] Hxw. cbn [fst].
    apply in_combine_l in Hxw.
    destruct (P x) eqn:Ex; [|reflexivity].
    rewrite Forall_forall in Ha.
    rewrite (Hcl a x (or_introl eq_refl) (or_intror Hxw) (Ha x Hxw) Ex) in E.
    discriminate.
Qed.

Lemma below_closed (v x y : float) :
  is_finite x = true -> is_finite y = true -> is_nan v = false ->
  (y <? x)%float = false -> np_less y v = true -> np_less x v = true.
Proof.
  intros Hx Hy Hv Hyx. rewrite !np_less_numbers by assumption. intros Hlt.
  apply (leb_ltb_trans _ y); [|exact Hlt].
  apply not_ltb_leb; auto using is_finite_not_nan.
Qed.

Lemma upto_closed (v x y : float) :
  is_finite x = true -> is_finite y = true ->
  (y <? x)%float = false -> negb (np_less v y) = true -> negb (np_less v x) = true.
Proof.
  intros Hx Hy Hyx. rewrite !np_less_finite by assumption.
  rewrite !negb_true_iff. intros Hvy.
  destruct (v <? x)%float eqn:E; [|reflexivity].
  rewrite <- Hvy. symmetry. apply (ltb_leb_trans _ x); [exact E|].
  apply not_ltb_leb; auto using is_finite_not_nan.
Qed.

Lemma np_add_map {A : Type} (f g : A -> float) (l : list A) :
  np_add (map f l) (map g l) = map (fun x => (f x + g x)%float) l.
Proof.
  unfold np_add. induction l as [|x l IH]; [reflexivity|].
  cbn [map combine fst snd]. f_equal. exact IH.
Qed.

Lemma np_add_length (x y : list float) :
  List.length x = List.length y -> List.length (np_add x y) = List.length x.
Proof.
  intros H. unfold np_add. rewrite length_map, length_combine. lia.
Qed.

Lemma map_const_eq {A B C : Type} (c : C) (l1 : list A) (l2 : list B) :
  List.length l1 = List.length l2 -> map (fun _ => c) l1 = map (fun _ => c) l2.
Proof.
  revert l2. induction l1 as [|x l1 IH]; intros [|y l2] H; try discriminate;
    [reflexivity|].
  injection H as H. cbn [map]. f_equal. auto.
Qed.

Lemma slice_map {A B : Type} (f : A -> B) (l : list A) (i n : nat) :
  slice (map f l) i n = map f (slice l i n).
Proof. unfold slice. now rewrite skipn_map, firstn_map. Qed.

Lemma slice_length {A B : Type} (a : list A) (w : list B) (i n : nat) :
  List.length w = List.length a ->
  List.length (slice w i n) = List.length (slice a i n).
Proof. intros H. unfold slice. now rewrite !length_firstn, !length_skipn, H. Qed.

Lemma firstn_slice {A : Type} (l : list A) (j n : nat) :
  firstn (S j * n) l = (firstn (j * n) l ++ slice l (j * n) n)%list.
Proof.
  unfold slice. rewrite <- firstn_add. f_equal. lia.
Qed.

Lemma block_cumulative_length (argsort : list float -> list nat)
    (tmp_a tmp_w bin_edges : list float) :
  List.length (block_cumulative argsort tmp_a tmp_w bin_edges) = List.length bin_edges.
Proof.
  unfold block_cumulative, _search_sorted_inclusive. cbv zeta.
  rewrite take_length, length_app, !length_map.
  unfold but_last. rewrite removelast_len.
  destruct bin_edges as [|x l]; [reflexivity|].
  rewrite last_only_edge by discriminate. cbn [List.length]. lia.
Qed.

Lemma np_diff_cons (x y : float) (l : list float) :
  np_diff (x :: y :: l) = (y - x)%float :: np_diff (y :: l).
Proof. reflexivity. Qed.

Lemma np_diff_length (l : list float) :
  List.length (np_diff l) = (List.length l - 1)%nat.
Proof.
  induction l as [|x [|y l] IH]; try reflexivity.
  rewrite np_diff_cons. cbn [List.length] in *. lia.
Qed.

Lemma np_diff_exact (l : list Z) :
  (forall i, (i < List.length l)%nat -> Z.abs (nth i l 0) < 2 ^ 53) ->
  (forall i, (S i < List.length l)%nat -> Z.abs (nth (S i) l 0 - nth i l 0) < 2 ^ 53) ->
  np_diff (map astype_float l)
  = map (fun i => astype_float (nth (S i) l 0 - nth i l 0)) (seq 0 (List.length l - 1)).
Proof.
  induction l as [|x [|y l] IH]; intros Hb Hd; try reflexivity.
  cbn [map]. rewrite np_diff_cons.
  replace (List.length (x :: y :: l) - 1)%nat with (S (List.length (y :: l) - 1))
    by (cbn [List.length]; lia).
  cbn [seq map]. rewrite <- seq_shift, map_map. f_equal.
  - apply sub_exact.
    + apply (Hb 1%nat). cbn [List.length]. lia.
    + apply (Hb 0%nat). cbn [List.length]. lia.
    + apply (Hd 0%nat). cbn [List.length]. lia.
  - change (astype_float y :: map astype_float l) with (map astype_float (y :: l)).
    rewrite IH.
    + apply map_ext. intros i. reflexivity.
    + intros i Hi. apply (Hb (S i)). cbn [List.length] in *. lia.
    + intros i Hi. apply (Hd (S i)). cbn [List.length] in *. lia.
Qed.

(** The sums at the bin edges, and what lies between two of them. *)
Lemma cumulated_nth (a : list float) (w : list Z) (edges : list float) (n : nat) :
  List.length edges = S n ->
  let cum_n := map (fun P => intensity_where P a w) (edge_tests edges) in
  List.length cum_n = S n
  /\ (forall k, (k < n)%nat ->
        nth k cum_n 0 = intensity_where (fun x => np_less x (edge edges k)) a w)
  /\ nth n cum_n 0 = intensity_where (fun x => negb (np_less (edge edges n) x)) a w.
Proof.
  intros Hlen cum_n. subst cum_n. unfold edge_tests, but_last.
  assert (Hne : edges <> []) by (intros ->; discriminate).
  rewrite (last_only_edge edges Hne), Hlen.
  replace (S n - 1)%nat with n by lia.
  rewrite map_app, !map_map. cbn [map].
  assert (Hr : List.length (map (fun v => intensity_where (fun x => np_less x v) a w)
                                (removelast edges)) = n)
    by (rewrite length_map, removelast_len, Hlen; lia).
  split; [|split].
  - rewrite length_app, Hr. cbn [List.length]. lia.
  - intros k Hk. rewrite app_nth1 by lia.
    rewrite (nth_indep _ 0 (intensity_where (fun x => np_less x nan) a w)) by lia.
    rewrite (map_nth (fun v => intensity_where (fun x => np_less x v) a w)).
    unfold edge. rewrite removelast_nth by lia. reflexivity.
  - rewrite app_nth2 by lia. rewrite Hr, Nat.sub_diag. reflexivity.
Qed.

(** For finite samples and finite ascending edges, the difference of the
    sums at two consecutive edges is the sum of the samples between them. *)
Lemma cumulated_diff (a : list float) (w : list Z) (edges : list float) (n : nat) :
  Forall (fun x => is_finite x = true) a ->
  List.length edges = S n ->
  forallb is_finite edges = true ->
  edges_decrease edges = false ->
  let cum_n := map (fun P => intensity_where P a w) (edge_tests edges) in
  forall i, (i < n)%nat ->
    nth (S i) cum_n 0 - nth i cum_n 0 = intensity_where (between edges n i) a w.
Proof.
  intros Hfin Hedges Hefin Hdec cum_n i Hi.
  destruct (cumulated_nth a w edges n Hedges) as (Hclen & Hbelow & Hupto).
  fold cum_n in Hclen, Hbelow, Hupto.
  rewrite (Hbelow i) by lia.
  assert (Hei : is_nan (edge edges i) = false) by (apply edge_not_nan; auto; lia).
  assert (Hes : is_nan (edge edges (S i)) = false) by (apply edge_not_nan; auto; lia).
  assert (Hle : (edge edges i <=? edge edges (S i))%float = true)
    by (apply edges_ascending; auto; lia).
  destruct (Nat.eqb_spec (S i) n) as [E|E].
  - rewrite <- E in *. rewrite Hupto.
    rewrite intensity_where_sub.
    + apply intensity_where_ext.
      eapply Forall_impl; [|exact Hfin]. intros x Hx. cbv beta.
      apply is_finite_not_nan in Hx.
      unfold between. rewrite Nat.eqb_refl. cbn [andb].
      rewrite !np_less_numbers by assumption.
      rewrite (ltb_negb_leb (edge edges (S i)) x) by assumption.
      rewrite (ltb_negb_leb x (edge edges i)) by assumption.
      rewrite !negb_involutive.
      destruct (x <? edge edges (S i))%float eqn:Hlt.
      * rewrite (ltb_leb _ _ Hlt). cbn [orb]. apply andb_comm.
      * cbn [orb]. apply andb_comm.
    + eapply Forall_impl; [|exact Hfin]. intros x Hx. cbv beta.
      apply is_finite_not_nan in Hx.
      rewrite !np_less_numbers by assumption.
      intros Hlt.
      rewrite (ltb_negb_leb (edge edges (S i)) x) by assumption.
      rewrite negb_involutive.
      apply ltb_leb. eapply ltb_leb_trans; eauto.
  - rewrite (Hbelow (S i)) by lia.
    rewrite intensity_where_sub.
    + apply intensity_where_ext.
      eapply Forall_impl; [|exact Hfin]. intros x Hx. cbv beta.
      apply is_finite_not_nan in Hx.
      unfold between.
      destruct (Nat.eqb_spec (S i) n) as [E'|_]; [contradiction|].
      cbn [andb]. rewrite orb_false_r.
      rewrite !np_less_numbers by assumption.
      rewrite (ltb_negb_leb x (edge edges i)) by assumption.
      rewrite negb_involutive. apply andb_comm.
    + eapply Forall_impl; [|exact Hfin]. intros x Hx. cbv beta.
      rewrite !np_less_numbers by assumption.
      intros Hlt. eapply ltb_leb_trans; eauto.
Qed.

Lemma BLOCK_pos : (0 < BLOCK)%nat.
Proof. unfold BLOCK. lia. Qed.

Lemma blocks_cover (len : nat) : (len <= (len + (BLOCK - 1)) / BLOCK * BLOCK)%nat.
Proof.
  pose proof BLOCK_pos as HB.
  pose proof (Nat.div_mod_eq (len + (BLOCK - 1)) BLOCK) as Hdm.
  pose proof (Nat.mod_upper_bound (len + (BLOCK - 1)) BLOCK ltac:(lia)) as Hm.
  nia.
Qed.

Section HistogramFacts.

Variable argsort : list float -> list nat.

(** A histogram is returned for weights of the length of the samples and
    edges that do not decrease, and it has one entry less than there are
    edges. *)
Lemma histogram_ok (a bins weights : list float) :
  List.length weights = List.length a ->
  edges_decrease bins = false ->
  exists n, histogram argsort a bins weights = Ok n
            /\ List.length n = (List.length bins - 1)%nat.
Proof.
  intros Hlen Hdec. unfold histogram. rewrite Hlen, Nat.eqb_refl, Hdec. cbn [negb].
  eexists. split; [reflexivity|].
  rewrite np_diff_length. f_equal.
  generalize (block_starts (List.length a)) as starts.
  assert (H0 : List.length (map (fun _ : float => 0%float) bins) = List.length bins)
    by apply length_map.
  revert H0. generalize (map (fun _ : float => 0%float) bins) as cum_n.
  intros cum_n H0 starts. revert cum_n H0.
  induction starts as [|i starts IH]; intros cum_n H0; [exact H0|].
  cbn [fold_left]. apply IH.
  rewrite np_add_length; [exact H0|].
  now rewrite block_cumulative_length.
Qed.

Hypothesis argsort_sorts : sorts argsort.

(** One block: with sums below 2^53 the sum read off at an edge is the
    exact sum of the weights of the samples the edge's test selects. *)
Lemma block_cumulative_exact (a : list float) (w : list Z) (edges : list float) :
  List.length w = List.length a ->
  Forall (fun x => is_finite x = true) a ->
  forallb is_finite edges = true ->
  total_magnitude w < 2 ^ 53 ->
  block_cumulative argsort a (map astype_float w) edges
  = map (fun P => astype_float (intensity_where P a w)) (edge_tests edges).
Proof.
  intros Hlen Hfin Hefin Hw.
  destruct (argsort_sorts a) as [Hperm Hsorted].
  unfold block_cumulative. cbv zeta.
  change (take 0%float (map astype_float w) (argsort a))
    with (take (astype_float 0) (map astype_float w) (argsort a)).
  rewrite take_map.
  set (sa := take nan a (argsort a)) in *.
  set (sw := take 0 w (argsort a)).
  assert (Hpa : Permutation sa a) by (apply take_perm; exact Hperm).
  assert (Hpw : Permutation sw w) by (apply take_perm; now rewrite Hlen).
  assert (Hls : List.length sa = List.length sw)
    by (unfold sa, sw; now rewrite !take_length).
  assert (Hpp : Permutation (combine sa sw) (combine a w)).
  { unfold sa, sw. rewrite combine_take by (symmetry; exact Hlen).
    apply take_perm. rewrite length_combine, Hlen, Nat.min_id. exact Hperm. }
  assert (Hsw : total_magnitude sw < 2 ^ 53)
    by (now rewrite (total_magnitude_perm _ _ Hpw)).
  assert (Hsfin : Forall (fun x => is_finite x = true) sa)
    by (apply (Permutation_Forall (x := a)); [now symmetry | exact Hfin]).
  rewrite Forall_forall in Hsfin. rewrite forallb_forall in Hefin.
  unfold _search_sorted_inclusive, edge_tests, take.
  rewrite !map_app, !map_map. f_equal; apply map_ext_in; intros v Hv.
  - apply in_but_last in Hv.
    unfold searchsorted_left.
    rewrite cumulated_weights_nth;
      [|exact Hsw | rewrite <- Hls; apply take_while_length].
    f_equal. rewrite sorted_prefix_sum; auto.
    + unfold intensity_where. now apply pair_intensity_perm.
    + intros x y Hx Hy. apply below_closed; auto.
      apply is_finite_not_nan. auto.
  - apply in_last_only in Hv.
    unfold searchsorted_right.
    rewrite cumulated_weights_nth;
      [|exact Hsw | rewrite <- Hls; apply take_while_length].
    f_equal. rewrite sorted_prefix_sum; auto.
    + unfold intensity_where. now apply pair_intensity_perm.
    + intros x y Hx Hy. apply upto_closed; auto.
Qed.

(** The blocks: after [j] of them the sums at the edges are those of the
    samples of these blocks. *)
Lemma blocks_exact (a : list float) (w : list Z) (edges : list float) :
  List.length w = List.length a ->
  Forall (fun x => is_finite x = true) a ->
  forallb is_finite edges = true ->
  total_magnitude w < 2 ^ 53 ->
  forall j,
    fold_left (fun cum_n i =>
                 np_add cum_n (block_cumulative argsort (slice a i BLOCK)
                                 (slice (map astype_float w) i BLOCK) edges))
              (map (fun j => (j * BLOCK)%nat) (seq 0 j))
              (map (fun _ => 0%float) edges)
    = map (fun P => astype_float (intensity_where P (firstn (j * BLOCK) a)
                                                    (firstn (j * BLOCK) w)))
          (edge_tests edges).
Proof.
  intros Hlen Hfin Hefin Hw j.
  induction j as [|j IH].
  - cbn [seq map fold_left Nat.mul firstn].
    transitivity (map (fun _ : float -> bool => 0%float) (edge_tests edges)).
    + apply map_const_eq. symmetry. apply edge_tests_length.
    + apply map_ext. intros P. reflexivity.
  - rewrite seq_S, map_app, fold_left_app, IH. cbn [Nat.add map fold_left].
    rewrite slice_map.
    rewrite block_cumulative_exact.
    + rewrite np_add_map. apply map_ext. intros P.
      rewrite !firstn_slice.
      rewrite intensity_where_app
        by (rewrite !length_firstn; now rewrite Hlen).
      pose proof (intensity_where_bound P (firstn (j * BLOCK) a) (firstn (j * BLOCK) w)).
      pose proof (intensity_where_bound P (slice a (j * BLOCK) BLOCK)
                                        (slice w (j * BLOCK) BLOCK)).
      pose proof (total_magnitude_firstn (j * BLOCK) w).
      pose proof (total_magnitude_firstn (S j * BLOCK) w) as Hs.
      rewrite firstn_slice, total_magnitude_app in Hs.
      pose proof (total_magnitude_nonneg (firstn (j * BLOCK) w)).
      pose proof (total_magnitude_nonneg (slice w (j * BLOCK) BLOCK)).
      apply add_exact; lia.
    + now apply slice_length.
    + unfold slice. now apply Forall_firstn, Forall_skipn.
    + exact Hefin.
    + unfold slice.
      pose proof (total_magnitude_firstn BLOCK (skipn (j * BLOCK) w)).
      pose proof (total_magnitude_skipn (j * BLOCK) w). lia.
Qed.

(** With sums below 2^53, finite samples and finite ascending edges, the
    histogram is, bin by bin, the exact sum of the weights of the samples of
    the bin. *)
Lemma histogram_exact (a : list float) (w : list Z) (edges : list float) (n : nat) :
  List.length w = List.length a ->
  Forall (fun x => is_finite x = true) a ->
  List.length edges = S n ->
  forallb is_finite edges = true ->
  edges_decrease edges = false ->
  total_magnitude w < 2 ^ 53 ->
  histogram argsort a edges (map astype_float w)
  = Ok (map (fun i => astype_float (intensity_where (between edges n i) a w)) (seq 0 n)).
Proof.
  intros Hlen Hfin Hedges Hefin Hdec Hw.
  unfold histogram. rewrite length_map, Hlen, Nat.eqb_refl, Hdec. cbn [negb]. f_equal.
  unfold block_starts. rewrite (blocks_exact a w edges Hlen Hfin Hefin Hw).
  rewrite !firstn_all2 by (rewrite ?Hlen; apply blocks_cover).
  rewrite <- (map_map (fun P => intensity_where P a w) astype_float).
  destruct (cumulated_nth a w edges n Hedges) as (Hclen & _ & _).
  pose proof (cumulated_diff a w edges n Hfin Hedges Hefin Hdec) as Hdiff.
  cbv zeta in Hclen, Hdiff.
  set (cum_n := map (fun P => intensity_where P a w) (edge_tests edges)) in *.
  rewrite np_diff_exact.
  - rewrite Hclen. replace (S n - 1)%nat with n by lia.
    apply map_ext_in. intros i Hi. apply in_seq in Hi.
    now rewrite Hdiff by lia.
  - intros i Hi. unfold cum_n.
    rewrite (nth_indep _ 0 (intensity_where (fun _ => false) a w)) by exact Hi.
    rewrite (map_nth (fun P => intensity_where P a w) (edge_tests edges)
                     (fun _ => false) i).
    pose proof (intensity_where_bound (nth i (edge_tests edges) (fun _ => false)) a w).
    lia.
  - intros i Hi. rewrite Hclen in Hi. rewrite Hdiff by lia.
    pose proof (intensity_where_bound (between edges n i) a w). lia.
Qed.

End HistogramFacts.

(** ** Radial integration *)

Lemma boolean_index_ok {A : Type} (x : list A) (valid : list bool) :
  List.length x = List.length valid ->
  boolean_index x valid = Ok (mask_select x valid).
Proof. intros H. unfold boolean_index. now rewrite H, Nat.eqb_refl. Qed.

Lemma midpoints_length (edges : list float) :
  List.length (midpoints edges) = (List.length edges - 1)%nat.
Proof.
  unfold midpoints, but_last, but_first.
  rewrite length_map, length_combine, removelast_len.
  destruct edges; cbn [tl List.length]; lia.
Qed.

Section IntegrationFacts.

Variable argsort : list float -> list nat.

(** With arrays of equally many elements and edges NumPy accepts, the call
    returns the midpoints of the edges and one sum for every bin, whatever
    the shapes of the arrays. *)
Lemma radial_integrate_returns (img : ndarray) (tth : farray)
    (tth_min tth_max : float) (nbins : Z) (edges : list float) :
  List.length (data img) = List.length (fdata tth) ->
  linspace tth_min tth_max (nbins + 1) = Ok edges ->
  edges_decrease edges = false ->
  exists sum_I,
    radial_integrate argsort img tth tth_min tth_max nbins = Ok (midpoints edges, sum_I)
    /\ List.length sum_I = (List.length edges - 1)%nat
    /\ histogram argsort (mask_select (fdata tth) (map is_finite (fdata tth))) edges
                 (mask_select (map astype_float (data img)) (map is_finite (fdata tth)))
       = Ok sum_I.
Proof.
  intros Hlen Hedges Hdec.
  destruct (histogram_ok argsort
              (mask_select (fdata tth) (map is_finite (fdata tth))) edges
              (mask_select (map astype_float (data img)) (map is_finite (fdata tth))))
    as (sum_I & Hh & Hslen).
  - apply mask_select_length. now rewrite length_map.
  - exact Hdec.
  - exists sum_I. split; [|split; assumption].
    unfold radial_integrate.
    rewrite boolean_index_ok by (now rewrite !length_map).
    rewrite boolean_index_ok by (now rewrite length_map).
    cbn [bind]. rewrite Hedges. cbn [bind]. rewrite Hh. reflexivity.
Qed.

Hypothesis argsort_sorts : sorts argsort.

(** With finite ascending edges and a summed magnitude of the pixels below
    2^53, the call returns the midpoints of the edges and, bin by bin, the
    summed intensity of the pixels of the bin, which binary64 holds
    exactly. *)
Lemma radial_integrate_bins (img : ndarray) (tth : farray)
    (tth_min tth_max : float) (nbins : Z) (edges : list float) :
  List.length (data img) = List.length (fdata tth) ->
  1 <= nbins ->
  linspace tth_min tth_max (nbins + 1) = Ok edges ->
  forallb is_finite edges = true ->
  edges_decrease edges = false ->
  total_magnitude (data img) < 2 ^ 53 ->
  radial_integrate argsort img tth tth_min tth_max nbins
  = Ok (midpoints edges,
        map (fun i => astype_float
                        (bin_sum edges (Z.to_nat nbins) i (fdata tth) (data img)))
            (seq 0 (Z.to_nat nbins))).
Proof.
  intros Hlen Hn Hedges Hfin Hdec Hw.
  destruct (linspace_edges _ _ _ _ Hedges ltac:(lia)) as (Helen & _ & _).
  replace (Z.to_nat (nbins + 1)) with (S (Z.to_nat nbins)) in Helen by lia.
  unfold radial_integrate.
  rewrite boolean_index_ok by (now rewrite !length_map).
  rewrite boolean_index_ok by (now rewrite length_map).
  cbn [bind]. rewrite Hedges. cbn [bind].
  rewrite mask_select_map.
  rewrite (histogram_exact argsort argsort_sorts _ _ edges (Z.to_nat nbins)); auto.
  - cbn [bind]. unfold midpoints. do 2 f_equal.
    apply map_ext. intros i. f_equal. unfold bin_sum.
    rewrite intensity_where_mask by assumption.
    apply intensity_where_ext, Forall_forall. intros x _.
    now rewrite in_bin_between.
  - apply mask_select_length. assumption.
  - apply mask_select_Forall.
  - pose proof (total_magnitude_mask (data img) (map is_finite (fdata tth))). lia.
Qed.

End IntegrationFacts.

(** ** The sample sort *)

Lemma SF_np_less_asym (x y : spec_float) :
  SFltb x y || (negb (SFeqb y y) && negb (negb (SFeqb x x))) = true ->
  SFltb y x || (negb (SFeqb x x) && negb (negb (SFeqb y y))) = false.
Proof.
  intros H. sf_cases; cbn [orb andb negb] in *; try discriminate; try reflexivity;
    cmp_cases; cbn [orb andb negb] in *; try discriminate; try reflexivity; try lia.
Qed.

Lemma SF_np_less_trans (x y z : spec_float) :
  SFltb y x || (negb (SFeqb x x) && negb (negb (SFeqb y y))) = false ->
  SFltb z y || (negb (SFeqb y y) && negb (negb (SFeqb z z))) = false ->
  SFltb z x || (negb (SFeqb x x) && negb (negb (SFeqb z z))) = false.
Proof.
  intros H1 H2.
  sf_cases; cbn [orb andb negb] in *; try discriminate; try reflexivity;
    cmp_cases; cbn [orb andb negb] in *; try discriminate; try reflexivity; try lia.
Qed.

Lemma np_less_spec (a b : float) :
  np_less a b
  = SFltb (Prim2SF a) (Prim2SF b)
    || (negb (SFeqb (Prim2SF b) (Prim2SF b)) && negb (negb (SFeqb (Prim2SF a) (Prim2SF a)))).
Proof.
  unfold np_less, is_nan. now rewrite FloatAxioms.ltb_spec, !FloatAxioms.eqb_spec.
Qed.

Lemma np_less_asym (x y : float) : np_less x y = true -> np_less y x = false.
Proof. rewrite !np_less_spec. apply SF_np_less_asym. Qed.

(** What is not below [y] is not below anything that is not below [y]
    either. *)
Lemma np_less_trans (x y z : float) :
  np_less y x = false -> np_less z y = false -> np_less z x = false.
Proof. rewrite !np_less_spec. apply SF_np_less_trans. Qed.

Lemma insert_index_perm (a : list float) (i : nat) (index : list nat) :
  Permutation (insert_index a i index) (i :: index).
Proof.
  induction index as [|j index IH]; cbn [insert_index]; [reflexivity|].
  destruct (np_less (nth j a nan) (nth i a nan)); [|reflexivity].
  rewrite IH. apply perm_swap.
Qed.

Lemma insert_index_sorted (a : list float) (i : nat) (index : list nat) :
  StronglySorted (fun j k => np_less (nth k a nan) (nth j a nan) = false) index ->
  StronglySorted (fun j k => np_less (nth k a nan) (nth j a nan) = false)
                 (insert_index a i index).
Proof.
  induction index as [|j index IH]; intros Hs; cbn [insert_index].
  - repeat constructor.
  - apply StronglySorted_inv in Hs as [Hs Hj].
    destruct (np_less (nth j a nan) (nth i a nan)) eqn:E.
    + constructor; [now apply IH|].
      apply (Permutation_Forall (x := i :: index)).
      * symmetry. apply insert_index_perm.
      * constructor; [now apply np_less_asym | exact Hj].
    + constructor; [now constructor|].
      constructor; [exact E|].
      eapply Forall_impl; [|exact Hj].
      intros k Hk. cbv beta in *. now apply (np_less_trans _ (nth j a nan)).
Qed.

Lemma StronglySorted_map {A B : Type} (R : B -> B -> Prop) (f : A -> B) (l : list A) :
  StronglySorted (fun x y => R (f x) (f y)) l -> StronglySorted R (map f l).
Proof.
  induction 1 as [|x l Hl IH Hx]; cbn [map]; constructor; [exact IH|].
  rewrite Forall_map. exact Hx.
Qed.

Lemma StronglySorted_impl {A : Type} (R S : A -> A -> Prop) (l : list A) :
  (forall x y, R x y -> S x y) -> StronglySorted R l -> StronglySorted S l.
Proof.
  intros HRS. induction 1 as [|x l Hl IH Hx]; constructor; [exact IH|].
  eapply Forall_impl; [|exact Hx]. intros y. apply HRS.
Qed.

(** The sample sort is a sort. *)
Lemma stable_argsort_sorts : sorts stable_argsort.
Proof.
  intros a. unfold stable_argsort.
  generalize (seq 0 (List.length a)) as index. intros index. split.
  - induction index as [|i index IH]; cbn [fold_right]; [reflexivity|].
    rewrite insert_index_perm. now constructor.
  - unfold take. apply StronglySorted_map.
    apply (StronglySorted_impl
             (fun j k => np_less (nth k a nan) (nth j a nan) = false)).
    + intros j k H. unfold np_less in H. now apply orb_false_iff in H as [H _].
    + induction index as [|i index IH]; cbn [fold_right]; [constructor|].
      now apply insert_index_sorted.
Qed.

(** ** The bins of a radial integration *)



Section BinningClaims.

Variable argsort : list float -> list nat.
Hypothesis argsort_sorts : sorts argsort.

(** C7, with what the specification leaves out: for tth_min < tth_max
    and nbins >= 1, when the bin edges NumPy computes are finite and ascending
    and the summed magnitude of the pixels is below 2^53, radial integration
    returns, for every bin i, the summed intensity of the pixels whose
    finite angle lies between edge i and edge i + 1, the right edge excluded
    but for the last bin.  A pixel in [edge i, edge (i + 1)) counts for
    bin i and for no other bin; a pixel at tth_max counts for the last bin;
    a pixel whose angle is NaN, infinite, below tth_min or above tth_max
    counts for no bin. *)
Theorem radial_integrate_binning (img : ndarray) (tth : farray)
    (tth_min tth_max : float) (nbins : Z) (edges : list float) :
  List.length (data img) = List.length (fdata tth) ->
  (tth_min <? tth_max)%float = true ->
  1 <= nbins ->
  linspace tth_min tth_max (nbins + 1) = Ok edges ->
  forallb is_finite edges = true ->
  edges_decrease edges = false ->
  total_magnitude (data img) < 2 ^ 53 ->
  let n := Z.to_nat nbins in
  radial_integrate argsort img tth tth_min tth_max nbins
  = Ok (midpoints edges,
        map (fun i => astype_float (bin_sum edges n i (fdata tth) (data img)))
            (seq 0 n))
  /\ (forall x i, (i < n)%nat -> is_finite x = true ->
        (edge edges i <=? x)%float = true ->
        (x <? edge edges (S i))%float = true ->
        in_bin edges n i x = true
        /\ forall k, (k < n)%nat -> k <> i -> in_bin edges n k x = false)
  /\ (forall x, (x =? tth_max)%float = true -> in_bin edges n (n - 1) x = true)
  /\ (forall x i, (i < n)%nat ->
        is_finite x = false \/ (x <? tth_min)%float = true
        \/ (tth_max <? x)%float = true ->
        in_bin edges n i x = false).
Proof.
  intros Hlen Hlt Hn Hedges Hfin Hdec Hw n.
  destruct (linspace_edges _ _ _ _ Hedges ltac:(lia)) as (Helen & Hlast & Hfirst).
  replace (Z.to_nat (nbins + 1)) with (S n) in * by (subst n; lia).
  replace (S n - 1)%nat with n in Hlast by lia.
  fold (edge edges n) in Hlast. fold (edge edges 0) in Hfirst.
  assert (Hasc : forall i j, (i <= j)%nat -> (j <= n)%nat ->
                   (edge edges i <=? edge edges j)%float = true)
    by (intros i j Hij Hj; apply edges_ascending; auto; lia).
  assert (Hnan : forall i, (i <= n)%nat -> is_nan (edge edges i) = false)
    by (intros i Hi; apply edge_not_nan; auto; lia).
  assert (Hn0 : (1 <= n)%nat) by (subst n; lia).
  split; [now apply radial_integrate_bins|].
  split; [|split].
  - intros x i Hi Hx Hlo Hhi. split.
    + unfold in_bin. now rewrite Hx, Hlo, Hhi.
    + intros k Hk Hki. rewrite in_bin_between, Hx. cbn [andb]. unfold between.
      destruct (Nat.lt_ge_cases k i) as [Hlt'|Hge].
      * assert (Hle : (edge edges (S k) <=? x)%float = true)
          by (apply (leb_trans _ (edge edges i)); [apply Hasc; lia | exact Hlo]).
        assert (E1 : (x <? edge edges (S k))%float = false).
        { destruct (x <? edge edges (S k))%float eqn:E; [|reflexivity].
          apply ltb_not_leb in E. congruence. }
        rewrite E1. destruct (Nat.eqb_spec (S k) n); [lia|].
        cbn [andb orb]. apply andb_false_r.
      * assert (Hlt2 : (x <? edge edges k)%float = true)
          by (apply (ltb_leb_trans _ (edge edges (S i))); [exact Hhi | apply Hasc; lia]).
        now rewrite (ltb_not_leb _ _ Hlt2).
  - intros x Hx.
    assert (Hxfin : is_finite x = true).
    { apply (eqb_finite x tth_max Hx). rewrite <- Hlast.
      rewrite forallb_forall in Hfin. apply Hfin. apply nth_In. lia. }
    unfold in_bin. rewrite Hxfin.
    replace (S (n - 1)) with n by lia. rewrite Nat.eqb_refl, Hlast.
    rewrite (eqb_leb _ _ Hx).
    assert (Hle : (edge edges (n - 1) <=? x)%float = true).
    { apply (leb_trans _ (edge edges n)); [apply Hasc; lia|].
      rewrite Hlast. apply eqb_leb, eqb_sym, Hx. }
    rewrite Hle. cbn [andb]. apply orb_true_r.
  - intros x i Hi [Hx | [Hx | Hx]].
    + unfold in_bin. now rewrite Hx.
    + rewrite in_bin_between. unfold between.
      assert (Hlt2 : (x <? edge edges i)%float = true).
      { apply (ltb_leb_trans _ tth_min); [exact Hx|].
        apply (leb_trans _ (edge edges 0)); [|apply Hasc; lia].
        apply eqb_leb, eqb_sym, Hfirst, Hnan. lia. }
      rewrite (ltb_not_leb _ _ Hlt2). cbn [andb]. apply andb_false_r.
    + rewrite in_bin_between. unfold between.
      assert (Hlt2 : (edge edges (S i) <? x)%float = true).
      { apply (leb_ltb_trans _ tth_max); [|exact Hx].
        rewrite <- Hlast. apply Hasc; lia. }
      rewrite (ltb_not_leb _ _ Hlt2).
      assert (E1 : (x <? edge edges (S i))%float = false).
      { destruct (x <? edge edges (S i))%float eqn:E; [|reflexivity].
        apply ltb_leb in E. apply ltb_not_leb in Hlt2. congruence. }
      rewrite E1. rewrite andb_false_r. cbn [orb]. rewrite andb_false_r.
      apply andb_false_r.
Qed.


End BinningClaims.

(** C10, with what the specification leaves out: the call reads its two
    arrays flat and never looks at their shapes.  For tth_min < tth_max and nbins >= 1,
    when the arrays hold equally many elements, whatever their shapes, and
    NumPy accepts the bin edges it computes, the call returns two arrays of
    length nbins, and the same two for any other shapes given to the same
    elements.  When moreover the edges are finite and the summed magnitude
    of the pixels is below 2^53, bin i holds the summed intensity of the
    pixels k whose angle k lies in the bin, k running over the flattened
    arrays. *)
Theorem radial_integrate_ignores_shapes (argsort : list float -> list nat)
    (img : ndarray) (tth : farray)
    (tth_min tth_max : float) (nbins : Z) (edges : list float) :
  List.length (data img) = List.length (fdata tth) ->
  (tth_min <? tth_max)%float = true ->
  1 <= nbins ->
  linspace tth_min tth_max (nbins + 1) = Ok edges ->
  edges_decrease edges = false ->
  exists tth_centers sum_I,
    radial_integrate argsort img tth tth_min tth_max nbins = Ok (tth_centers, sum_I)
    /\ List.length tth_centers = Z.to_nat nbins
    /\ List.length sum_I = Z.to_nat nbins
    /\ (forall shape_img shape_tth,
          radial_integrate argsort (mk_ndarray shape_img (data img))
                           (mk_farray shape_tth (fdata tth)) tth_min tth_max nbins
          = Ok (tth_centers, sum_I))
    /\ (sorts argsort ->
        forallb is_finite edges = true ->
        total_magnitude (data img) < 2 ^ 53 ->
        sum_I = map (fun i => astype_float
                                (bin_sum edges (Z.to_nat nbins) i
                                         (fdata tth) (data img)))
                    (seq 0 (Z.to_nat nbins))).
Proof.
  intros Hlen _ Hn Hedges Hdec.
  destruct (linspace_edges _ _ _ _ Hedges ltac:(lia)) as (Helen & _ & _).
  destruct (radial_integrate_returns argsort img tth tth_min tth_max nbins edges
              Hlen Hedges Hdec) as (sum_I & Hcall & Hslen & _).
  exists (midpoints edges), sum_I.
  split; [exact Hcall|].
  split; [rewrite midpoints_length, Helen; lia|].
  split; [rewrite Hslen, Helen; lia|].
  split.
  - intros shape_img shape_tth.
    destruct (radial_integrate_returns argsort (mk_ndarray shape_img (data img))
                (mk_farray shape_tth (fdata tth)) tth_min tth_max nbins edges
                Hlen Hedges Hdec) as (sum_I' & Hcall' & _ & Hh').
    destruct (radial_integrate_returns argsort img tth tth_min tth_max nbins edges
                Hlen Hedges Hdec) as (sum_I'' & Hcall'' & _ & Hh'').
    cbn [data fdata] in Hh'. rewrite Hh'' in Hh'. injection Hh' as <-.
    rewrite Hcall'' in Hcall. injection Hcall as <-. exact Hcall'.
  - intros Hs Hfin Hw.
    rewrite (radial_integrate_bins argsort Hs img tth tth_min tth_max nbins edges)
      in Hcall by assumption.
    now injection Hcall as <-.
Qed.

(** ** The default bins *)

Lemma forallb_seq (P : nat -> bool) (n : nat) :
  forallb P (seq 0 n) = true -> forall i, (i < n)%nat -> P i = true.
Proof.
  intros H i Hi. rewrite forallb_forall in H. apply H, in_seq. lia.
Qed.

(** C8, as binary64 has it: for tth_min = 0, tth_max = 20 and nbins = 2000
    the bin edges are exactly the products i * 0.01 for i from 0 to 2000,
    and every bin center is the midpoint 0.5 * (edge i + edge (i + 1)),
    which is edge i + 0.005 up to one unit in the last place: the two differ
    by at most 2^-48, and they differ for 617 of the 2000 bins.  Every call
    with these parameters returns these centers. *)
Theorem default_bin_edges :
  linspace 0 20 2001 = Ok edges_0_20_2000
  /\ (forall i, (i <= 2000)%nat ->
        edge edges_0_20_2000 i = (float_of_Z (Z.of_nat i) * 0.01)%float)
  /\ (forall i, (i < 2000)%nat ->
        nth i (midpoints edges_0_20_2000) nan
        = (0.5 * (edge edges_0_20_2000 i + edge edges_0_20_2000 (S i)))%float
        /\ (abs (nth i (midpoints edges_0_20_2000) nan
                 - (edge edges_0_20_2000 i + 0.005))
            <=? 0x1p-48)%float = true)
  /\ List.length
       (filter (fun i => negb (nth i (midpoints edges_0_20_2000) nan
                               =? edge edges_0_20_2000 i + 0.005)%float)
               (seq 0 2000)) = 617%nat
  /\ (forall argsort img tth, List.length (data img) = List.length (fdata tth) ->
        exists sum_I,
          radial_integrate argsort img tth 0 20 2000
          = Ok (midpoints edges_0_20_2000, sum_I)).
Proof.
  split; [vm_compute; reflexivity|].
  split; [|split; [|split]].
  - intros i Hi.
    apply FloatAxioms.Leibniz.eqb_spec.
    pose (P := fun i => Leibniz.eqb (edge edges_0_20_2000 i)
                                    (float_of_Z (Z.of_nat i) * 0.01)%float).
    apply (forallb_seq P 2001); [vm_compute; reflexivity | lia].
  - intros i Hi.
    pose (P := fun i =>
                 Leibniz.eqb (nth i (midpoints edges_0_20_2000) nan)
                             (0.5 * (edge edges_0_20_2000 i
                                     + edge edges_0_20_2000 (S i)))%float
                 && (abs (nth i (midpoints edges_0_20_2000) nan
                          - (edge edges_0_20_2000 i + 0.005))
                     <=? 0x1p-48)%float).
    assert (H : P i = true)
      by (apply (forallb_seq P 2000); [vm_compute; reflexivity | lia]).
    unfold P in H.
    cbv beta in H. apply andb_true_iff in H as [H1 H2].
    split; [now apply FloatAxioms.Leibniz.eqb_spec | exact H2].
  - vm_compute. reflexivity.
  - intros argsort img tth Hlen.
    destruct (radial_integrate_returns argsort img tth 0 20 2000 edges_0_20_2000 Hlen)
      as (sum_I & Hcall & _); [vm_compute; reflexivity | vm_compute; reflexivity|].
    now exists sum_I.
Qed.

(** The center of bin 3 is not edge 3 + 0.005. *)
Lemma center_3_is_not_edge_3_plus_half_width :
  exists tth_centers sum_I,
    radial_integrate stable_argsort (mk_ndarray [1; 1] [7])
                     (mk_farray [1; 1] [0.035%float]) 0 20 2000
    = Ok (tth_centers, sum_I)
    /\ (nth 3 tth_centers nan =? float_of_Z 3 * 0.01 + 0.005)%float = false.
Proof.
  eexists. eexists. split; [vm_compute; reflexivity|].
  vm_compute. reflexivity.
Qed.

(** * Further properties

    Properties of the code beside the claims of the specification. *)

(** ** The conversion loop *)

Section LoopFacts.

Variable py : interpreter.
Variable decompress : h5value -> pyvalue -> Z -> result (list Byte.byte).

Lemma convert_frames_app (group : list (string * h5node)) (ks1 ks2 : list string) :
  forall idx,
    convert_frames py decompress group idx (ks1 ++ ks2)
    = match convert_frames py decompress group idx ks1 with
      | (files1, Some e) => (files1, Some e)
      | (files1, None) =>
          let (files2, e) :=
            convert_frames py decompress group (idx + List.length ks1) ks2 in
          ((files1 ++ files2)%list, e)
      end.
Proof.
  induction ks1 as [|k ks1 IH]; intros idx.
  - cbn [app convert_frames List.length]. rewrite Nat.add_0_r.
    now destruct (convert_frames py decompress group idx ks2).
  - cbn [app convert_frames List.length].
    destruct (convert_frame py decompress group idx k) as [file|e]; [|reflexivity].
    rewrite IH.
    destruct (convert_frames py decompress group (S idx) ks1) as [files1 [e1|]];
      [reflexivity|].
    replace (S idx + List.length ks1)%nat with (idx + S (List.length ks1))%nat by lia.
    now destruct (convert_frames py decompress group (idx + S (List.length ks1)) ks2).
Qed.

(** X1: the loop stops at the first frame that fails: the files of the
    frames before it stay written, the exception is that frame's, and the
    keys after it are never looked at. *)
Theorem conversion_stops_at_first_failure
    (group : list (string * h5node)) (idx : nat) (ks1 ks2 : list string) (k : string)
    (files : list (string * ndarray)) (e : error) :
  convert_frames py decompress group idx ks1 = (files, None) ->
  convert_frame py decompress group (idx + List.length ks1) k = Err e ->
  convert_frames py decompress group idx (ks1 ++ k :: ks2) = (files, Some e).
Proof.
  intros H1 Hk.
  rewrite convert_frames_app, H1. cbn [convert_frames]. rewrite Hk.
  now rewrite app_nil_r.
Qed.

End LoopFacts.

(** ** File names *)

Lemma substring_all (s : string) : substring 0 (String.length s) s = s.
Proof. induction s as [|c s IH]; [reflexivity|]. cbn. now rewrite IH. Qed.

Lemma leading_digits_zeros (k : nat) (s : string) :
  Nat.of_uint (leading_digits (string_of_list_ascii (repeat "0"%char k) ++ s))
  = Nat.of_uint (leading_digits s).
Proof.
  induction k as [|k IH]; [reflexivity|].
  cbn [repeat string_of_list_ascii String.append].
  change (leading_digits (String "0" ?t)) with (Decimal.D0 (leading_digits t)).
  exact IH.
Qed.

Lemma leading_digits_uint (d : Decimal.uint) (t : string) :
  leading_digits t = Decimal.Nil ->
  leading_digits (NilEmpty.string_of_uint d ++ t) = d.
Proof.
  intros Ht.
  induction d; cbn [NilEmpty.string_of_uint String.append];
    [exact Ht | ..];
    cbn [leading_digits]; rewrite IHd; reflexivity.
Qed.

Lemma frame_index_name (idx : nat) : frame_index (frame_name idx) = idx.
Proof.
  unfold frame_index, frame_name.
  set (digits := NilZero.string_of_uint (Nat.to_uint idx)).
  set (pad := string_of_list_ascii (repeat "0"%char (5 - String.length digits))).
  cbn [String.append String.length Nat.sub substring].
  rewrite Nat.sub_0_r, substring_all. unfold pad.
  rewrite leading_digits_zeros.
  transitivity (Nat.of_uint (Nat.to_uint idx));
    [|apply DecimalNat.Unsigned.of_to].
  unfold digits, NilZero.string_of_uint.
  destruct (Nat.to_uint idx) eqn:E; try (rewrite leading_digits_uint; reflexivity).
  reflexivity.
Qed.

(** The names of the files the loop writes are those of the indices
    [idx], [idx + 1], ... in order. *)
Lemma convert_frames_names (py : interpreter)
    (decompress : h5value -> pyvalue -> Z -> result (list Byte.byte))
    (group : list (string * h5node)) (ks : list string) :
  forall idx files e,
    convert_frames py decompress group idx ks = (files, e) ->
    map fst files = map frame_name (seq idx (List.length files)).
Proof.
  induction ks as [|k ks IH]; intros idx files e H; cbn [convert_frames] in H.
  - injection H as <- <-. reflexivity.
  - unfold convert_frame in H.
    destruct (getitem group k) as [node|]; cbn [bind] in H;
      [|injection H as <- <-; reflexivity].
    destruct (match node with
              | Group children => get_frame_array py decompress children
              | Dataset _ => Err (PyError "TypeError")
              end) as [img|]; cbn [bind] in H;
      [|injection H as <- <-; reflexivity].
    destruct (convert_frames py decompress group (S idx) ks) as [files' e'] eqn:Hrest.
    injection H as <- <-.
    cbn [map fst List.length seq]. f_equal. exact (IH _ _ _ Hrest).
Qed.

(** X2: the files of a conversion are named by their position in the run,
    [frame_00000.tiff], [frame_00001.tiff], ..., whatever the keys of the
    frames, and the index can be read back from the name: no two files of a
    run have the same name. *)
Theorem written_files_are_numbered
    (py : interpreter)
    (decompress : h5value -> pyvalue -> Z -> result (list Byte.byte))
    (f : list (string * h5node)) (group_name : string) (nframes : option Z)
    (files : list (string * ndarray)) (e : option error) :
  eiger_to_tiff py decompress f group_name nframes = (files, e) ->
  map fst files = map frame_name (seq 0 (List.length files))
  /\ map frame_index (map fst files) = seq 0 (List.length files)
  /\ NoDup (map fst files).
Proof.
  intros H.
  assert (Hnames : map fst files = map frame_name (seq 0 (List.length files))).
  { unfold eiger_to_tiff in H.
    destruct (negb (contains f group_name)); [injection H as <- <-; reflexivity|].
    destruct (lookup f group_name) as [[v|group]|];
      try (injection H as <- <-; reflexivity).
    destruct (frame_keys py group nframes) as [ks|];
      [|injection H as <- <-; reflexivity].
    exact (convert_frames_names py decompress group ks 0%nat files e H). }
  assert (Hidx : map frame_index (map fst files) = seq 0 (List.length files)).
  { rewrite Hnames, map_map. rewrite <- (map_id (seq 0 _)) at 2.
    apply map_ext. exact frame_index_name. }
  split; [exact Hnames|]. split; [exact Hidx|].
  apply (NoDup_map_inv frame_index). rewrite Hidx. apply seq_NoDup.
Qed.

(** ** The choice of the payload *)

Section PayloadFacts.

Variable py : interpreter.
Variable decompress : h5value -> pyvalue -> Z -> result (list Byte.byte).

(** X3: a ["difference"] subgroup with the five fields decides the frame
    alone: two frame groups that hold the same ["difference"] subgroup
    decode alike, whatever other channels they hold and even when one of
    them also holds the five fields itself. *)
Theorem difference_channel_decides
    (frame_group1 frame_group2 diff : list (string * h5node)) :
  lookup frame_group1 "difference" = Some (Group diff) ->
  lookup frame_group2 "difference" = Some (Group diff) ->
  _has_required_keys diff = true ->
  get_frame_array py decompress frame_group1 = get_frame_array py decompress frame_group2
  /\ get_frame_array py decompress frame_group1
     = (p <- read_payload py diff ;; decode_payload decompress p).
Proof.
  intros H1 H2 Hk.
  assert (Hsel : forall fg, lookup fg "difference" = Some (Group diff) ->
                   _select_payload_group fg = Ok diff).
  { intros fg Hfg. unfold _select_payload_group.
    assert (H : difference_payload fg = Some diff)
      by (apply difference_payload_some; auto).
    now rewrite H. }
  unfold get_frame_array. rewrite (Hsel _ H1), (Hsel _ H2). split; reflexivity.
Qed.

(** X6: a decoded frame holds the decompressed buffer whole, whatever its
    shape: its elements are the 32-bit words of the buffer in order, four
    bytes each, none dropped and none added. *)
Theorem decoded_frame_is_the_buffer
    (frame_group : list (string * h5node)) (arr : ndarray) :
  get_frame_array py decompress frame_group = Ok arr ->
  exists payload p buf,
    _select_payload_group frame_group = Ok payload
    /\ read_payload py payload = Ok p
    /\ decompress (raw_data p) (compression_type p) 4 = Ok buf
    /\ data arr = words_of buf
    /\ Z.of_nat (List.length buf) = 4 * Z.of_nat (List.length (data arr))
    /\ forall k, (k < List.length (data arr))%nat ->
         nth_error (data arr) k
         = Some (le32 (nth (4 * k) buf Byte.x00) (nth (4 * k + 1) buf Byte.x00)
                      (nth (4 * k + 2) buf Byte.x00) (nth (4 * k + 3) buf Byte.x00)).
Proof.
  intros Hok.
  destruct (get_frame_array_ok py decompress _ _ Hok)
    as (payload & p & buf & Hsel & Hread & Hsize & Hbuf & Hlen & Hre).
  pose proof (reshape_data _ _ _ Hre) as Hdata.
  exists payload, p, buf.
  assert (H4 : Z.of_nat (List.length buf) = 4 * Z.of_nat (List.length (data arr))).
  { rewrite Hdata, words_of_length.
    rewrite Hlen. rewrite Z.div_mul by lia. lia. }
  repeat split; auto.
  intros k Hk. rewrite Hdata. apply words_of_nth. lia.
Qed.

End PayloadFacts.

(** ** Frame keys that are no numbers *)

Lemma mapM_fails {A B : Type} (f : A -> result B) (l : list A) (x : A) (e : error) :
  In x l -> (forall y e', f y = Err e' -> e' = e) -> f x = Err e ->
  mapM f l = Err e.
Proof.
  intros Hin Hsame Hx. induction l as [|y l IH]; [contradiction|].
  cbn [mapM]. destruct (f y) as [b|e'] eqn:Hy; cbn [bind].
  - destruct Hin as [->|Hin]; [congruence|].
    now rewrite (IH Hin).
  - f_equal. eauto.
Qed.

(** X4: one key that [int] cannot read, be it no number or a number of
    more digits than the interpreter allows, fails the whole conversion
    before any frame is decoded: nothing is written. *)
Theorem non_numeric_key_fails
    (py : interpreter)
    (decompress : h5value -> pyvalue -> Z -> result (list Byte.byte))
    (f group : list (string * h5node)) (group_name k : string) (nframes : option Z) :
  lookup f group_name = Some (Group group) ->
  In k (keys group) ->
  py_int_str py k = None ->
  list_frame_keys py group = Err (PyError "ValueError")
  /\ eiger_to_tiff py decompress f group_name nframes = ([], Some (PyError "ValueError")).
Proof.
  intros Hgroup Hin Hk.
  assert (Hkeys : list_frame_keys py group = Err (PyError "ValueError")).
  { unfold list_frame_keys.
    rewrite (mapM_fails _ (keys group) k (PyError "ValueError")); auto.
    - intros y e'. destruct (py_int_str py y); cbn [of_option bind]; congruence.
    - now rewrite Hk. }
  split; [exact Hkeys|].
  unfold eiger_to_tiff.
  assert (Hc : contains f group_name = true) by (apply contains_lookup; eauto).
  rewrite Hc, Hgroup. cbn [negb].
  unfold frame_keys. now rewrite Hkeys.
Qed.

(** ** The frame limit *)

Lemma convert_frames_count
    (py : interpreter)
    (decompress : h5value -> pyvalue -> Z -> result (list Byte.byte))
    (group : list (string * h5node)) (ks : list string) :
  forall idx, (List.length (fst (convert_frames py decompress group idx ks))
               <= List.length ks)%nat.
Proof.
  induction ks as [|k ks IH]; intros idx; cbn [convert_frames]; [cbn; lia|].
  destruct (convert_frame py decompress group idx k); [|cbn; lia].
  specialize (IH (S idx)).
  destruct (convert_frames py decompress group (S idx) ks). cbn [fst List.length] in *. lia.
Qed.

Lemma mapM_length {A B : Type} (f : A -> result B) (l : list A) (l' : list B) :
  mapM f l = Ok l' -> List.length l' = List.length l.
Proof.
  revert l'. induction l as [|x l IH]; intros l' H; cbn [mapM] in H.
  - injection H as <-. reflexivity.
  - destruct (f x); cbn [bind] in H; [|discriminate].
    destruct (mapM f l) as [ys|]; cbn [bind] in H; [|discriminate].
    injection H as <-. cbn [List.length]. f_equal. now apply IH.
Qed.

(** X5: a frame limit N >= 0 bounds the files written: a run never writes
    more than N files, nor more files than the group has frames. *)
Theorem frame_limit_bounds_the_run
    (py : interpreter)
    (decompress : h5value -> pyvalue -> Z -> result (list Byte.byte))
    (f group : list (string * h5node)) (group_name : string) (n : Z) :
  lookup f group_name = Some (Group group) ->
  0 <= n ->
  (List.length (fst (eiger_to_tiff py decompress f group_name (Some n))) <= Z.to_nat n)%nat
  /\ (List.length (fst (eiger_to_tiff py decompress f group_name (Some n)))
      <= List.length group)%nat.
Proof.
  intros Hgroup Hn.
  unfold eiger_to_tiff.
  assert (Hc : contains f group_name = true) by (apply contains_lookup; eauto).
  rewrite Hc, Hgroup. cbn [negb].
  unfold frame_keys, list_frame_keys.
  destruct (mapM _ (keys group)) as [keyed_keys|] eqn:Hm; cbn [bind fst List.length];
    [|lia].
  apply mapM_length in Hm.
  unfold slice_to. destruct (Z.leb_spec 0 n); [|lia].
  pose proof (convert_frames_count py decompress group
                (firstn (Z.to_nat n) (map snd (sorted_by_key keyed_keys))) 0) as Hle.
  rewrite length_firstn, length_map in Hle.
  rewrite (Permutation_length (sorted_by_key_perm keyed_keys)), Hm in Hle.
  unfold keys in Hle. rewrite length_map in Hle.
  lia.
Qed.

(** ** Keys of equal value *)

Lemma insert_by_key_stable (z : Z) (x : Z * string) (l : list (Z * string)) :
  filter (fun p => fst p =? z) (insert_by_key x l)
  = filter (fun p => fst p =? z) (x :: l).
Proof.
  induction l as [|y l IH]; [reflexivity|].
  cbn [insert_by_key].
  destruct (Z.leb_spec (fst x) (fst y)) as [Hxy|Hxy]; [reflexivity|].
  cbn [filter] in *. rewrite IH.
  destruct (Z.eqb_spec (fst y) z); destruct (Z.eqb_spec (fst x) z);
    try reflexivity; lia.
Qed.

(** X7: the order of the frames is stable: keys that stand for the same
    number (["1"] and ["01"]) are converted in the order in which the group
    lists them. *)
Theorem equal_keys_keep_their_order (py : interpreter)
    (group : list (string * h5node)) (sorted : list string) (z : Z) :
  list_frame_keys py group = Ok sorted ->
  filter (fun k => key_value py k =? z) sorted
  = filter (fun k => key_value py k =? z) (keys group).
Proof.
  unfold list_frame_keys.
  destruct (mapM _ (keys group)) as [l|] eqn:Hm; cbn [bind]; [|discriminate].
  intros H; injection H as <-.
  assert (Hl : l = keyed py (keys group)).
  { clear z. revert l Hm. generalize (keys group) as ks.
    induction ks as [|k ks IH]; intros l Hm; cbn [mapM] in Hm.
    - injection Hm as <-. reflexivity.
    - destruct (py_int_str py k) as [v|] eqn:Hv; cbn [of_option bind] in Hm;
        [|discriminate].
      destruct (mapM _ ks) as [ys|] eqn:Hys; cbn [bind] in Hm; [|discriminate].
      injection Hm as <-. unfold keyed. cbn [map].
      unfold key_value at 1. rewrite Hv. f_equal. now apply IH. }
  subst l.
  assert (Hstable : forall l, filter (fun p => fst p =? z) (sorted_by_key l)
                              = filter (fun p => fst p =? z) l).
  { induction l as [|x l IH]; [reflexivity|].
    cbn [sorted_by_key fold_right]. fold (sorted_by_key l).
    rewrite insert_by_key_stable. cbn [filter]. now rewrite IH. }
  assert (Hfst : forall l, Forall (fun p => fst p = key_value py (snd p)) l ->
            filter (fun k => key_value py k =? z) (map snd l)
            = map snd (filter (fun p => fst p =? z) l)).
  { induction 1 as [|p l Hp _ IH]; [reflexivity|].
    cbn [map filter]. rewrite <- Hp.
    destruct (fst p =? z); cbn [map]; now rewrite IH. }
  assert (Hk : Forall (fun p => fst p = key_value py (snd p)) (keyed py (keys group))).
  { unfold keyed. apply Forall_forall. intros p Hp.
    apply in_map_iff in Hp as (k & <- & _). reflexivity. }
  rewrite Hfst.
  - rewrite Hstable, <- Hfst by exact Hk.
    unfold keyed. rewrite map_map. cbn [snd]. now rewrite map_id.
  - apply (Permutation_Forall (x := keyed py (keys group))); [|exact Hk].
    symmetry. apply sorted_by_key_perm.
Qed.

(** ** Bin edges and totals *)

Lemma linspace_ok (start stop : float) (num : Z) :
  0 <= num < 2 ^ 63 -> exists edges, linspace start stop num = Ok edges.
Proof.
  intros [H0 H1]. unfold linspace.
  destruct (Z.ltb_spec num 0); [lia|].
  destruct (Z.leb_spec (2 ^ 63) num); [lia|].
  eexists. reflexivity.
Qed.

(** X8: for 2 to 2^63 - 1 samples, [linspace] returns exactly that many
    edges; the last edge is [stop] itself and the first edge equals [start]
    unless it is NaN (as when [stop - start] overflows): the edges span the
    closed range. *)
Theorem linspace_spans_the_range (start stop : float) (num : Z) :
  2 <= num < 2 ^ 63 ->
  exists edges,
    linspace start stop num = Ok edges
    /\ List.length edges = Z.to_nat num
    /\ nth (Z.to_nat num - 1) edges nan = stop
    /\ (is_nan (nth 0 edges nan) = false -> (nth 0 edges nan =? start)%float = true).
Proof.
  intros Hnum.
  destruct (linspace_ok start stop num ltac:(lia)) as [edges Hedges].
  exists edges. split; [exact Hedges|].
  apply (linspace_edges start stop num edges Hedges). lia.
Qed.

Lemma telescope (c : nat -> Z) (k n : nat) :
  fold_right Z.add 0 (map (fun i => c (S i) - c i) (seq k n)) = c (k + n)%nat - c k.
Proof.
  revert k. induction n as [|n IH]; intros k; cbn [seq map fold_right].
  - rewrite Nat.add_0_r. lia.
  - rewrite IH. replace (S k + n)%nat with (k + S n)%nat by lia. lia.
Qed.

Lemma SFeqb_leb_compat (a b x : spec_float) :
  SFeqb a b = true -> SFleb a x = SFleb b x.
Proof. intros H. sf_order. Qed.

Lemma eqb_leb_compat (a b x : float) :
  (a =? b)%float = true -> (a <=? x)%float = (b <=? x)%float.
Proof.
  rewrite FloatAxioms.eqb_spec, !FloatAxioms.leb_spec. apply SFeqb_leb_compat.
Qed.

(** The bins share out what lies between the first and the last edge. *)
Lemma bin_sums_total (a : list float) (w : list Z) (edges : list float)
    (lo hi : float) (n : nat) :
  List.length w = List.length a ->
  List.length edges = S n ->
  (1 <= n)%nat ->
  forallb is_finite edges = true ->
  edges_decrease edges = false ->
  (edge edges 0 =? lo)%float = true ->
  edge edges n = hi ->
  fold_right Z.add 0 (map (fun i => bin_sum edges n i a w) (seq 0 n))
  = intensity_where (fun x => is_finite x && (lo <=? x)%float && (x <=? hi)%float) a w.
Proof.
  intros Hlen Helen Hn Hfin Hdec Hfirst Hlast.
  set (valid := map is_finite a).
  set (a' := mask_select a valid).
  set (w' := mask_select w valid).
  assert (Hafin : Forall (fun x => is_finite x = true) a')
    by apply mask_select_Forall.
  pose proof (cumulated_diff a' w' edges n Hafin Helen Hfin Hdec) as Hdiff.
  destruct (cumulated_nth a' w' edges n Helen) as (Hclen & Hbelow & Hupto).
  cbv zeta in Hdiff, Hclen, Hbelow, Hupto.
  set (cum_n := map (fun P => intensity_where P a' w') (edge_tests edges)) in *.
  rewrite (map_ext_in _ (fun i => nth (S i) cum_n 0 - nth i cum_n 0)).
  2:{ intros i Hi. apply in_seq in Hi. rewrite Hdiff by lia.
      unfold bin_sum, a', w', valid. rewrite intensity_where_mask by assumption.
      apply intensity_where_ext, Forall_forall. intros x _.
      now rewrite in_bin_between. }
  rewrite (telescope (fun i => nth i cum_n 0)). cbn [Nat.add].
  rewrite Hupto, (Hbelow 0%nat) by lia.
  assert (Hnan0 : is_nan (edge edges 0) = false) by (apply edge_not_nan; auto; lia).
  assert (Hnann : is_nan (edge edges n) = false) by (apply edge_not_nan; auto; lia).
  assert (H0n : (edge edges 0 <=? edge edges n)%float = true)
    by (apply edges_ascending; auto; lia).
  rewrite intensity_where_sub.
  - unfold a', w', valid. rewrite intensity_where_mask by assumption.
    apply intensity_where_ext, Forall_forall. intros x _.
    destruct (is_finite x) eqn:Hx; cbn [andb]; [|reflexivity].
    apply is_finite_not_nan in Hx.
    rewrite !np_less_numbers by assumption.
    rewrite (ltb_negb_leb (edge edges n) x) by assumption.
    rewrite (ltb_negb_leb x (edge edges 0)) by assumption.
    rewrite !negb_involutive, Hlast.
    rewrite (eqb_leb_compat _ _ x Hfirst). apply andb_comm.
  - eapply Forall_impl; [|exact Hafin]. intros x Hx. cbv beta.
    apply is_finite_not_nan in Hx.
    rewrite !np_less_numbers by assumption. intros Hlt.
    rewrite (ltb_negb_leb (edge edges n) x) by assumption.
    rewrite negb_involutive.
    apply ltb_leb. apply (ltb_leb_trans _ (edge edges 0)); assumption.
Qed.

(** X9: when [np.argsort] sorts, the bin edges are finite and ascending and
    the summed magnitude of the pixels is below 2^53, the bins hold
    integers, which binary64 has exactly, and they share out, without loss
    and without double counting, the intensity of the pixels whose angle is
    finite and lies in the closed range from tth_min to tth_max: the sum of
    all bins is the summed intensity of exactly these pixels. *)
Theorem bins_sum_to_the_intensity_in_range (argsort : list float -> list nat)
    (img : ndarray) (tth : farray)
    (tth_min tth_max : float) (nbins : Z) (edges : list float) :
  sorts argsort ->
  List.length (data img) = List.length (fdata tth) ->
  1 <= nbins ->
  linspace tth_min tth_max (nbins + 1) = Ok edges ->
  forallb is_finite edges = true ->
  edges_decrease edges = false ->
  total_magnitude (data img) < 2 ^ 53 ->
  exists tth_centers sums,
    radial_integrate argsort img tth tth_min tth_max nbins
    = Ok (tth_centers, map astype_float sums)
    /\ Forall (fun s => Prim2SF (astype_float s) = exact_float s) sums
    /\ fold_right Z.add 0 sums
       = intensity_where (fun x => is_finite x && (tth_min <=? x)%float
                                   && (x <=? tth_max)%float)
                         (fdata tth) (data img).
Proof.
  intros Hsorts Hlen Hn Hedges Hfin Hdec Hw.
  destruct (linspace_edges _ _ _ _ Hedges ltac:(lia)) as (Helen & Hlast & Hfirst).
  set (n := Z.to_nat nbins) in *.
  replace (Z.to_nat (nbins + 1)) with (S n) in * by (subst n; lia).
  replace (S n - 1)%nat with n in Hlast by lia.
  fold (edge edges n) in Hlast. fold (edge edges 0) in Hfirst.
  exists (midpoints edges).
  exists (map (fun i => bin_sum edges n i (fdata tth) (data img)) (seq 0 n)).
  split; [|split].
  - rewrite map_map.
    now apply (radial_integrate_bins argsort Hsorts img tth tth_min tth_max nbins edges).
  - apply Forall_forall. intros s Hs. apply in_map_iff in Hs as (i & <- & _).
    apply astype_float_spec.
    pose proof (intensity_where_bound (in_bin edges n i) (fdata tth) (data img)).
    unfold bin_sum. lia.
  - apply bin_sums_total; auto.
    + subst n. lia.
    + apply Hfirst, edge_not_nan; auto. lia.
Qed.

Lemma intensity_where_bounds (f : float -> bool) (a : list float) (w : list Z) :
  List.length w = List.length a ->
  Forall (fun x => 0 <= x) w ->
  0 <= intensity_where f a w <= fold_right Z.add 0 w.
Proof.
  unfold intensity_where, pair_intensity. intros Hlen Hw. revert a Hlen.
  induction Hw as [|y w Hy _ IH]; intros [|x a] Hlen; try discriminate.
  - cbn. lia.
  - injection Hlen as Hlen. specialize (IH a Hlen).
    cbn [combine fold_right fst snd]. destruct (f x); lia.
Qed.

Lemma total_magnitude_sum (w : list Z) :
  Forall (fun x => 0 <= x) w -> total_magnitude w = fold_right Z.add 0 w.
Proof.
  unfold total_magnitude. induction 1 as [|y w Hy _ IH]; cbn [fold_right]; lia.
Qed.

(** X10: when [np.argsort] sorts, the bin edges are finite and ascending
    and no pixel is negative, with a summed intensity of the image below
    2^53, the bins hold integers, which binary64 has exactly: none is
    negative and none exceeds the summed intensity of the image. *)
Theorem bins_are_bounded_by_the_image (argsort : list float -> list nat)
    (img : ndarray) (tth : farray)
    (tth_min tth_max : float) (nbins : Z) (edges : list float) :
  sorts argsort ->
  List.length (data img) = List.length (fdata tth) ->
  1 <= nbins ->
  linspace tth_min tth_max (nbins + 1) = Ok edges ->
  forallb is_finite edges = true ->
  edges_decrease edges = false ->
  Forall (fun x => 0 <= x) (data img) ->
  fold_right Z.add 0 (data img) < 2 ^ 53 ->
  exists tth_centers sums,
    radial_integrate argsort img tth tth_min tth_max nbins
    = Ok (tth_centers, map astype_float sums)
    /\ Forall (fun s => Prim2SF (astype_float s) = exact_float s
                        /\ 0 <= s <= fold_right Z.add 0 (data img)) sums.
Proof.
  intros Hsorts Hlen Hn Hedges Hfin Hdec Hpos Hw.
  exists (midpoints edges).
  exists (map (fun i => bin_sum edges (Z.to_nat nbins) i (fdata tth) (data img))
              (seq 0 (Z.to_nat nbins))).
  split.
  - rewrite map_map.
    apply (radial_integrate_bins argsort Hsorts img tth tth_min tth_max nbins edges);
      auto.
    now rewrite total_magnitude_sum.
  - apply Forall_forall. intros s Hs.
    apply in_map_iff in Hs as (i & <- & _).
    pose proof (intensity_where_bounds (in_bin edges (Z.to_nat nbins) i)
                                       (fdata tth) (data img) Hlen Hpos) as Hb.
    split; [|exact Hb].
    apply astype_float_spec. unfold bin_sum. lia.
Qed.

(** X11: the element count is the one thing the call checks about its
    arrays, and it checks it first: when the counts differ the call fails
    with NumPy's index error, whatever the angle range and the number of
    bins; when NumPy accepts the bin edges, the call succeeds exactly when
    the counts agree. *)
Theorem radial_integrate_checks_the_count (argsort : list float -> list nat)
    (img : ndarray) (tth : farray) (tth_min tth_max : float) (nbins : Z) :
  (List.length (data img) <> List.length (fdata tth) ->
   radial_integrate argsort img tth tth_min tth_max nbins = Err (PyError "IndexError"))
  /\ (forall edges,
        linspace tth_min tth_max (nbins + 1) = Ok edges ->
        edges_decrease edges = false ->
        (is_ok (radial_integrate argsort img tth tth_min tth_max nbins) = true
         <-> List.length (data img) = List.length (fdata tth))).
Proof.
  assert (Hdiff : List.length (data img) <> List.length (fdata tth) ->
                  radial_integrate argsort img tth tth_min tth_max nbins
                  = Err (PyError "IndexError")).
  { intros H. unfold radial_integrate, boolean_index. rewrite !length_map.
    destruct (Nat.eqb_spec (List.length (data img)) (List.length (fdata tth)));
      [contradiction | reflexivity]. }
  split; [exact Hdiff|].
  intros edges Hedges Hdec. split.
  - intros Hok.
    destruct (Nat.eq_dec (List.length (data img)) (List.length (fdata tth)))
      as [E|E]; [exact E|].
    rewrite (Hdiff E) in Hok. discriminate.
  - intros Hlen.
    destruct (radial_integrate_returns argsort img tth tth_min tth_max nbins edges
                Hlen Hedges Hdec) as (sum_I & -> & _).
    reflexivity.
Qed.

(** ** The angle map *)

Lemma np_degrees_finite (x : float) : is_finite (np_degrees x) = true -> is_finite x = true.
Proof.
  unfold np_degrees. rewrite !is_finite_spec, FloatAxioms.mul_spec.
  change (Prim2SF rad2deg) with (S754_finite false 8063664102031864 (-47)).
  unfold SF64mul.
  destruct (Prim2SF x) as [s|s| |s m e]; cbn [SFmul finite_class]; auto.
Qed.

(** X12: the angle map is that of the first detector of the instrument,
    pixel by pixel in degrees and in the same shape; the other detectors and
    the azimuths play no role, an instrument without a detector is an index
    error, and an angle that is NaN or infinite in radians is not finite in
    degrees either, so that radial integration still leaves the pixel out. *)
Theorem angle_map_of_the_first_detector :
  compute_tth_map [] = Err (PyError "IndexError")
  /\ forall det_key tth eta rest,
       exists tth_map_deg,
         compute_tth_map ((det_key, mk_detector (tth, eta)) :: rest) = Ok tth_map_deg
         /\ fshape tth_map_deg = fshape tth
         /\ fdata tth_map_deg = map np_degrees (fdata tth)
         /\ map is_finite (fdata tth_map_deg)
            = map (fun x => is_finite x && is_finite (np_degrees x)) (fdata tth).
Proof.
  split; [reflexivity|].
  intros det_key tth eta rest. eexists.
  split; [reflexivity|]. cbn [fshape fdata].
  split; [reflexivity|]. split; [reflexivity|].
  rewrite map_map. apply map_ext. intros x.
  destruct (is_finite (np_degrees x)) eqn:E.
  - now rewrite (np_degrees_finite x E).
  - now rewrite andb_false_r.
Qed.

(** ** The batch integrator *)

Section BatchFacts.

Variable abspath : string -> string.
Variable glob : string -> list string.
Variable imread : string -> result ndarray.
Variable argsort : list float -> list nat.

(** X13: what the batch integrator checks before its loop, in this order,
    each failure leaving nothing written: that some file matches, before the
    instrument is even looked at; that the instrument gives an angle map;
    that the first image can be read; that the first image has the shape of
    the angle map, the error carrying the two shapes. *)
Theorem batch_checks_before_the_loop
    (instrument : result (list (string * detector))) (tiff_folder : string)
    (tth_min tth_max : float) (nbins : Z) (pattern output_prefix : string) :
  let run := integrate_tiff_folder abspath glob imread argsort instrument tiff_folder
                                   tth_min tth_max nbins pattern output_prefix in
  let tiff_files := collect_tiff_files abspath glob (abspath tiff_folder) pattern in
  (tiff_files = [] -> run = ([], Some NoMatchingFilesError))
  /\ (forall first rest e,
        tiff_files = first :: rest ->
        (instr <- instrument ;; compute_tth_map instr) = Err e ->
        run = ([], Some (Raised e)))
  /\ (forall first rest tth_map_deg e,
        tiff_files = first :: rest ->
        (instr <- instrument ;; compute_tth_map instr) = Ok tth_map_deg ->
        imread first = Err e ->
        run = ([], Some (Raised e)))
  /\ (forall first rest tth_map_deg test_img,
        tiff_files = first :: rest ->
        (instr <- instrument ;; compute_tth_map instr) = Ok tth_map_deg ->
        imread first = Ok test_img ->
        shape test_img <> fshape tth_map_deg ->
        run = ([], Some (GeometryShapeMismatchError (shape test_img)
                                                    (fshape tth_map_deg)))).
Proof.
  cbv zeta. unfold integrate_tiff_folder.
  split; [|split; [|split]].
  - intros ->. reflexivity.
  - intros first rest e -> ->. reflexivity.
  - intros first rest tth_map_deg e -> -> ->. reflexivity.
  - intros first rest tth_map_deg test_img -> -> -> Hshape.
    assert (E : shape_eqb (shape test_img) (fshape tth_map_deg) = false).
    { destruct (shape_eqb (shape test_img) (fshape tth_map_deg)) eqn:E; [|reflexivity].
      exfalso. apply Hshape. clear Hshape.
      revert E. generalize (fshape tth_map_deg) as b. generalize (shape test_img) as a.
      induction a as [|x a IH]; intros [|y b] E; try discriminate; [reflexivity|].
      cbn [shape_eqb] in E. apply andb_true_iff in E as [Exy E].
      apply Z.eqb_eq in Exy. subst y. f_equal. now apply IH. }
    now rewrite E.
Qed.

Lemma integrate_files_order (tth_map_deg : farray) (tth_min tth_max : float) (nbins : Z)
    (prefix : string) (tiff_files : list string) :
  forall tables e,
    integrate_files imread argsort tth_map_deg tth_min tth_max nbins prefix tiff_files
    = (tables, e) ->
    (forall j table, nth_error tables j = Some table ->
       exists tiff_path img pattern,
         nth_error tiff_files j = Some tiff_path
         /\ imread tiff_path = Ok img
         /\ radial_integrate argsort img tth_map_deg tth_min tth_max nbins = Ok pattern
         /\ table = (output_name prefix tiff_path, pattern))
    /\ (e = None -> List.length tables = List.length tiff_files)
    /\ (forall err, e = Some err ->
          exists tiff_path,
            nth_error tiff_files (List.length tables) = Some tiff_path
            /\ integrate_file imread argsort tth_map_deg tth_min tth_max nbins prefix tiff_path
               = Err match err with Raised e' => e' | _ => PyError "" end).
Proof.
  induction tiff_files as [|tiff_path rest IH]; intros tables e H;
    cbn [integrate_files] in H.
  - injection H as <- <-. split; [|split].
    + intros [|j] table Hj; discriminate.
    + reflexivity.
    + discriminate.
  - destruct (integrate_file imread argsort tth_map_deg tth_min tth_max nbins prefix tiff_path)
      as [table0|e0] eqn:Hfile.
    + destruct (integrate_files imread argsort tth_map_deg tth_min tth_max nbins prefix rest)
        as [tables' e'] eqn:Hrest.
      injection H as <- <-.
      destruct (IH _ _ eq_refl) as (IH1 & IH2 & IH3).
      split; [|split].
      * intros [|j] table Hj; cbn [nth_error] in Hj |- *.
        -- injection Hj as <-. unfold integrate_file in Hfile.
           destruct (imread tiff_path) as [img|] eqn:Himg; cbn [bind] in Hfile;
             [|discriminate].
           destruct (radial_integrate argsort img tth_map_deg tth_min tth_max nbins)
             as [pattern|] eqn:Hpat; cbn [bind] in Hfile; [|discriminate].
           injection Hfile as <-. exists tiff_path, img, pattern. auto.
        -- exact (IH1 j table Hj).
      * intros He. cbn [List.length]. f_equal. auto.
      * intros err He. cbn [List.length nth_error]. exact (IH3 err He).
    + injection H as <- <-. split; [|split].
      * intros [|j] table Hj; discriminate.
      * discriminate.
      * intros err He. injection He as <-. exists tiff_path.
        cbn [List.length nth_error]. auto.
Qed.

(** X14: once the first image has passed the shape check, the run is the
    loop over the files in their sorted order: the j-th table written is the
    radial integration of the j-th image, named after it; the shapes of the
    later images are never compared with the angle map; and the loop stops
    at the first image that cannot be read or integrated, leaving the tables
    written before it. *)
Theorem batch_integrates_in_order
    (instrument : result (list (string * detector))) (tiff_folder : string)
    (tth_min tth_max : float) (nbins : Z) (pattern output_prefix : string)
    (first : string) (rest : list string) (tth_map_deg : farray) (test_img : ndarray)
    (tables : list (string * (list float * list float))) (e : option batch_error) :
  collect_tiff_files abspath glob (abspath tiff_folder) pattern = first :: rest ->
  (instr <- instrument ;; compute_tth_map instr) = Ok tth_map_deg ->
  imread first = Ok test_img ->
  shape test_img = fshape tth_map_deg ->
  integrate_tiff_folder abspath glob imread argsort instrument tiff_folder
                        tth_min tth_max nbins pattern output_prefix = (tables, e) ->
  (forall j table, nth_error tables j = Some table ->
     exists tiff_path img pattern,
       nth_error (first :: rest) j = Some tiff_path
       /\ imread tiff_path = Ok img
       /\ radial_integrate argsort img tth_map_deg tth_min tth_max nbins = Ok pattern
       /\ table = (output_name (normalized_prefix abspath output_prefix) tiff_path,
                   pattern))
  /\ (e = None -> List.length tables = List.length (first :: rest))
  /\ (forall err, e = Some err ->
        exists tiff_path e',
          err = Raised e'
          /\ nth_error (first :: rest) (List.length tables) = Some tiff_path
          /\ integrate_file imread argsort tth_map_deg tth_min tth_max nbins
                            (normalized_prefix abspath output_prefix) tiff_path
             = Err e').
Proof.
  intros Hfiles Hmap Hfirst Hshape Hrun.
  unfold integrate_tiff_folder in Hrun.
  rewrite Hfiles, Hmap, Hfirst, Hshape in Hrun.
  assert (E : forall a, shape_eqb a a = true).
  { induction a as [|x a IH]; [reflexivity|].
    cbn [shape_eqb]. now rewrite Z.eqb_refl, IH. }
  rewrite E in Hrun. cbn [negb] in Hrun.
  destruct (integrate_files_order _ _ _ _ _ _ _ _ Hrun) as (H1 & H2 & H3).
  split; [exact H1|]. split; [exact H2|].
  intros err He. destruct (H3 err He) as (tiff_path & Hnth & Hfile).
  assert (Hraised : exists e', err = Raised e').
  { clear - Hrun He. subst e.
    revert tables Hrun. generalize (first :: rest) as files.
    induction files as [|p files IH]; intros tables Hrun; cbn [integrate_files] in Hrun.
    - discriminate.
    - destruct (integrate_file _ _ _ _ _ _ _ p) as [t|e0].
      + destruct (integrate_files _ _ _ _ _ _ _ files) as [ts e1] eqn:Hr.
        injection Hrun as <- ->. exact (IH _ eq_refl).
      + injection Hrun as <- <-. eauto. }
  destruct Hraised as (e' & ->).
  exists tiff_path, e'. auto.
Qed.

End BatchFacts.

(** ** Paths and file names *)

Lemma take_while_stop {A : Type} (f : A -> bool) (l1 l2 : list A) (x : A) :
  forallb f l1 = true -> f x = false -> take_while f (l1 ++ x :: l2) = l1.
Proof.
  intros H Hx. induction l1 as [|y l1 IH]; cbn [app take_while forallb] in *.
  - now rewrite Hx.
  - apply andb_true_iff in H as [Hy H]. rewrite Hy. f_equal. auto.
Qed.

Lemma drop_while_stop {A : Type} (f : A -> bool) (l1 l2 : list A) (x : A) :
  forallb f l1 = true -> f x = false -> drop_while f (l1 ++ x :: l2) = x :: l2.
Proof.
  intros H Hx. induction l1 as [|y l1 IH]; cbn [app drop_while forallb] in *.
  - now rewrite Hx.
  - apply andb_true_iff in H as [Hy H]. rewrite Hy. auto.
Qed.

Lemma take_while_all {A : Type} (f : A -> bool) (l : list A) :
  forallb f l = true -> take_while f l = l.
Proof.
  induction l as [|y l IH]; cbn [take_while forallb]; [reflexivity|].
  intros H. apply andb_true_iff in H as [Hy H]. rewrite Hy. f_equal. auto.
Qed.

Lemma drop_while_all {A : Type} (f : A -> bool) (l : list A) :
  forallb f l = true -> drop_while f l = [].
Proof.
  induction l as [|y l IH]; cbn [drop_while forallb]; [reflexivity|].
  intros H. apply andb_true_iff in H as [Hy H]. rewrite Hy. auto.
Qed.

Lemma drop_while_nil {A : Type} (f : A -> bool) (l : list A) :
  drop_while f l = [] -> forallb f l = true.
Proof.
  induction l as [|y l IH]; cbn [drop_while forallb]; [reflexivity|].
  destruct (f y); [exact IH | discriminate].
Qed.

Lemma drop_while_head {A : Type} (f : A -> bool) (l : list A) (x : A) (l' : list A) :
  drop_while f l = x :: l' -> f x = false.
Proof.
  induction l as [|y l IH]; cbn [drop_while]; [discriminate|].
  destruct (f y) eqn:Hy; [exact IH|].
  intros H. injection H as <- <-. exact Hy.
Qed.

Lemma not_existsb_forallb {A : Type} (f : A -> bool) (l : list A) :
  existsb f l = false -> forallb (fun x => negb (f x)) l = true.
Proof.
  induction l as [|y l IH]; [reflexivity|].
  cbn [existsb forallb]. intros H. apply orb_false_iff in H as [Hy H].
  now rewrite Hy, IH.
Qed.

Lemma is_char_refl (c : ascii) : is_char c c = true.
Proof. unfold is_char. apply Ascii.eqb_refl. Qed.

Lemma after_last_tail (c : ascii) (h t : list ascii) :
  existsb (is_char c) t = false -> after_last c (h ++ c :: t) = t.
Proof.
  intros H. unfold after_last.
  rewrite rev_app_distr. cbn [rev]. rewrite <- app_assoc. cbn [app].
  rewrite take_while_stop.
  - apply rev_involutive.
  - rewrite forallb_rev. now apply not_existsb_forallb.
  - now rewrite is_char_refl.
Qed.

Lemma through_last_head (c : ascii) (h t : list ascii) :
  existsb (is_char c) t = false -> through_last c (h ++ c :: t) = (h ++ [c])%list.
Proof.
  intros H. unfold through_last.
  rewrite rev_app_distr. cbn [rev]. rewrite <- app_assoc. cbn [app].
  rewrite drop_while_stop.
  - change (c :: rev h) with (rev (h ++ [c])) || rewrite <- rev_unit.
    apply rev_involutive.
  - rewrite forallb_rev. now apply not_existsb_forallb.
  - now rewrite is_char_refl.
Qed.

Lemma after_last_whole (c : ascii) (p : list ascii) :
  existsb (is_char c) p = false -> after_last c p = p.
Proof.
  intros H. unfold after_last. rewrite take_while_all.
  - apply rev_involutive.
  - rewrite forallb_rev. now apply not_existsb_forallb.
Qed.

Lemma through_last_none (c : ascii) (p : list ascii) :
  existsb (is_char c) p = false -> through_last c p = [].
Proof.
  intros H. unfold through_last. rewrite drop_while_all; [reflexivity|].
  rewrite forallb_rev. now apply not_existsb_forallb.
Qed.

Lemma list_ascii_of_string_app (s t : string) :
  list_ascii_of_string (s ++ t)
  = (list_ascii_of_string s ++ list_ascii_of_string t)%list.
Proof.
  induction s as [|c s IH]; [reflexivity|].
  cbn [append list_ascii_of_string app]. now rewrite IH.
Qed.

Lemma string_of_list_ascii_app (l m : list ascii) :
  string_of_list_ascii (l ++ m) = string_of_list_ascii l ++ string_of_list_ascii m.
Proof.
  induction l as [|c l IH]; [reflexivity|].
  cbn [append string_of_list_ascii app]. now rewrite IH.
Qed.

Lemma rstrip_char_unit (c : ascii) (p : list ascii) :
  rstrip_char c (p ++ [c]) = rstrip_char c p.
Proof.
  unfold rstrip_char. rewrite rev_unit. cbn [drop_while].
  now rewrite is_char_refl.
Qed.

Lemma rstrip_char_end (c : ascii) (p q : list ascii) :
  rstrip_char c p <> (q ++ [c])%list.
Proof.
  unfold rstrip_char. intros H.
  apply (f_equal (@rev ascii)) in H. rewrite rev_involutive, rev_unit in H.
  apply drop_while_head in H. now rewrite is_char_refl in H.
Qed.

Lemma dirname_empty (p : list ascii) :
  is_nil (dirname p) = true <-> existsb (is_char "/") p = false.
Proof.
  split.
  - unfold dirname. intros H.
    assert (Hhead : through_last "/" p = []).
    { destruct (through_last "/" p) as [|x head] eqn:Hh; [reflexivity|].
      cbn [is_nil negb andb] in H.
      destruct (forallb (is_char "/") (x :: head)) eqn:Hall; cbn [negb] in H.
      - discriminate.
      - unfold rstrip_char in H.
        destruct (drop_while (is_char "/") (rev (x :: head))) as [|y r] eqn:Hd.
        + apply drop_while_nil in Hd. rewrite forallb_rev in Hd. congruence.
        + cbn [rev] in H. destruct (rev r); discriminate. }
    unfold through_last in Hhead.
    apply (f_equal (@rev ascii)) in Hhead. rewrite rev_involutive in Hhead.
    cbn [rev] in Hhead. apply drop_while_nil in Hhead. rewrite forallb_rev in Hhead.
    clear H. induction p as [|y p IH]; [reflexivity|].
    cbn [forallb existsb] in *. apply andb_true_iff in Hhead as [Hy Hp].
    apply negb_true_iff in Hy. now rewrite Hy, IH.
  - intros H. unfold dirname. now rewrite through_last_none.
Qed.

Section NameFacts.

Variable abspath : string -> string.

(** X15: the prefix of the output names never ends with an underscore, and
    for a prefix without a directory part a trailing underscore changes
    nothing: the tables of a run get the same names with or without it. *)
Theorem prefix_loses_trailing_underscores (output_prefix : string) :
  (forall q, normalized_prefix abspath output_prefix <> q ++ "_")
  /\ (has_char "/" output_prefix = false ->
      normalized_prefix abspath (output_prefix ++ "_")
      = normalized_prefix abspath output_prefix
      /\ forall tiff_path,
           output_name (normalized_prefix abspath (output_prefix ++ "_")) tiff_path
           = output_name (normalized_prefix abspath output_prefix) tiff_path).
Proof.
  split.
  - intros q H. unfold normalized_prefix in H.
    apply (f_equal list_ascii_of_string) in H.
    rewrite list_ascii_of_string_of_list_ascii, list_ascii_of_string_app in H.
    exact (rstrip_char_end _ _ _ H).
  - intros Hno.
    assert (E : normalized_prefix abspath (output_prefix ++ "_")
                = normalized_prefix abspath output_prefix).
    { unfold normalized_prefix, has_char in *.
      assert (H1 : is_nil (dirname (list_ascii_of_string output_prefix)) = true)
        by now apply dirname_empty.
      assert (H2 : is_nil (dirname (list_ascii_of_string (output_prefix ++ "_"))) = true).
      { apply dirname_empty. rewrite list_ascii_of_string_app, existsb_app, Hno.
        reflexivity. }
      rewrite H1, H2, list_ascii_of_string_app.
      cbn [list_ascii_of_string]. now rewrite rstrip_char_unit. }
    split; [exact E|]. intros tiff_path. now rewrite E.
Qed.

(** X16: the table of the image [dir/stem.ext] is named [prefix_stem.txt]:
    the directory and the extension after the last dot are dropped, so two
    images that differ in these only are written to the same file.  The stem
    has no separator and is not made of dots only; the extension has neither
    separator nor dot. *)
Theorem table_is_named_after_the_image (prefix dir stem ext : string) :
  has_char "/" stem = false ->
  only_char "." stem = false ->
  has_char "/" ext = false ->
  has_char "." ext = false ->
  output_name prefix (dir ++ "/" ++ stem ++ "." ++ ext) = prefix ++ "_" ++ stem ++ ".txt".
Proof.
  unfold has_char, only_char. intros Hstem Hdots Hext Hext'.
  unfold output_name. do 2 f_equal.
  rewrite <- (string_of_list_ascii_of_string stem) at 2. f_equal.
  set (ls := list_ascii_of_string stem) in *.
  set (le := list_ascii_of_string ext) in *.
  assert (Hname : existsb (is_char "/") (ls ++ "."%char :: le) = false).
  { rewrite existsb_app. cbn [existsb]. now rewrite Hstem, Hext. }
  assert (Hbase : basename (list_ascii_of_string (dir ++ "/" ++ stem ++ "." ++ ext))
                  = (ls ++ "."%char :: le)%list).
  { rewrite !list_ascii_of_string_app. cbn [list_ascii_of_string app].
    unfold basename. now apply after_last_tail. }
  rewrite Hbase. unfold splitext_root.
  rewrite (after_last_whole _ _ Hname), (through_last_none _ _ Hname).
  rewrite existsb_app. cbn [existsb]. rewrite is_char_refl, orb_true_r.
  rewrite (through_last_head _ _ _ Hext'), removelast_last.
  assert (Hsome : existsb (fun x => negb (is_char "." x)) ls = true).
  { clear - Hdots. induction ls as [|x ls IH]; [discriminate|].
    cbn [forallb existsb] in *. destruct (is_char "." x); cbn [negb andb orb] in *; auto. }
  now rewrite Hsome.
Qed.

End NameFacts.

(** ** The files of a run *)

Lemma insert_path_perm (x : string) (l : list string) :
  Permutation (insert_path x l) (x :: l).
Proof.
  induction l as [|y l IH]; cbn [insert_path]; [reflexivity|].
  destruct (String.leb x y); [reflexivity|].
  rewrite IH. apply perm_swap.
Qed.

Lemma insert_path_sorted (x : string) (l : list string) :
  Sorted path_le l -> Sorted path_le (insert_path x l).
Proof.
  induction l as [|y l IH]; intros Hs; cbn [insert_path].
  - repeat constructor.
  - destruct (String.leb x y) eqn:Hxy.
    + constructor; [exact Hs|]. constructor. exact Hxy.
    + inversion Hs as [|? ? Hl Hhd]; subst.
      constructor; [auto|].
      assert (Hyx : path_le y x).
      { destruct (String.leb_total x y) as [H|H]; [congruence|exact H]. }
      destruct l as [|z l]; cbn [insert_path].
      * constructor. exact Hyx.
      * destruct (String.leb x z); constructor; [exact Hyx|].
        inversion Hhd; subst. assumption.
Qed.

Lemma split_commas_cons (p : list ascii) :
  exists piece pieces, split_commas p = piece :: pieces.
Proof.
  induction p as [|x p (piece & pieces & IH)]; cbn [split_commas]; [eauto|].
  destruct (is_char "," x); [eauto|]. rewrite IH. eauto.
Qed.

Lemma join_commas_cons (a b : list ascii) (l : list (list ascii)) :
  join_commas (a :: b :: l) = (a ++ ","%char :: join_commas (b :: l))%list.
Proof. reflexivity. Qed.

Lemma split_commas_join (p : list ascii) : join_commas (split_commas p) = p.
Proof.
  induction p as [|x p IH]; [reflexivity|]. cbn [split_commas].
  destruct (split_commas_cons p) as (piece & pieces & Hp).
  rewrite Hp in *.
  destruct (is_char "," x) eqn:Hx.
  - unfold is_char in Hx. apply Ascii.eqb_eq in Hx. subst x.
    rewrite join_commas_cons, IH. reflexivity.
  - rewrite <- IH.
    destruct pieces as [|b l]; [reflexivity|].
    rewrite !join_commas_cons. reflexivity.
Qed.

Lemma split_commas_pieces (p : list ascii) :
  Forall (fun piece => ~ In ","%char piece) (split_commas p).
Proof.
  induction p as [|x p IH]; cbn [split_commas].
  - constructor; [intros []|constructor].
  - destruct (is_char "," x) eqn:Hx.
    + constructor; [intros []|exact IH].
    + assert (Hne : x <> ","%char).
      { intros ->. unfold is_char in Hx. now rewrite Ascii.eqb_refl in Hx. }
      destruct (split_commas p) as [|piece pieces].
      * constructor; [|constructor]. intros [H|[]]. congruence.
      * inversion IH as [|? ? Hpiece Hpieces]; subst.
        constructor; [|exact Hpieces].
        intros [H|Hin]; [congruence | contradiction].
Qed.

Lemma blank_is_py_space (c : ascii) : is_py_space c = blank c.
Proof. destruct c as [[|] [|] [|] [|] [|] [|] [|] [|]]; reflexivity. Qed.

Lemma lstrip_split (l : list ascii) :
  exists ws, l = (ws ++ lstrip is_py_space l)%list
             /\ forallb blank ws = true
             /\ starts_blank (lstrip is_py_space l) = false.
Proof.
  induction l as [|c l (ws & Hl & Hws & Hstart)]; cbn [lstrip].
  - exists []. auto.
  - destruct (is_py_space c) eqn:Hc.
    + exists (c :: ws). cbn [app forallb].
      rewrite <- blank_is_py_space, Hc, Hws. split; [now f_equal | auto].
    + exists []. cbn [app forallb starts_blank].
      rewrite <- blank_is_py_space. auto.
Qed.

Lemma strip_trimmed (p : list ascii) : trimmed p (strip p).
Proof.
  unfold trimmed, strip, strip_by.
  destruct (lstrip_split p) as (l & Hp & Hl & Hstart).
  destruct (lstrip_split (rev (lstrip is_py_space p))) as (r & Hq & Hr & Hend).
  set (p1 := lstrip is_py_space p) in *.
  set (q := lstrip is_py_space (rev p1)) in *.
  assert (Hp1 : p1 = (rev q ++ rev r)%list).
  { rewrite <- (rev_involutive p1), Hq, rev_app_distr. reflexivity. }
  exists l, (rev r).
  split; [now rewrite <- Hp1|].
  split; [exact Hl|].
  split; [now rewrite forallb_rev|].
  split; [|now rewrite rev_involutive].
  rewrite Hp1 in Hstart. destruct (rev q); [reflexivity | exact Hstart].
Qed.

Section CollectFacts.

Variable abspath : string -> string.
Variable glob : string -> list string.

(** X17: for a pattern text in ASCII, the files of a run are the matches of
    its patterns in ascending order of their paths, a file that several
    patterns match being listed as often as it is matched.  The patterns
    are the pieces between the commas of the text, each without the white
    space at its two ends, joined to the absolute folder. *)
Theorem collected_files_are_the_sorted_matches (folder pattern : string) :
  forallb is_ascii (list_ascii_of_string pattern) = true ->
  exists pieces patterns,
    list_ascii_of_string pattern = join_commas pieces
    /\ Forall (fun piece => ~ In ","%char piece) pieces
    /\ Forall2 trimmed pieces patterns
    /\ Permutation
         (collect_tiff_files abspath glob folder pattern)
         (flat_map (fun pat => glob (string_of_list_ascii
                                       (path_join (list_ascii_of_string (abspath folder))
                                                  pat)))
                   patterns)
    /\ Sorted path_le (collect_tiff_files abspath glob folder pattern).
Proof.
  intros _.
  exists (split_commas (list_ascii_of_string pattern)).
  exists (map strip (split_commas (list_ascii_of_string pattern))).
  split; [symmetry; apply split_commas_join|].
  split; [apply split_commas_pieces|].
  split.
  { induction (split_commas (list_ascii_of_string pattern)) as [|piece pieces IH];
      cbn [map]; constructor; [apply strip_trimmed | exact IH]. }
  unfold collect_tiff_files.
  generalize (flat_map (fun pat => glob (string_of_list_ascii
                (path_join (list_ascii_of_string (abspath folder)) pat)))
                (map strip (split_commas (list_ascii_of_string pattern)))) as files.
  intros files.
  assert (Hperm : forall files, Permutation (sorted_paths files) files).
  { clear files. induction files as [|x files IH]; cbn [sorted_paths fold_right];
      [reflexivity|].
    rewrite insert_path_perm. now constructor. }
  split; [apply Hperm|].
  induction files as [|x files IH]; cbn [sorted_paths fold_right].
  - constructor.
  - apply insert_path_sorted. exact IH.
Qed.

End CollectFacts.

(** ** The frame limit *)

Lemma convert_frames_firstn
    (py : interpreter)
    (decompress : h5value -> pyvalue -> Z -> result (list Byte.byte))
    (group : list (string * h5node)) (ks : list string) :
  forall idx m,
    fst (convert_frames py decompress group idx (firstn m ks))
    = firstn m (fst (convert_frames py decompress group idx ks)).
Proof.
  induction ks as [|k ks IH]; intros idx m.
  - now destruct m.
  - destruct m as [|m]; [reflexivity|].
    cbn [firstn convert_frames].
    destruct (convert_frame py decompress group idx k) as [file|e]; [|reflexivity].
    specialize (IH (S idx) m).
    destruct (convert_frames py decompress group (S idx) (firstn m ks)) as [files1 e1].
    destruct (convert_frames py decompress group (S idx) ks) as [files2 e2].
    cbn [fst firstn] in *. now rewrite IH.
Qed.

(** X18: a frame limit only cuts the run short: the files written with the
    limit N are the first N files of the run without limit, and with a
    negative limit -K the leading files of that run up to the frame count
    less K, so that the last K frames are left out. *)
Theorem frame_limit_keeps_a_prefix
    (py : interpreter)
    (decompress : h5value -> pyvalue -> Z -> result (list Byte.byte))
    (f group : list (string * h5node)) (group_name : string) (n : Z) :
  lookup f group_name = Some (Group group) ->
  fst (eiger_to_tiff py decompress f group_name (Some n))
  = firstn (if 0 <=? n then Z.to_nat n
            else Z.to_nat (Z.of_nat (List.length group) + n))
           (fst (eiger_to_tiff py decompress f group_name None)).
Proof.
  intros Hgroup. unfold eiger_to_tiff.
  assert (Hc : contains f group_name = true) by (apply contains_lookup; eauto).
  rewrite Hc, Hgroup. cbn [negb].
  unfold frame_keys, list_frame_keys.
  destruct (mapM _ (keys group)) as [keyed_keys|] eqn:Hm; cbn [bind fst].
  - apply mapM_length in Hm.
    assert (Hlen : List.length (map snd (sorted_by_key keyed_keys)) = List.length group).
    { rewrite length_map, (Permutation_length (sorted_by_key_perm keyed_keys)), Hm.
      unfold keys. apply length_map. }
    unfold slice_to. rewrite Hlen.
    destruct (0 <=? n); apply convert_frames_firstn.
  - now rewrite firstn_nil.
Qed.

(** * Sample runs *)

Example select_multi_channel :
  _select_payload_group frame_multi
  = Ok (payload_group [7; 4294967295; 0; 9] (VInts [2; 2]) 4).
Proof. reflexivity. Qed.

Example select_flattened : _select_payload_group frame_flat = Ok frame_flat.
Proof. reflexivity. Qed.

Example select_unknown :
  _select_payload_group frame_unknown
  = Err (LayoutError ["difference"; "threshold_1"]).
Proof. reflexivity. Qed.

Example keys_10_2_1 :
  list_frame_keys py_default [("10", Group []); ("2", Group []); ("1", Group [])]
  = Ok ["1"; "2"; "10"].
Proof. reflexivity. Qed.

(** The multi-channel sample frame takes the first case of C2. *)
Lemma select_payload_group_cases_witness :
  _select_payload_group frame_multi
  = Ok (payload_group [7; 4294967295; 0; 9] (VInts [2; 2]) 4).
Proof.
  apply (proj1 (select_payload_group_cases frame_multi)); reflexivity.
Defined.

(** A frame written with 2-byte elements is refused. *)
Lemma elem_size_mismatch_fails_witness :
  get_frame_array py_default stored_codec frame_two_bytes
  = Err (MetadataMismatchError 2 4 (PStr "<u4")).
Proof.
  apply (elem_size_mismatch_fails py_default stored_codec frame_two_bytes frame_two_bytes
           (payload_of frame_two_bytes)).
  - reflexivity.
  - reflexivity.
  - vm_compute. discriminate.
Defined.

(** A 2 x 3 frame with 16 bytes of pixels is refused. *)
Lemma decoded_size_checked_witness :
  get_frame_array py_default stored_codec frame_short
  = Err (DecodedSizeMismatchError 16 24 [2; 3] "uint32").
Proof.
  apply (decoded_size_checked py_default stored_codec frame_short frame_short
           (payload_of frame_short) 2 3 (pack [1; 2; 3; 4])).
  - reflexivity.
  - reflexivity.
  - reflexivity.
  - reflexivity.
  - lia.
  - lia.
  - lia.
  - reflexivity.
  - vm_compute. discriminate.
Defined.



(** The first frame of the sample file: its saturated pixel is written
    as 0. *)
Lemma sentinel_scrubbed_witness :
  exists children img,
    lookup sample_group "1" = Some (Group children)
    /\ get_frame_array py_default stored_codec children = Ok img
    /\ shape (mk_ndarray [2; 2] [0; 1; 256; 42]) = shape img
    /\ List.length (data (mk_ndarray [2; 2] [0; 1; 256; 42])) = List.length (data img)
    /\ (forall i x, nth_error (data img) i = Some x ->
                   nth_error (data (mk_ndarray [2; 2] [0; 1; 256; 42])) i
                   = Some (if x =? 2 ^ 32 - 1 then 0 else x))
    /\ scrub_sentinel (mk_ndarray [2; 2] [0; 1; 256; 42])
       = mk_ndarray [2; 2] [0; 1; 256; 42].
Proof.
  apply (sentinel_scrubbed py_default stored_codec sample_group 0 "1" "frame_00000.tiff").
  reflexivity.
Defined.

(** The keys of the example, "10", "2" and "1", with a limit of two frames:
    they are taken in the order "1", "2", "10" and the first two are
    converted. *)
Lemma frames_in_numeric_order_witness :
  exists sorted,
    list_frame_keys py_default ten_two_one = Ok sorted
    /\ sorted = ["1"; "2"; "10"]
    /\ Permutation sorted ["10"; "2"; "1"]
    /\ StronglySorted (fun a b => decimal_value a <= decimal_value b) sorted
    /\ eiger_to_tiff py_default stored_codec ten_two_one_file "data" (Some 2)
       = convert_frames py_default stored_codec ten_two_one 0 (firstn 2 sorted).
Proof.
  destruct (frames_in_numeric_order py_default stored_codec ten_two_one_file ten_two_one
              "data" (Some 2))
    as (sorted & Hkeys & Hperm & Hsorted & Hrun & _).
  - reflexivity.
  - repeat constructor.
  - repeat constructor.
  - lia.
  - exists sorted. split; [exact Hkeys|]. split; [|auto].
    cbv in Hkeys. congruence.
Defined.

(** A key of 4301 digits is a decimal string, and [int] refuses it under
    the default limit of 4300 digits: no frame is converted. *)
Lemma long_decimal_key_is_refused :
  is_decimal long_key = true
  /\ list_frame_keys py_default long_key_group = Err (PyError "ValueError")
  /\ eiger_to_tiff py_default stored_codec long_key_file "data" None
     = ([], Some (PyError "ValueError")).
Proof. vm_compute. repeat split. Qed.

Example sample_file_two_frames :
  eiger_to_tiff py_default stored_codec sample_file "data" (Some 2)
  = ([("frame_00000.tiff", mk_ndarray [2; 2] [0; 1; 256; 42]);
      ("frame_00001.tiff", mk_ndarray [2; 2] [0; 1; 256; 42])], None).
Proof. reflexivity. Qed.

(** A shape of 2^32 x 2^32 with an empty buffer passes the size check,
    for NumPy's product of the shape wraps around to 0, and fails in
    [reshape] with an error that reports no length; a shape of 2^32 x 2^31
    with an empty buffer fails with the size error, which reports -2^65
    bytes as expected, where rows x columns x 4 is 2^65. *)
Lemma huge_shape_escapes_the_size_check :
  get_frame_array py_default stored_codec frame_huge = Err (PyError "ValueError")
  /\ get_frame_array py_default stored_codec frame_huge_negative
     = Err (DecodedSizeMismatchError 0 (- 2 ^ 65) [2 ^ 32; 2 ^ 31] "uint32")
  /\ 2 ^ 32 * 2 ^ 31 * 4 = 2 ^ 65.
Proof. vm_compute. repeat split. Qed.

(** Eight pixels over four bins of width one: the pixel at 0.5 counts for
    bin 0, the pixel at 1 for bin 1, the pixels at 3.5 and at 4 for bin 3, and
    the pixels at NaN, infinity, 5 and -1 for no bin. *)
Lemma radial_integrate_binning_witness :
  radial_integrate stable_argsort sample_image sample_angles 0 4 4
  = Ok ([0.5; 1.5; 2.5; 3.5]%float, [1; 16; 0; 34]%float)
  /\ in_bin edges_0_4_4 4 0 0.5 = true
  /\ in_bin edges_0_4_4 4 1 0.5 = false
  /\ in_bin edges_0_4_4 4 3 4 = true
  /\ in_bin edges_0_4_4 4 3 5 = false
  /\ in_bin edges_0_4_4 4 0 nan = false.
Proof.
  pose proof (radial_integrate_binning stable_argsort stable_argsort_sorts
                sample_image sample_angles 0 4 4 edges_0_4_4
                eq_refl eq_refl ltac:(lia) eq_refl eq_refl eq_refl eq_refl) as H.
  cbv zeta in H. destruct H as (Hcall & Hbin & Hlast & Hout).
  split; [rewrite Hcall; reflexivity|].
  split; [apply (Hbin 0.5%float 0%nat); [lia | reflexivity ..]|].
  split; [apply (proj2 (Hbin 0.5%float 0%nat ltac:(lia) eq_refl eq_refl eq_refl));
          lia|].
  split; [apply (Hlast 4%float); reflexivity|].
  split; [apply (Hout 5%float 3%nat); [lia | right; right; reflexivity]|].
  apply (Hout nan 0%nat); [lia | left; reflexivity].
Defined.

(** Between the finite angles -0x1.fp1023 and 0x1.fp1023 the middle edge
    NumPy computes is infinite and above the last: the call raises.  With a
    pixel of 2^53 counts in bin 0, the pixel of one count at 1.5 degrees
    leaves nothing in bin 1. *)
Lemma binning_fails_for_far_ranges_and_bright_pixels :
  (is_finite far_min && is_finite far_max = true
   /\ (far_min <? far_max)%float = true
   /\ radial_integrate stable_argsort one_pixel one_angle far_min far_max 2
      = Err (PyError "ValueError"))
  /\ (in_bin edges_0_4_4 4 1 1.5 = true
      /\ radial_integrate stable_argsort bright_image two_angles 0 4 4
         = Ok ([0.5; 1.5; 2.5; 3.5]%float, [9007199254740992; 0; 0; 0]%float)).
Proof. vm_compute. repeat split. Qed.



Example sample_image_integrated :
  radial_integrate stable_argsort sample_image sample_angles 0 4 4
  = Ok ([0.5; 1.5; 2.5; 3.5]%float, [1; 16; 0; 34]%float).
Proof. reflexivity. Qed.

(** A 2 x 4 image against a 4 x 2 angle map, and the same elements as an
    image of 8 against a map of 2 x 2 x 2: pixel 0 goes with the angle 0.5,
    pixel 4 with the angle 1, pixels 1 and 5 with the angles 4 and 3.5. *)
Lemma radial_integrate_ignores_shapes_witness :
  exists tth_centers sum_I,
    radial_integrate stable_argsort sample_image sample_angles 0 4 4
    = Ok (tth_centers, sum_I)
    /\ List.length tth_centers = 4%nat
    /\ List.length sum_I = 4%nat
    /\ radial_integrate stable_argsort (mk_ndarray [8] (data sample_image))
                        (mk_farray [2; 2; 2] (fdata sample_angles)) 0 4 4
       = Ok (tth_centers, sum_I)
    /\ sum_I = [1; 16; 0; 2 + 32]%float.
Proof.
  destruct (radial_integrate_ignores_shapes stable_argsort
              sample_image sample_angles 0 4 4 edges_0_4_4
              eq_refl eq_refl ltac:(lia) eq_refl eq_refl)
    as (tth_centers & sum_I & Hcall & Hc & Hs & Hshapes & Hsum).
  exists tth_centers, sum_I.
  split; [exact Hcall|]. split; [exact Hc|]. split; [exact Hs|].
  split; [apply Hshapes|].
  rewrite (Hsum stable_argsort_sorts eq_refl eq_refl). reflexivity.
Defined.

(** Between the finite angles -0x1.fp1023 and 0x1.fp1023 the call raises
    for a 2 x 4 image and a 4 x 2 angle map of eight elements each. *)
Lemma equal_counts_do_not_make_the_call_return :
  is_finite far_min && is_finite far_max = true
  /\ (far_min <? far_max)%float = true
  /\ List.length (data sample_image) = List.length (fdata sample_angles)
  /\ radial_integrate stable_argsort sample_image sample_angles far_min far_max 2
     = Err (PyError "ValueError").
Proof. vm_compute. repeat split. Qed.

(** ** Runs of the further properties *)

(** The second frame of the broken group stops the run after one file; the
    third frame is not decoded. *)
Lemma conversion_stops_at_first_failure_witness :
  convert_frames py_default stored_codec broken_group 0 (["1"] ++ "2" :: ["3"])
  = ([("frame_00000.tiff", mk_ndarray [2; 2] [0; 1; 256; 42])],
     Some (MetadataMismatchError 2 4 (PStr "<u4"))).
Proof.
  apply (conversion_stops_at_first_failure py_default stored_codec broken_group 0 ["1"] ["3"] "2").
  - reflexivity.
  - reflexivity.
Defined.

(** The three frames of the sample file, keys "1", "2" and "10", are written
    as frames 0, 1 and 2. *)
Lemma written_files_are_numbered_witness :
  map fst (fst (eiger_to_tiff py_default stored_codec sample_file "data" None))
  = ["frame_00000.tiff"; "frame_00001.tiff"; "frame_00002.tiff"]
  /\ map frame_index (map fst (fst (eiger_to_tiff py_default stored_codec sample_file "data" None)))
     = [0; 1; 2]%nat.
Proof.
  destruct (written_files_are_numbered py_default stored_codec sample_file "data" None
              (fst (eiger_to_tiff py_default stored_codec sample_file "data" None)) None eq_refl)
    as (Hnames & Hidx & _).
  split; [exact Hnames | exact Hidx].
Defined.

(** The difference channel wins over the five fields of the frame group
    itself. *)
Lemma difference_channel_decides_witness :
  get_frame_array py_default stored_codec frame_multi = get_frame_array py_default stored_codec frame_both
  /\ get_frame_array py_default stored_codec frame_both
     = Ok (mk_ndarray [2; 2] [7; 4294967295; 0; 9]).
Proof.
  destruct (difference_channel_decides py_default stored_codec frame_multi frame_both
              (payload_group [7; 4294967295; 0; 9] (VInts [2; 2]) 4)
              eq_refl eq_refl eq_refl) as (Hsame & Hdiff).
  split; [exact Hsame|]. rewrite <- Hsame. exact Hdiff.
Defined.

(** The frame with the scalar shape: twelve bytes, three words. *)
Lemma decoded_frame_is_the_buffer_witness :
  exists buf,
    data (mk_ndarray [3] [1; 2; 3]) = words_of buf
    /\ Z.of_nat (List.length buf) = 4 * 3
    /\ nth_error [1; 2; 3] 2
       = Some (le32 (nth 8 buf Byte.x00) (nth 9 buf Byte.x00)
                    (nth 10 buf Byte.x00) (nth 11 buf Byte.x00)).
Proof.
  destruct (decoded_frame_is_the_buffer py_default stored_codec frame_scalar_shape
              (mk_ndarray [3] [1; 2; 3]) eq_refl)
    as (payload & p & buf & _ & _ & _ & Hdata & Hlen & Hnth).
  exists buf. split; [exact Hdata|]. split; [exact Hlen|].
  apply (Hnth 2%nat). cbn. lia.
Defined.

(** The key "1a" fails the conversion of a file whose frames are sound. *)
Lemma non_numeric_key_fails_witness :
  eiger_to_tiff py_default stored_codec odd_key_file "data" (Some 1)
  = ([], Some (PyError "ValueError")).
Proof.
  apply (non_numeric_key_fails py_default stored_codec odd_key_file
           [("1", Group frame_flat); ("1a", Group frame_flat)] "data" "1a" (Some 1)).
  - reflexivity.
  - cbn. auto.
  - reflexivity.
Defined.

(** Two of the three frames of the sample file. *)
Lemma frame_limit_bounds_the_run_witness :
  (List.length (fst (eiger_to_tiff py_default stored_codec sample_file "data" (Some 2%Z)))
   <= Z.to_nat 2%Z)%nat.
Proof.
  apply (proj1 (frame_limit_bounds_the_run py_default stored_codec sample_file sample_group "data" 2
                  eq_refl ltac:(lia))).
Defined.

(** The keys "1" and "01" stay in this order behind the key "0". *)
Lemma equal_keys_keep_their_order_witness :
  filter (fun k => key_value py_default k =? 1) ["0"; "1"; "01"] = ["1"; "01"].
Proof.
  apply (equal_keys_keep_their_order py_default equal_keys_group ["0"; "1"; "01"] 1).
  reflexivity.
Defined.

(** Five edges from 0 to 4. *)
Lemma linspace_spans_the_range_witness :
  exists edges,
    linspace 0 4 5 = Ok edges
    /\ List.length edges = 5%nat
    /\ nth 4 edges nan = 4%float.
Proof.
  destruct (linspace_spans_the_range 0 4 5 ltac:(lia))
    as (edges & Hcall & Hlen & Hlast & _).
  exists edges. split; [exact Hcall|]. split; [exact Hlen | exact Hlast].
Defined.

(** The bins of the sample image hold 51 counts: the pixels at 0.5, 4, 1
    and 3.5 degrees. *)
Lemma bins_sum_to_the_intensity_in_range_witness :
  exists tth_centers sums,
    radial_integrate stable_argsort sample_image sample_angles 0 4 4
    = Ok (tth_centers, map astype_float sums)
    /\ fold_right Z.add 0 sums = 1 + 2 + 16 + 32.
Proof.
  destruct (bins_sum_to_the_intensity_in_range stable_argsort
              sample_image sample_angles 0 4 4 edges_0_4_4
              stable_argsort_sorts eq_refl ltac:(lia) eq_refl eq_refl eq_refl eq_refl)
    as (tth_centers & sums & Hcall & _ & Hsum).
  exists tth_centers, sums. split; [exact Hcall | exact Hsum].
Defined.

(** No bin of the sample image is negative or above 255, the sum of its
    pixels. *)
Lemma bins_are_bounded_by_the_image_witness :
  exists tth_centers sums,
    radial_integrate stable_argsort sample_image sample_angles 0 4 4
    = Ok (tth_centers, map astype_float sums)
    /\ Forall (fun s => 0 <= s <= 255) sums.
Proof.
  destruct (bins_are_bounded_by_the_image stable_argsort
              sample_image sample_angles 0 4 4 edges_0_4_4
              stable_argsort_sorts eq_refl ltac:(lia) eq_refl eq_refl eq_refl)
    as (tth_centers & sums & Hcall & Hbound).
  - cbn. repeat constructor; lia.
  - reflexivity.
  - exists tth_centers, sums. split; [exact Hcall|].
    eapply Forall_impl; [|exact Hbound]. intros s [_ Hs]. exact Hs.
Defined.

(** A limit of -1 leaves out the last of the three frames of the sample
    file. *)
Lemma frame_limit_keeps_a_prefix_witness :
  fst (eiger_to_tiff py_default stored_codec sample_file "data" (Some (-1)))
  = firstn 2 (fst (eiger_to_tiff py_default stored_codec sample_file "data" None)).
Proof.
  apply (frame_limit_keeps_a_prefix py_default stored_codec sample_file sample_group "data" (-1)).
  reflexivity.
Defined.

(** The folder [empty] has no image; the image of the folder [tall] is
    4 x 2 against a map of 2 x 4. *)
Lemma batch_checks_before_the_loop_witness :
  integrate_tiff_folder sample_abspath sample_glob sample_imread stable_argsort (Ok sample_instrument)
                        "empty" 0 4 4 "*.tiff,*.tif" "pattern"
  = ([], Some NoMatchingFilesError)
  /\ integrate_tiff_folder sample_abspath sample_glob sample_imread stable_argsort (Ok sample_instrument)
                           "tall" 0 4 4 "*.tiff,*.tif" "pattern"
     = ([], Some (GeometryShapeMismatchError [4; 2] [2; 4])).
Proof.
  split.
  - apply (proj1 (batch_checks_before_the_loop sample_abspath sample_glob sample_imread
                    stable_argsort
                    (Ok sample_instrument) "empty" 0 4 4 "*.tiff,*.tif" "pattern")).
    reflexivity.
  - destruct (batch_checks_before_the_loop sample_abspath sample_glob sample_imread
                    stable_argsort
                (Ok sample_instrument) "tall" 0 4 4 "*.tiff,*.tif" "pattern")
      as (_ & _ & _ & Hshape).
    apply (Hshape "/work/tall/b.tiff" [] sample_map tall_image).
    + reflexivity.
    + reflexivity.
    + reflexivity.
    + cbn. discriminate.
Defined.

Example sample_run_tables :
  sample_run
  = ([("/work/out/pattern_a.txt", ([0.5; 1.5; 2.5; 3.5]%float, [1; 10; 16; 0]%float));
      ("/work/out/pattern_b.txt", ([0.5; 1.5; 2.5; 3.5]%float, [128; 80; 8; 0]%float))],
     Some (Raised (PyError "OSError"))).
Proof. reflexivity. Qed.

(** The run over the folder [run]: the first image has the shape of the
    map, the second has not and is integrated all the same, the third
    cannot be read and stops the run behind two tables. *)
Lemma batch_integrates_in_order_witness :
  (forall j table, nth_error (fst sample_run) j = Some table ->
     exists tiff_path img pattern,
       nth_error ["/work/run/a.tiff"; "/work/run/b.tiff"; "/work/run/c.tif"] j
       = Some tiff_path
       /\ sample_imread tiff_path = Ok img
       /\ radial_integrate stable_argsort img sample_map 0 4 4 = Ok pattern
       /\ table = (output_name (normalized_prefix sample_abspath "out/pattern_") tiff_path,
                   pattern))
  /\ List.length (fst sample_run) = 2%nat
  /\ snd sample_run = Some (Raised (PyError "OSError")).
Proof.
  destruct (batch_integrates_in_order sample_abspath sample_glob sample_imread
              stable_argsort
              (Ok sample_instrument) "run" 0 4 4 "*.tiff, *.tif" "out/pattern_"
              "/work/run/a.tiff" ["/work/run/b.tiff"; "/work/run/c.tif"]
              sample_map sample_image (fst sample_run) (snd sample_run)
              eq_refl eq_refl eq_refl eq_refl eq_refl)
    as (Htables & _ & _).
  split; [exact Htables|]. split; reflexivity.
Defined.

(** The default prefix with and without an underscore at its end. *)
Lemma prefix_loses_trailing_underscores_witness :
  normalized_prefix sample_abspath ("pattern" ++ "_")
  = normalized_prefix sample_abspath "pattern".
Proof.
  apply (proj2 (prefix_loses_trailing_underscores sample_abspath "pattern")).
  reflexivity.
Defined.

(** A stem with a dot of its own keeps it. *)
Lemma table_is_named_after_the_image_witness :
  output_name "pattern" ("/work/run" ++ "/" ++ "scan.0001" ++ "." ++ "tiff")
  = "pattern" ++ "_" ++ "scan.0001" ++ ".txt".
Proof.
  apply (table_is_named_after_the_image "pattern" "/work/run" "scan.0001" "tiff");
    reflexivity.
Defined.

(** The patterns of the folder [run]: the second has a space before
    it. *)
Lemma collected_files_are_the_sorted_matches_witness :
  collect_tiff_files sample_abspath sample_glob "run" "*.tiff, *.tif"
  = ["/work/run/a.tiff"; "/work/run/b.tiff"; "/work/run/c.tif"]
  /\ exists pieces patterns,
       list_ascii_of_string "*.tiff, *.tif" = join_commas pieces
       /\ Forall (fun piece => ~ In ","%char piece) pieces
       /\ Forall2 trimmed pieces patterns
       /\ Permutation
            ["/work/run/a.tiff"; "/work/run/b.tiff"; "/work/run/c.tif"]
            (flat_map (fun pat => sample_glob (string_of_list_ascii
                                                 (path_join
                                                    (list_ascii_of_string "/work/run")
                                                    pat)))
                      patterns)
       /\ Sorted path_le ["/work/run/a.tiff"; "/work/run/b.tiff"; "/work/run/c.tif"].
Proof.
  split; [reflexivity|].
  apply (collected_files_are_the_sorted_matches sample_abspath sample_glob
           "run" "*.tiff, *.tif").
  reflexivity.
Defined.
